(** * The curl input plugin of MPD (src/input_curl.c): buffering, rewind, seek

    A shallow embedding of [input_curl.c].  The plugin keeps two lists of
    [struct buffer]: [buffers] (received, not yet read) and [rewind] (already
    read, kept for a cheap seek to offset 0).  libcurl, glib and select(2)
    are outside the file: libcurl and select are modelled by a scripted
    [engine] whose replies the code consumes in order, the glib string
    helpers by their documented behaviour.

    Conventions:
    - [size_t] quantities are lengths of lists ([nat]); every subtraction in
      the source is guarded by a comparison, so no wrap-around occurs;
    - [off_t] is a signed 64-bit integer, here a [Z]; where the source adds
      to an offset a value that the caller or the server chooses (the sums
      of [input_curl_seek], and [is->offset + g_ascii_strtoull(...)] in the
      header callback) the 64-bit wrap-around is written out ([to_off_t]);
    - a [struct buffer] stores [size] and [data]; here [buf_size] is the
      length of the payload, as set by [input_curl_writefunction];
    - the [assert]s of the source are not executed: [wf_stream] states
      them, and every operation keeps a stream well-formed
      ([operations_keep_wf]). *)

From Stdlib Require Import String DecimalString.
From Stdlib Require Import Strings.Byte.
From Stdlib Require Import ZArith List Bool Lia.
Import ListNotations.
Open Scope Z_scope.

(** ** Bytes *)

Definition bytes (s : string) : list byte := list_byte_of_string s.

Definition code (b : byte) : Z := Z.of_N (Byte.to_N b).

Definition is_empty {A : Type} (l : list A) : bool :=
  match l with [] => true | _ :: _ => false end.

(** ** Data model *)

(** rewinding is possible after up to 64 kB *)
Definition max_rewind_size : Z := 64 * 1024.

(** [struct buffer] *)
Record buffer : Type := mk_buffer {
  buf_data : list byte;     (* the payload *)
  buf_consumed : nat        (* how much has been consumed yet? *)
}.

Definition buf_size (b : buffer) : nat := length (buf_data b).

(** [struct input_curl].  [c_easy] is the easy handle ([None] for NULL);
    the multi handle lives in the [engine]; [request_headers] is always
    NULL in the source and is left out. *)
Record input_curl : Type := mk_input_curl {
  c_url : list byte;
  c_range : option (list byte);
  c_easy : option nat;
  c_buffers : list buffer;
  c_buffered : bool;
  c_eof : bool;
  c_rewind : list buffer
}.

(** The fields of the host's [struct input_stream] that the plugin uses. *)
Record input_stream : Type := mk_input_stream {
  is_data : input_curl;
  is_offset : Z;
  is_size : Z;                      (* negative: not known *)
  is_seekable : bool;
  is_error : Z;
  is_ready : bool;
  is_mime : option (list byte);
  is_meta_name : option (list byte)
}.

Definition set_c_range (r : option (list byte)) (c : input_curl) : input_curl :=
  mk_input_curl (c_url c) r (c_easy c) (c_buffers c) (c_buffered c) (c_eof c)
    (c_rewind c).
Definition set_c_easy (h : option nat) (c : input_curl) : input_curl :=
  mk_input_curl (c_url c) (c_range c) h (c_buffers c) (c_buffered c) (c_eof c)
    (c_rewind c).
Definition set_c_buffers (l : list buffer) (c : input_curl) : input_curl :=
  mk_input_curl (c_url c) (c_range c) (c_easy c) l (c_buffered c) (c_eof c)
    (c_rewind c).
Definition set_c_buffered (b : bool) (c : input_curl) : input_curl :=
  mk_input_curl (c_url c) (c_range c) (c_easy c) (c_buffers c) b (c_eof c)
    (c_rewind c).
Definition set_c_eof (b : bool) (c : input_curl) : input_curl :=
  mk_input_curl (c_url c) (c_range c) (c_easy c) (c_buffers c) (c_buffered c) b
    (c_rewind c).
Definition set_c_rewind (l : list buffer) (c : input_curl) : input_curl :=
  mk_input_curl (c_url c) (c_range c) (c_easy c) (c_buffers c) (c_buffered c)
    (c_eof c) l.

Definition set_data (c : input_curl) (s : input_stream) : input_stream :=
  mk_input_stream c (is_offset s) (is_size s) (is_seekable s) (is_error s)
    (is_ready s) (is_mime s) (is_meta_name s).
Definition set_offset (o : Z) (s : input_stream) : input_stream :=
  mk_input_stream (is_data s) o (is_size s) (is_seekable s) (is_error s)
    (is_ready s) (is_mime s) (is_meta_name s).
Definition set_size (z : Z) (s : input_stream) : input_stream :=
  mk_input_stream (is_data s) (is_offset s) z (is_seekable s) (is_error s)
    (is_ready s) (is_mime s) (is_meta_name s).
Definition set_seekable (b : bool) (s : input_stream) : input_stream :=
  mk_input_stream (is_data s) (is_offset s) (is_size s) b (is_error s)
    (is_ready s) (is_mime s) (is_meta_name s).
Definition set_error (z : Z) (s : input_stream) : input_stream :=
  mk_input_stream (is_data s) (is_offset s) (is_size s) (is_seekable s) z
    (is_ready s) (is_mime s) (is_meta_name s).
Definition set_ready (b : bool) (s : input_stream) : input_stream :=
  mk_input_stream (is_data s) (is_offset s) (is_size s) (is_seekable s)
    (is_error s) b (is_mime s) (is_meta_name s).
Definition set_mime (m : option (list byte)) (s : input_stream) : input_stream :=
  mk_input_stream (is_data s) (is_offset s) (is_size s) (is_seekable s)
    (is_error s) (is_ready s) m (is_meta_name s).
Definition set_meta_name (m : option (list byte)) (s : input_stream)
  : input_stream :=
  mk_input_stream (is_data s) (is_offset s) (is_size s) (is_seekable s)
    (is_error s) (is_ready s) (is_mime s) m.

(** [f] applied to the plugin's part of the stream ([is->data]). *)
Definition on_data (f : input_curl -> input_curl) (s : input_stream)
  : input_stream := set_data (f (is_data s)) s.

(** ** The transfer engine: libcurl's multi interface and select(2) *)

Definition CURLM_CALL_MULTI_PERFORM : Z := -1.
Definition CURLM_OK : Z := 0.
Definition CURLE_OK : Z := 0.
Definition CURLMSG_DONE : Z := 1.

(** [CURLMsg]: the message kind and, for [CURLMSG_DONE], the result. *)
Record CURLMsg : Type := mk_msg { msg : Z; msg_result : Z }.

(** What libcurl hands to the callbacks during one [curl_multi_perform]. *)
Inductive callback : Type :=
| HeaderLine (line : list byte)      (* CURLOPT_HEADERFUNCTION *)
| BodyData (payload : list byte).    (* CURLOPT_WRITEFUNCTION *)

(** One [curl_multi_perform]: the callbacks it runs, the code it returns and
    the messages it queues for [curl_multi_info_read]. *)
Record perform_reply : Type := mk_perform {
  pr_callbacks : list callback;
  pr_mcode : Z;
  pr_msgs : list CURLMsg
}.

(** One [input_curl_select]: [curl_multi_fdset] may fail; otherwise
    select(2) returns. *)
Inductive select_reply : Type :=
| FdsetFails (mcode : Z)
| SelectReturns (ret : Z).

(** One [input_curl_easy_init]: the handle of [curl_easy_init] (NULL is
    [None]), the code of [curl_multi_add_handle], the code of
    [curl_easy_setopt(CURLOPT_URL)]. *)
Record init_reply : Type := mk_init {
  ir_easy : option nat;
  ir_add : Z;
  ir_url : Z
}.

(** The engine: the replies still to come, and the multi handle's message
    queue.  A request is started by consuming an [init_reply], polled by
    consuming a [perform_reply], waited for by consuming a [select_reply]:
    an engine left unchanged has not been called. *)
Record engine : Type := mk_engine {
  inits : list init_reply;
  performs : list perform_reply;
  selects : list select_reply;
  pending : list CURLMsg
}.

(** A call either returns, or the script has no further reply for it and
    the call is still waiting for the engine ([Stuck]). *)
Inductive outcome (A : Type) : Type :=
| Returns (e : engine) (s : input_stream) (a : A)
| Stuck (e : engine) (s : input_stream).
Arguments Returns {A} e s a.
Arguments Stuck {A} e s.

Definition out_engine {A} (o : outcome A) : engine :=
  match o with Returns e _ _ => e | Stuck e _ => e end.
Definition out_stream {A} (o : outcome A) : input_stream :=
  match o with Returns _ s _ => s | Stuck _ s => s end.

(** ** Freeing *)

(** [input_curl_easy_free]: removes and cleans up the easy handle (its
    queued messages go with it), and frees both buffer lists. *)
Definition input_curl_easy_free (e : engine) (c : input_curl)
  : engine * input_curl :=
  let e1 := match c_easy c with
            | Some _ => mk_engine (inits e) (performs e) (selects e) []
            | None => e
            end in
  (e1, mk_input_curl (c_url c) None None [] (c_buffered c) (c_eof c) []).

(** ** Consuming buffers *)

(** [consume_buffer(buffer, length, rewind_head)], for [buffer] the first
    element of [c->buffers] (all callers pass that one) and [rewind_head]
    either [&c->rewind] ([keep = true]) or NULL. *)
Definition consume_buffer (length : nat) (keep : bool) (c : input_curl)
  : input_curl :=
  match c_buffers c with
  | [] => c
  | b :: rest =>
      let b' := mk_buffer (buf_data b) (buf_consumed b + length) in
      if (buf_consumed b' <? buf_size b')%nat then
        set_c_buffers (b' :: rest) c
      else if keep then
        (* append this buffer to the rewind buffer list *)
        set_c_rewind (c_rewind c ++ [b']) (set_c_buffers rest c)
      else
        set_c_buffers rest c
  end.

(** [read_from_buffer]: the bytes copied to [dest] and the new lists. *)
Definition read_from_buffer (length : nat) (keep : bool) (c : input_curl)
  : list byte * input_curl :=
  match c_buffers c with
  | [] => ([], c)
  | b :: _ =>
      let length' := if (buf_size b - buf_consumed b <? length)%nat
                     then (buf_size b - buf_consumed b)%nat else length in
      (firstn length' (skipn (buf_consumed b) (buf_data b)),
       consume_buffer length' keep c)
  end.

(** The copy loop of [input_curl_read]:
    [while (size > 0 && !list_empty(&c->buffers))].  Every iteration either
    unlinks the first buffer or uses up [size], so the number of buffers
    bounds the number of iterations ([read_loop_exit]). *)
Fixpoint read_loop (fuel : nat) (size : nat) (keep : bool) (c : input_curl)
  : list byte * input_curl :=
  if (size =? 0)%nat || is_empty (c_buffers c) then ([], c)
  else match fuel with
       | O => ([], c)
       | S fuel' =>
           let (copy, c1) := read_from_buffer size keep c in
           let (more, c2) := read_loop fuel' (size - length copy) keep c1 in
           (copy ++ more, c2)
       end.

(** ** Callbacks *)

(** [input_curl_writefunction]: [payload] has [size * nmemb] bytes. *)
Definition input_curl_writefunction (payload : list byte) (s : input_stream)
  : input_stream :=
  match payload with
  | [] => s
  | _ :: _ =>
      let c := is_data s in
      set_ready true
        (set_data
           (set_c_buffered true
              (set_c_buffers (c_buffers c ++ [mk_buffer payload 0]) c)) s)
  end.

(** ** C strings and the glib helpers used by the header callback *)

(** The C string stored in a byte array: the bytes before the first NUL. *)
Fixpoint c_str (l : list byte) : list byte :=
  match l with
  | [] => []
  | b :: r => if code b =? 0 then [] else b :: c_str r
  end.

(** [memchr(l, c, length l)]: the index of the first [c]. *)
Fixpoint memchr (c : byte) (l : list byte) : option nat :=
  match l with
  | [] => None
  | b :: r => if Byte.eqb b c then Some O
              else match memchr c r with
                   | Some i => Some (S i)
                   | None => None
                   end
  end.

(** [g_ascii_isspace]: space, tab, line feed, form feed and carriage
    return; glib's table does not count the vertical tab (code 11). *)
Definition g_ascii_isspace (b : byte) : bool :=
  (code b =? 32) || (code b =? 9) || (code b =? 10) || (code b =? 12)
  || (code b =? 13).

Definition g_ascii_isdigit (b : byte) : bool :=
  (48 <=? code b) && (code b <=? 57).

(** [tolower] in the C locale, on character codes. *)
Definition lower_code (b : byte) : Z :=
  if (65 <=? code b) && (code b <=? 90) then code b + 32 else code b.

Fixpoint codes_eqb (l1 l2 : list Z) : bool :=
  match l1, l2 with
  | [], [] => true
  | x :: r1, y :: r2 => (x =? y) && codes_eqb r1 r2
  | _, _ => false
  end.

(** [strcasecmp(a, b) == 0] for the C strings stored in [a] and [b]. *)
Definition strcasecmp_eq (a b : list byte) : bool :=
  codes_eqb (map lower_code (c_str a)) (map lower_code (c_str b)).

(** [while (value < end && g_ascii_isspace( *value)) ++value] *)
Fixpoint skip_spaces (l : list byte) : list byte :=
  match l with
  | [] => []
  | b :: r => if g_ascii_isspace b then skip_spaces r else l
  end.

(** [while (end > value && g_ascii_isspace(end[-1])) --end] *)
Definition trim_right (l : list byte) : list byte :=
  rev (skip_spaces (rev l)).

(** [g_strndup(value, n)], for [l] the [n] bytes at [value]. *)
Definition g_strndup (l : list byte) : list byte := c_str l.

Definition G_MAXUINT64 : Z := 2 ^ 64 - 1.

(** The white space that [g_ascii_strtoull] skips before the number: the
    bytes above and the vertical tab. *)
Definition strtoull_isspace (b : byte) : bool :=
  g_ascii_isspace b || (code b =? 11).

Fixpoint strtoull_skip (l : list byte) : list byte :=
  match l with
  | [] => []
  | b :: r => if strtoull_isspace b then strtoull_skip r else l
  end.

(** The digit loop of [strtoull] in base 10: the accumulator, and whether
    the value went past [G_MAXUINT64]. *)
Fixpoint strtoull_digits (l : list byte) (acc : Z) (overflow : bool)
  : Z * bool :=
  match l with
  | [] => (acc, overflow)
  | b :: r =>
      if g_ascii_isdigit b then
        let d := code b - 48 in
        if overflow || (G_MAXUINT64 <? acc * 10 + d)
        then strtoull_digits r acc true
        else strtoull_digits r (acc * 10 + d) false
      else (acc, overflow)
  end.

(** [g_ascii_strtoull(nptr, NULL, 10)] on the C string [nptr], as glib
    documents it (strtoull of the C locale): leading white space, an
    optional sign, decimal digits; 0 if there is no digit, [G_MAXUINT64]
    on overflow, negated modulo 2^64 after a minus sign. *)
Definition g_ascii_strtoull (nptr : list byte) : Z :=
  let s := strtoull_skip nptr in
  let '(negative, s1) :=
    match s with
    | b :: r => if code b =? 45 then (true, r)
                else if code b =? 43 then (false, r)
                else (false, s)
    | [] => (false, s)
    end in
  let '(acc, overflow) := strtoull_digits s1 0 false in
  let result := if overflow then G_MAXUINT64 else acc in
  if negative then (- result) mod 2 ^ 64 else result.

(** A 64-bit sum as the signed [off_t] holds it (two's complement). *)
Definition to_off_t (z : Z) : Z :=
  let u := z mod 2 ^ 64 in
  if u <? 2 ^ 63 then u else u - 2 ^ 64.

(** [input_curl_headerfunction]: [header] has [size * nmemb] bytes. *)
Definition input_curl_headerfunction (header : list byte) (s : input_stream)
  : input_stream :=
  match memchr ":"%byte header with
  | None => s
  | Some i =>
      if (64 <=? i)%nat then s                    (* sizeof(name) *)
      else
        let name := c_str (firstn i header) in
        (* skip the colon, strip the value *)
        let after := skip_spaces (skipn (S i) header) in
        let value := trim_right after in
        (* end - header *)
        let end_off := (length header - (length after - length value))%nat in
        if strcasecmp_eq name (bytes "accept-ranges") then
          set_seekable true s
        else if strcasecmp_eq name (bytes "content-length") then
          if (64 <=? end_off)%nat then s          (* sizeof(buffer) *)
          else
            let buffer := c_str value in
            set_size (to_off_t (is_offset s + g_ascii_strtoull buffer)) s
        else if strcasecmp_eq name (bytes "content-type") then
          set_mime (Some (g_strndup value)) s
        else if strcasecmp_eq name (bytes "icy-name")
                || strcasecmp_eq name (bytes "ice-name")
                || strcasecmp_eq name (bytes "x-audiocast-name") then
          set_meta_name (Some (g_strndup value)) s
        else s
  end.

(** ** Calls into the engine *)

Definition run_callback (s : input_stream) (cb : callback) : input_stream :=
  match cb with
  | HeaderLine line => input_curl_headerfunction line s
  | BodyData payload => input_curl_writefunction payload s
  end.

(** [curl_multi_perform(c->multi, &running_handles)]: [None] when the script
    has no further reply. *)
Definition curl_multi_perform (e : engine) (s : input_stream)
  : option (engine * input_stream * Z) :=
  match performs e with
  | [] => None
  | p :: rest =>
      Some (mk_engine (inits e) rest (selects e) (pending e ++ pr_msgs p),
            fold_left run_callback (pr_callbacks p) s,
            pr_mcode p)
  end.

(** The loop of [input_curl_multi_info_read] over the queued messages: the
    messages left in the queue, the stream, and the value returned. *)
Fixpoint info_read_loop (msgs : list CURLMsg) (s : input_stream)
  : list CURLMsg * input_stream * bool :=
  match msgs with
  | [] => ([], s, true)
  | m :: rest =>
      if msg m =? CURLMSG_DONE then
        let s1 := on_data (set_c_eof true) s in
        if negb (msg_result m =? CURLE_OK)
        then (rest, set_error (-1) s1, false)
        else info_read_loop rest s1
      else info_read_loop rest s
  end.

Definition input_curl_multi_info_read (e : engine) (s : input_stream)
  : engine * input_stream * bool :=
  let '(queue, s1, ret) := info_read_loop (pending e) s in
  (mk_engine (inits e) (performs e) (selects e) queue, s1, ret).

(** [input_curl_select]: -1 on error, 0 if no data is available yet, 1 if
    data is available. *)
Definition input_curl_select (e : engine) : option (engine * Z) :=
  match selects e with
  | [] => None
  | r :: rest =>
      let e1 := mk_engine (inits e) (performs e) rest (pending e) in
      match r with
      | FdsetFails _ => Some (e1, -1)
      | SelectReturns ret => Some (e1, ret)
      end
  end.

(** ** Reading *)

(** The fill loop of [input_curl_read]:
    [while (!c->eof && list_empty(&c->buffers))].  It returns [true] when
    the loop is left normally and [false] where the source returns 0 from
    inside the loop.  Every iteration that does not return consumes one
    [perform_reply], so one more than the replies left is fuel enough
    ([read_fill_fuel]). *)
Fixpoint read_fill (fuel : nat) (mcode : Z) (e : engine) (s : input_stream)
  : outcome bool :=
  if negb (c_eof (is_data s)) && is_empty (c_buffers (is_data s)) then
    match fuel with
    | O => Stuck e s
    | S fuel' =>
        let perform (e1 : engine) : outcome bool :=
          match curl_multi_perform e1 s with
          | None => Stuck e1 s
          | Some (e2, s2, mcode2) =>
              if negb (mcode2 =? CURLM_OK)
                 && negb (mcode2 =? CURLM_CALL_MULTI_PERFORM)
              then Returns e2 (on_data (set_c_eof true) s2) false
              else
                let '(e3, s3, bret) := input_curl_multi_info_read e2 s2 in
                if negb bret then Returns e3 s3 false
                else read_fill fuel' mcode2 e3 s3
          end in
        if negb (mcode =? CURLM_CALL_MULTI_PERFORM) then
          (* if we're still here, there is no input yet - wait for input *)
          match input_curl_select e with
          | None => Stuck e s
          | Some (e1, ret) =>
              if ret <=? 0 then Returns e1 s false  (* no data yet or error *)
              else perform e1
          end
        else perform e
    end
  else Returns e s true.

(** The choice of [rewind_head] in [input_curl_read] and in the loop of
    [input_curl_seek]: [&c->rewind] at the beginning or when already
    writing the rewind buffer list, else NULL. *)
Definition rewind_head (s : input_stream) : bool :=
  negb (is_empty (c_rewind (is_data s))) || (is_offset s =? 0).

(** [input_curl_read(is, ptr, size)]: the bytes stored at [ptr]; their
    number is the value returned. *)
Definition input_curl_read (e : engine) (s : input_stream) (size : nat)
  : outcome (list byte) :=
  match read_fill (S (length (performs e))) CURLM_CALL_MULTI_PERFORM e s with
  | Stuck e1 s1 => Stuck e1 s1
  | Returns e1 s1 false => Returns e1 s1 []
  | Returns e1 s1 true =>
      (* send buffer contents *)
      let keep := rewind_head s1 in
      let (out, c1) :=
        read_loop (length (c_buffers (is_data s1))) size keep (is_data s1) in
      let offset := is_offset s1 + Z.of_nat (length out) in
      let c2 := if keep && (max_rewind_size <? offset)
                then set_c_rewind [] c1   (* it has grown too large *)
                else c1 in
      Returns e1 (set_offset offset (set_data c2 s1)) out
  end.

Definition input_curl_eof (s : input_stream) : bool :=
  c_eof (is_data s) && is_empty (c_buffers (is_data s)).

(** A loop [do { mcode = curl_multi_perform(...); } while (again)], where
    [again] is a test on [mcode] and the stream.  Each iteration consumes a
    [perform_reply]; the loop is [Stuck] when none is left. *)
Fixpoint perform_loop (again : Z -> input_stream -> bool) (fuel : nat)
  (e : engine) (s : input_stream) : outcome Z :=
  match fuel with
  | O => Stuck e s
  | S fuel' =>
      match curl_multi_perform e s with
      | None => Stuck e s
      | Some (e1, s1, mcode) =>
          if again mcode s1 then perform_loop again fuel' e1 s1
          else Returns e1 s1 mcode
      end
  end.

(** [input_curl_buffer]: -1, or [c->buffered] as 0 or 1. *)
Definition input_curl_buffer (e : engine) (s : input_stream) : outcome Z :=
  let again (mcode : Z) (s1 : input_stream) :=
    (mcode =? CURLM_CALL_MULTI_PERFORM)
    && is_empty (c_buffers (is_data s1)) in
  match perform_loop again (length (performs e)) e
          (on_data (set_c_buffered false) s) with
  | Stuck e1 s1 => Stuck e1 s1
  | Returns e1 s1 mcode =>
      if negb (mcode =? CURLM_OK) && negb (mcode =? CURLM_CALL_MULTI_PERFORM)
      then Returns e1 (on_data (set_c_eof true) s1) (-1)
      else
        let '(e2, s2, ret) := input_curl_multi_info_read e1 s1 in
        if negb ret then Returns e2 s2 (-1)
        else Returns e2 s2 (if c_buffered (is_data s2) then 1 else 0)
  end.

(** ** Starting a request *)

(** [input_curl_easy_init]: [None] when the script has no further reply. *)
Definition input_curl_easy_init (e : engine) (s : input_stream)
  : option (engine * input_stream * bool) :=
  match inits e with
  | [] => None
  | r :: rest =>
      let e1 := mk_engine rest (performs e) (selects e) (pending e) in
      let s1 := on_data (fun c => set_c_easy (ir_easy r) (set_c_eof false c)) s in
      match ir_easy r with
      | None => Some (e1, s1, false)        (* curl_easy_init() failed *)
      | Some _ =>
          if negb (ir_add r =? CURLM_OK) then Some (e1, s1, false)
          else if negb (ir_url r =? CURLE_OK) then Some (e1, s1, false)
          else Some (e1, s1, true)
      end
  end.

Definition input_curl_send_request (e : engine) (s : input_stream)
  : outcome bool :=
  match perform_loop (fun mcode _ => mcode =? CURLM_CALL_MULTI_PERFORM)
          (length (performs e)) e s with
  | Stuck e1 s1 => Stuck e1 s1
  | Returns e1 s1 mcode => Returns e1 s1 (mcode =? CURLM_OK)
  end.

(** ** Rewinding and seeking *)

Definition input_curl_can_rewind (s : input_stream) : bool :=
  let c := is_data s in
  if negb (is_empty (c_rewind c)) then
    true      (* the rewind buffer hasn't been wiped yet *)
  else
    match c_buffers c with
    | [] => false   (* there are no buffers at all *)
    | b :: _ =>
        (* rewind is possible if this is the very first buffer of the
           resource *)
        Z.of_nat (buf_consumed b) =? is_offset s
    end.

Definition reset_buffer (b : buffer) : buffer := mk_buffer (buf_data b) O.

(** [input_curl_rewind]; [list_splice_init(&c->rewind, &c->buffers)] puts
    the rewind buffers in front of the regular ones. *)
Definition input_curl_rewind (s : input_stream) : input_stream :=
  let c := is_data s in
  let rewind := map reset_buffer (c_rewind c) in
  let buffers := match c_buffers c with
                 | [] => []
                 | b :: rest => reset_buffer b :: rest
                 end in
  set_offset 0 (set_data (set_c_rewind [] (set_c_buffers (rewind ++ buffers) c)) s).

(** The sum that the debug build of [input_curl_rewind] compares with
    [is->offset] in its [assert]. *)
Definition rewind_assert_offset (s : input_stream) : Z :=
  let c := is_data s in
  Z.of_nat (list_sum (map buf_consumed (c_rewind c))
            + match c_buffers c with [] => O | b :: _ => buf_consumed b end).

Definition SEEK_SET : Z := 0.
Definition SEEK_CUR : Z := 1.
Definition SEEK_END : Z := 2.

(** The absolute offset computed by the [switch] of [input_curl_seek];
    [None] where it returns false.  [offset += is->offset] and
    [offset += is->size] are sums of [off_t] values. *)
Definition seek_target (s : input_stream) (offset whence : Z) : option Z :=
  if whence =? SEEK_SET then Some offset
  else if whence =? SEEK_CUR then Some (to_off_t (offset + is_offset s))
  else if whence =? SEEK_END then
    if is_size s <? 0 then None     (* stream size is not known *)
    else Some (to_off_t (offset + is_size s))
  else None.

(** The fast-forward loop of [input_curl_seek]:
    [while (offset > is->offset && !list_empty(&c->buffers))].  Every
    iteration either unlinks the first buffer or reaches [offset], so the
    number of buffers bounds the number of iterations. *)
Fixpoint fast_forward (fuel : nat) (offset : Z) (s : input_stream)
  : input_stream :=
  if (is_offset s <? offset) && negb (is_empty (c_buffers (is_data s))) then
    match fuel, c_buffers (is_data s) with
    | S fuel', b :: _ =>
        let keep := rewind_head s in
        let length :=
          if offset - is_offset s <? Z.of_nat (buf_size b - buf_consumed b)
          then Z.to_nat (offset - is_offset s)
          else (buf_size b - buf_consumed b)%nat in
        let s1 := on_data (consume_buffer length keep) s in
        fast_forward fuel' offset
          (set_offset (is_offset s1 + Z.of_nat length) s1)
    | _, _ => s
    end
  else s.

(** The end of [input_curl_seek]: close the old connection and open a new
    one. *)
Definition seek_reconnect (e : engine) (s : input_stream) (offset : Z)
  : outcome bool :=
  let (e1, c1) := input_curl_easy_free e (is_data s) in
  let s1 := set_offset offset (set_data c1 s) in
  if is_offset s1 =? is_size s1 then
    (* seek to EOF: simulate empty result *)
    Returns e1 (on_data (set_c_eof true) s1) true
  else
    match input_curl_easy_init e1 s1 with
    | None => Stuck e1 s1
    | Some (e2, s2, false) => Returns e2 s2 false
    | Some (e2, s2, true) =>
        (* send the "Range" header *)
        let s3 :=
          if 0 <? is_offset s2 then
            on_data (set_c_range
                       (Some (bytes (NilZero.string_of_int
                                       (Z.to_int (is_offset s2)) ++ "-"))))
              s2
          else s2 in
        match input_curl_send_request e2 s3 with
        | Stuck e3 s4 => Stuck e3 s4
        | Returns e3 s4 false => Returns e3 s4 false
        | Returns e3 s4 true =>
            let '(e4, s5, ret) := input_curl_multi_info_read e3 s4 in
            Returns e4 s5 ret
        end
    end.

Definition input_curl_seek (e : engine) (s : input_stream)
  (offset whence : Z) : outcome bool :=
  if (whence =? SEEK_SET) && (offset =? 0) && (is_offset s =? 0) then
    Returns e s true                              (* no-op *)
  else if (whence =? SEEK_SET) && (offset =? 0) && input_curl_can_rewind s
  then
    (* we have enough rewind buffers left *)
    Returns e (input_curl_rewind s) true
  else if negb (is_seekable s) then Returns e s false
  else
    (* calculate the absolute offset *)
    match seek_target s offset whence with
    | None => Returns e s false
    | Some target =>
        if target <? 0 then Returns e s false
        else
          (* check if we can fast-forward the buffer *)
          let s1 :=
            fast_forward (length (c_buffers (is_data s))) target s in
          if target =? is_offset s1 then Returns e s1 true
          else seek_reconnect e s1 target
    end.

(** ** Opening *)

(** [strncmp(url, "http://", 7) == 0] *)
Definition has_http_prefix (url : list byte) : bool :=
  codes_eqb (map code (firstn 7 (c_str url))) (map code (bytes "http://")).

(** The stream record as the host hands it to [open]: offset 0, size not
    known, nothing learnt from headers yet. *)
Definition new_stream (url : list byte) : input_stream :=
  mk_input_stream (mk_input_curl url None None [] false false [])
    0 (-1) false 0 false None None.

(** [input_curl_open]: after [g_new0] every field of [c] is zero;
    [multi_ok] tells whether [curl_multi_init] returned a handle. *)
Definition input_curl_open (multi_ok : bool) (e : engine) (url : list byte)
  : outcome bool :=
  let s := new_stream url in
  if negb (has_http_prefix url) then Returns e s false
  else if negb multi_ok then Returns e s false
  else
    match input_curl_easy_init e s with
    | None => Stuck e s
    | Some (e1, s1, false) =>
        let (e2, c2) := input_curl_easy_free e1 (is_data s1) in
        Returns e2 (set_data c2 s1) false
    | Some (e1, s1, true) =>
        match input_curl_send_request e1 s1 with
        | Stuck e2 s2 => Stuck e2 s2
        | Returns e2 s2 false =>
            let (e3, c3) := input_curl_easy_free e2 (is_data s2) in
            Returns e3 (set_data c3 s2) false
        | Returns e2 s2 true => Returns e2 s2 true
        end
    end.

(** ** Observations used in the statements *)

(** The bytes of a buffer that have not been read yet. *)
Definition unread_of (b : buffer) : list byte :=
  skipn (buf_consumed b) (buf_data b).

(** The bytes received and not yet returned by [read], in queue order. *)
Definition unread_c (c : input_curl) : list byte :=
  concat (map unread_of (c_buffers c)).

Definition unread (s : input_stream) : list byte := unread_c (is_data s).

(** The body bytes that a list of engine replies hands to the write
    callback, in order. *)
Definition body_of (cb : callback) : list byte :=
  match cb with
  | HeaderLine _ => []
  | BodyData payload => payload
  end.

Definition delivered (ps : list perform_reply) : list byte :=
  concat (map (fun p => concat (map body_of (pr_callbacks p))) ps).

(** The bytes a call of [read] returned; none while it is [Stuck]. *)
Definition out_bytes (o : outcome (list byte)) : list byte :=
  match o with Returns _ _ a => a | Stuck _ _ => [] end.

(** A sequence of [read] calls with the given requested sizes: the results
    in order, and the engine and stream after the last call.  The sequence
    ends early at a call that the engine leaves waiting. *)
Fixpoint run_reads (e : engine) (s : input_stream) (sizes : list nat)
  : list (list byte) * engine * input_stream :=
  match sizes with
  | [] => ([], e, s)
  | size :: rest =>
      match input_curl_read e s size with
      | Stuck e1 s1 => ([], e1, s1)
      | Returns e1 s1 out =>
          let '(outs, e2, s2) := run_reads e1 s1 rest in
          (out :: outs, e2, s2)
      end
  end.

(** Total payload held in the rewind list. *)
Definition rewind_total (s : input_stream) : Z :=
  Z.of_nat (list_sum (map buf_size (c_rewind (is_data s)))).

(** ** Predicates used in the statements *)

Definition out_value {A : Type} (o : outcome A) : option A :=
  match o with Returns _ _ a => Some a | Stuck _ _ => None end.

(** The buffers that the write callback appends for a list of replies. *)
Definition chunk_of (cb : callback) : list buffer :=
  match cb with
  | BodyData (x :: payload) => [mk_buffer (x :: payload) 0]
  | _ => []
  end.

Definition chunks (ps : list perform_reply) : list buffer :=
  concat (map (fun p => concat (map chunk_of (pr_callbacks p))) ps).

(** [fed used s s']: from [s] to [s'] the engine's replies [used] were
    taken in; nothing was read. *)
Definition fed (used : list perform_reply) (s s' : input_stream) : Prop :=
  c_buffers (is_data s') = c_buffers (is_data s) ++ chunks used
  /\ c_rewind (is_data s') = c_rewind (is_data s)
  /\ is_offset s' = is_offset s
  /\ c_easy (is_data s') = c_easy (is_data s).

(** The value of a [select_reply] as [input_curl_select] returns it. *)
Definition select_value (r : select_reply) : Z :=
  match r with FdsetFails _ => -1 | SelectReturns ret => ret end.

(** How a call of the fill loop ended. *)
Definition fill_end (e : engine) (o : outcome bool) : Prop :=
  match o with
  | Stuck _ _ => True
  | Returns e' s' true =>
      negb (c_eof (is_data s')) && is_empty (c_buffers (is_data s')) = false
  | Returns e' s' false =>
      c_eof (is_data s') = true
      \/ (c_eof (is_data s') = false /\ c_buffers (is_data s') = []
          /\ exists waited r, selects e = waited ++ r :: selects e'
                              /\ select_value r <= 0)
  end.

(** Whether an [init_reply] lets [input_curl_easy_init] succeed. *)
Definition init_ok (r : init_reply) : bool :=
  match ir_easy r with
  | None => false
  | Some _ => (ir_add r =? CURLM_OK) && (ir_url r =? CURLE_OK)
  end.

(** The value of a string of decimal digits. *)
Definition decimal_from (acc : Z) (digits : list byte) : Z :=
  fold_left (fun a b => a * 10 + (code b - 48)) digits acc.

Definition decimal (digits : list byte) : Z := decimal_from 0 digits.

Definition all_space (l : list byte) : Prop :=
  Forall (fun b => g_ascii_isspace b = true) l.

Definition all_digit (l : list byte) : Prop :=
  Forall (fun b => g_ascii_isdigit b = true) l.

(** A header name that [strcasecmp] takes for [literal]. *)
Definition names_header (name : list byte) (literal : string) : Prop :=
  map lower_code name = map code (bytes literal).

(** The sign that [g_ascii_strtoull] accepts in front of the digits. *)
Inductive sign : Type := NoSign | PlusSign | MinusSign.

Definition sign_bytes (sg : sign) : list byte :=
  match sg with
  | NoSign => []
  | PlusSign => bytes "+"
  | MinusSign => bytes "-"
  end.

(** What [g_ascii_strtoull] returns for a sign and a run of digits: the
    decimal value, [G_MAXUINT64] if that is too large, negated modulo 2^64
    after a minus sign. *)
Definition strtoull_value (sg : sign) (digits : list byte) : Z :=
  let v := Z.min (decimal digits) G_MAXUINT64 in
  match sg with
  | MinusSign => (- v) mod 2 ^ 64
  | _ => v
  end.

(** [tail] is what follows the number in a value: it does not go on with
    a digit, and where there is neither sign nor digit it does not start
    with anything that [g_ascii_strtoull] would skip or take for a sign. *)
Definition number_ends (sg : sign) (digits tail : list byte) : Prop :=
  match tail with
  | [] => True
  | h :: _ =>
      g_ascii_isdigit h = false
      /\ (sg = NoSign -> digits = [] ->
          strtoull_isspace h = false /\ code h <> 43 /\ code h <> 45)
  end.

(** The first [assert] of [consume_buffer] and [read_from_buffer]. *)
Definition buffer_ok (b : buffer) : Prop :=
  (buf_consumed b < buf_size b)%nat.

(** The part of the first buffer that has been read. *)
Definition read_part (bufs : list buffer) : list byte :=
  match bufs with
  | [] => []
  | b :: _ => firstn (buf_consumed b) (buf_data b)
  end.

Definition head_consumed (bufs : list buffer) : nat :=
  match bufs with [] => O | b :: _ => buf_consumed b end.

(** The bytes that [input_curl_rewind] would make readable again up to the
    current position: the rewind list, and the read part of the first
    buffer. *)
Definition replayed (s : input_stream) : list byte :=
  concat (map buf_data (c_rewind (is_data s)))
  ++ read_part (c_buffers (is_data s)).

(** A buffer on the rewind list: used up, and not empty. *)
Definition buffer_full (b : buffer) : Prop :=
  buf_consumed b = buf_size b /\ (0 < buf_size b)%nat.

Definition buffer_fresh (b : buffer) : Prop := buf_consumed b = O.

Definition tail_fresh (bufs : list buffer) : Prop :=
  match bufs with [] => True | _ :: rest => Forall buffer_fresh rest end.

(** Well-formed lists: the [assert]s of [consume_buffer] hold for every
    queued buffer, only the first one is partly read, and the rewind list
    holds used-up buffers. *)
Definition wf_stream (s : input_stream) : Prop :=
  Forall buffer_ok (c_buffers (is_data s))
  /\ tail_fresh (c_buffers (is_data s))
  /\ Forall buffer_full (c_rewind (is_data s))
  /\ 0 <= is_offset s.

(** The stream can still be rewound to offset 0 and has returned [hist]
    since then. *)
Definition replayable (s : input_stream) (hist : list byte) : Prop :=
  replayed s = hist /\ is_offset s = Z.of_nat (length hist).

(** The bytes since offset 0 are gone: the rewind list is empty and the
    first buffer does not start at offset 0. *)
Definition rewind_lost (s : input_stream) : Prop :=
  c_rewind (is_data s) = []
  /\ Z.of_nat (head_consumed (c_buffers (is_data s))) < is_offset s.

(** A stream at offset 0 of its resource with nothing read: as [open]
    leaves it, or a reconnect to offset 0, or a rewind. *)
Definition at_start (s : input_stream) : Prop :=
  is_offset s = 0
  /\ c_rewind (is_data s) = []
  /\ Forall (fun b => buffer_fresh b /\ buffer_ok b) (c_buffers (is_data s)).

(** ** The loops in a form fit for proofs *)

(** What the copy loop does to the queue, by recursion on the queue: the
    buffers that [n] bytes use up entirely (with their final [consumed]),
    and the queue that is left. *)
Fixpoint split_queue (n : nat) (bufs : list buffer)
  : list buffer * list buffer :=
  match bufs with
  | [] => ([], [])
  | b :: rest =>
      if (n =? 0)%nat then ([], bufs)
      else
        let avail := (buf_size b - buf_consumed b)%nat in
        if (buf_consumed b + n <? buf_size b)%nat then
          ([], mk_buffer (buf_data b) (buf_consumed b + n) :: rest)
        else
          let (moved, left) := split_queue (n - avail) rest in
          (mk_buffer (buf_data b) (buf_consumed b + avail) :: moved, left)
  end.

(** The lists after the copy loop, given the result of [split_queue]. *)
Definition after_split (keep : bool) (c : input_curl)
  (r : list buffer * list buffer) : input_curl :=
  if keep then set_c_rewind (c_rewind c ++ fst r) (set_c_buffers (snd r) c)
  else set_c_buffers (snd r) c.

(** A [CURLMSG_DONE] message, and one whose transfer failed. *)
Definition is_done (m : CURLMsg) : bool := msg m =? CURLMSG_DONE.

Definition is_failed_done (m : CURLMsg) : bool :=
  (msg m =? CURLMSG_DONE) && negb (msg_result m =? CURLE_OK).

(** A reply of [curl_multi_perform] whose code [input_curl_read] and
    [input_curl_buffer] take for a failure. *)
Definition perform_failed (p : perform_reply) : bool :=
  negb (pr_mcode p =? CURLM_OK)
  && negb (pr_mcode p =? CURLM_CALL_MULTI_PERFORM).

(** A wait that reports the socket ready. *)
Definition select_ready (r : select_reply) : bool := 0 <? select_value r.

(** The messages that [input_curl_multi_info_read] goes through during a
    call that polls with the replies [used]: those queued before the call
    and those of the replies; none if the call does not poll. *)
Definition seen_messages (e : engine) (used : list perform_reply)
  : list CURLMsg :=
  match used with
  | [] => []
  | _ :: _ => pending e ++ concat (map pr_msgs used)
  end.

(** How the fill loop of [input_curl_read] ended, in terms of the replies
    [used] and [waited] that it took from the engine: it was left normally
    or is still waiting for the engine; or the wait gave up; or a poll
    failed; or a message reported a failed transfer. *)
Definition fill_ended (e : engine) (s : input_stream)
  (used : list perform_reply) (waited : list select_reply)
  (o : outcome bool) : Prop :=
  (out_value o <> Some false
   /\ forallb select_ready waited = true
   /\ existsb perform_failed used = false
   /\ existsb is_failed_done (seen_messages e used) = false)
  \/ (exists w r,
        waited = w ++ [r]
        /\ forallb select_ready w = true /\ select_ready r = false
        /\ existsb perform_failed used = false
        /\ existsb is_failed_done (seen_messages e used) = false
        /\ out_value o = Some false
        /\ c_eof (is_data (out_stream o)) = false
        /\ c_buffers (is_data (out_stream o)) = []
        /\ is_error (out_stream o) = is_error s)
  \/ (exists u p,
        used = u ++ [p]
        /\ perform_failed p = true
        /\ existsb perform_failed u = false
        /\ existsb is_failed_done (seen_messages e u) = false
        /\ forallb select_ready waited = true
        /\ out_value o = Some false
        /\ c_eof (is_data (out_stream o)) = true
        /\ is_error (out_stream o) = is_error s)
  \/ (existsb perform_failed used = false
      /\ existsb is_failed_done (seen_messages e used) = true
      /\ forallb select_ready waited = true
      /\ out_value o = Some false
      /\ c_eof (is_data (out_stream o)) = true
      /\ is_error (out_stream o) = -1).

(** One iteration of the fill loop after the wait: poll, then look at the
    messages. *)
Definition fill_poll (next : Z -> engine -> input_stream -> outcome bool)
  (e1 : engine) (s : input_stream) : outcome bool :=
  match curl_multi_perform e1 s with
  | None => Stuck e1 s
  | Some (e2, s2, mcode2) =>
      if negb (mcode2 =? CURLM_OK)
         && negb (mcode2 =? CURLM_CALL_MULTI_PERFORM)
      then Returns e2 (on_data (set_c_eof true) s2) false
      else
        let '(e3, s3, bret) := input_curl_multi_info_read e2 s2 in
        if negb bret then Returns e3 s3 false
        else next mcode2 e3 s3
  end.

(** The stream after the copy loop and the offset update of
    [input_curl_read], from the stream [s1] that the fill loop left. *)
Definition read_send (s1 : input_stream) (size : nat)
  : input_stream * list byte :=
  let keep := rewind_head s1 in
  let (out, c1) :=
    read_loop (length (c_buffers (is_data s1))) size keep (is_data s1) in
  let offset := is_offset s1 + Z.of_nat (length out) in
  let c2 := if keep && (max_rewind_size <? offset)
            then set_c_rewind [] c1 else c1 in
  (set_offset offset (set_data c2 s1), out).

(** ** Engine scripts and streams of the examples *)

(** A plain HTTP response without [Accept-Ranges]: the body "hello" in one
    chunk, then completion. *)
Definition plain_engine : engine :=
  mk_engine
    [mk_init (Some 1%nat) CURLM_OK CURLE_OK]
    [mk_perform [] CURLM_OK [];
     mk_perform [HeaderLine (bytes "Content-Type: audio/mpeg");
                 BodyData (bytes "hello")] CURLM_OK [];
     mk_perform [] CURLM_OK [mk_msg CURLMSG_DONE CURLE_OK]]
    [SelectReturns 1; SelectReturns 1]
    [].

Definition plain_url : list byte := bytes "http://host/stream".

(** A seekable resource of 12 bytes at offset 7, with 3 unread bytes queued:
    a seek to the end skips them and still has 2 bytes to go. *)
Definition sized_stream : input_stream :=
  mk_input_stream
    (mk_input_curl plain_url None (Some 1%nat)
       [mk_buffer (bytes "hello") 2] true false [])
    7 12 true 0 true None None.

(** A transfer that delivers "hello" and fails at once. *)
Definition failing_engine : engine :=
  mk_engine
    [mk_init (Some 1%nat) CURLM_OK CURLE_OK]
    [mk_perform [] CURLM_OK [];
     mk_perform [BodyData (bytes "hello")] CURLM_OK [mk_msg CURLMSG_DONE 56]]
    [SelectReturns 1]
    [].

(** A transfer that has nothing to deliver yet. *)
Definition stalled_engine : engine :=
  mk_engine
    [mk_init (Some 1%nat) CURLM_OK CURLE_OK]
    [mk_perform [] CURLM_OK []; mk_perform [] CURLM_OK []]
    [SelectReturns 0]
    [].

(** A transfer whose first body chunk arrives after one wait. *)
Definition slow_engine : engine :=
  mk_engine
    [mk_init (Some 1%nat) CURLM_OK CURLE_OK]
    [mk_perform [] CURLM_OK []; mk_perform [] CURLM_OK [];
     mk_perform [BodyData (bytes "hi")] CURLM_OK []]
    [SelectReturns 1]
    [].


(** A response whose body arrives in the chunks "abc" and "defgh". *)
Definition chunked_engine : engine :=
  mk_engine
    [mk_init (Some 1%nat) CURLM_OK CURLE_OK]
    [mk_perform [] CURLM_OK [];
     mk_perform [BodyData (bytes "abc"); BodyData (bytes "defgh")]
       CURLM_OK []]
    [SelectReturns 1]
    [].

(** The same response from a server that accepts ranges; a second request
    can be started. *)
Definition seekable_engine : engine :=
  mk_engine
    [mk_init (Some 1%nat) CURLM_OK CURLE_OK;
     mk_init (Some 2%nat) CURLM_OK CURLE_OK]
    [mk_perform [HeaderLine (bytes "Accept-Ranges: bytes")] CURLM_OK [];
     mk_perform [BodyData (bytes "abc"); BodyData (bytes "defgh")]
       CURLM_OK [];
     mk_perform [] CURLM_OK []]
    [SelectReturns 1]
    [].

(** A seekable resource whose first 80 KiB arrive, in five chunks of
    16 KiB, while the request is submitted. *)
Definition burst_engine : engine :=
  mk_engine
    [mk_init (Some 1%nat) CURLM_OK CURLE_OK]
    (mk_perform [HeaderLine (bytes "Accept-Ranges: bytes")]
       CURLM_CALL_MULTI_PERFORM []
     :: repeat (mk_perform [BodyData (repeat "a"%byte (16 * 1024))]
                  CURLM_CALL_MULTI_PERFORM []) 5
     ++ [mk_perform [] CURLM_OK []])
    []
    [].

(** ** Sequences of calls *)

(** A call of the plugin after [open]. *)
Inductive operation : Type :=
| OpRead (size : nat)
| OpBuffer
| OpSeek (offset whence : Z).

(** The engine and the stream after a call, and whether the call
    returned. *)
Definition settle {A : Type} (o : outcome A) : engine * input_stream * bool :=
  match o with
  | Returns e s _ => (e, s, true)
  | Stuck e s => (e, s, false)
  end.

Definition run_operation (e : engine) (s : input_stream) (op : operation)
  : engine * input_stream * bool :=
  match op with
  | OpRead size => settle (input_curl_read e s size)
  | OpBuffer => settle (input_curl_buffer e s)
  | OpSeek offset whence => settle (input_curl_seek e s offset whence)
  end.

(** A sequence of calls; it ends early at a call that the engine leaves
    waiting. *)
Fixpoint run_operations (e : engine) (s : input_stream)
  (ops : list operation) : engine * input_stream :=
  match ops with
  | [] => (e, s)
  | op :: rest =>
      let '(e1, s1, returned) := run_operation e s op in
      if returned then run_operations e1 s1 rest else (e1, s1)
  end.

(** The lists are well-formed, and the stream either can be rewound or
    has lost its record. *)
Definition stream_inv (s : input_stream) : Prop :=
  wf_stream s /\ ((exists hist, replayable s hist) \/ rewind_lost s).

(** A value as the header callback stores it: no white space at either
    end. *)
Definition stripped (value : list byte) : Prop :=
  match value with
  | [] => True
  | h :: _ => g_ascii_isspace h = false
              /\ g_ascii_isspace (last value h) = false
  end.

(** One iteration of the fast-forward loop of [input_curl_seek], on the
    first buffer [b]. *)
Definition ff_step (offset : Z) (b : buffer) (s : input_stream)
  : input_stream :=
  let length :=
    if offset - is_offset s <? Z.of_nat (buf_size b - buf_consumed b)
    then Z.to_nat (offset - is_offset s)
    else (buf_size b - buf_consumed b)%nat in
  let s1 := on_data (consume_buffer length (rewind_head s)) s in
  set_offset (is_offset s1 + Z.of_nat length) s1.

(** A call that is not a seek. *)
Definition no_seek (op : operation) : Prop :=
  match op with OpSeek _ _ => False | _ => True end.

(** A sequence of calls, with the bytes that its [read] calls returned,
    in order. *)
Fixpoint run_collect (e : engine) (s : input_stream) (ops : list operation)
  : list (list byte) * engine * input_stream :=
  match ops with
  | [] => ([], e, s)
  | op :: rest =>
      let '(e1, s1, returned) := run_operation e s op in
      let out := match op with
                 | OpRead size => [out_bytes (input_curl_read e s size)]
                 | _ => []
                 end in
      if returned
      then let '(outs, e2, s2) := run_collect e1 s1 rest in
           (out ++ outs, e2, s2)
      else (out, e1, s1)
  end.

(** ** The copy loop *)

Lemma unread_of_length (b : buffer) :
  length (unread_of b) = (buf_size b - buf_consumed b)%nat.
Proof. unfold unread_of, buf_size. now rewrite length_skipn. Qed.

Lemma unread_of_advance (b : buffer) (n : nat) :
  unread_of (mk_buffer (buf_data b) (buf_consumed b + n)) =
  skipn n (unread_of b).
Proof.
  unfold unread_of; simpl. rewrite skipn_skipn. f_equal. lia.
Qed.

Lemma read_loop_zero (fuel : nat) (keep : bool) (c : input_curl) :
  read_loop fuel 0 keep c = ([], c).
Proof. destruct fuel; reflexivity. Qed.

Lemma read_loop_empty (fuel n : nat) (keep : bool) (c : input_curl) :
  c_buffers c = [] -> read_loop fuel n keep c = ([], c).
Proof.
  intros H. destruct fuel; simpl; rewrite H, orb_true_r; reflexivity.
Qed.

Lemma split_queue_zero (bufs : list buffer) : split_queue 0 bufs = ([], bufs).
Proof. destruct bufs; reflexivity. Qed.

Lemma set_c_buffers_same (c : input_curl) : set_c_buffers (c_buffers c) c = c.
Proof. destruct c; reflexivity. Qed.

Lemma set_c_rewind_same (c : input_curl) : set_c_rewind (c_rewind c) c = c.
Proof. destruct c; reflexivity. Qed.

Lemma after_split_id (keep : bool) (c : input_curl) :
  after_split keep c ([], c_buffers c) = c.
Proof.
  unfold after_split; destruct keep; simpl.
  - rewrite app_nil_r. destruct c; reflexivity.
  - apply set_c_buffers_same.
Qed.

Lemma read_loop_step (fuel n : nat) (keep : bool) (c : input_curl) :
  read_loop (S fuel) n keep c =
  if (n =? 0)%nat || is_empty (c_buffers c) then ([], c)
  else let (copy, c1) := read_from_buffer n keep c in
       let (more, c2) := read_loop fuel (n - length copy) keep c1 in
       (copy ++ more, c2).
Proof. reflexivity. Qed.

(** One call of [read_from_buffer] on the first buffer [b]. *)
Lemma read_from_buffer_cons (n : nat) (keep : bool) (c : input_curl)
  (b : buffer) (rest : list buffer) :
  c_buffers c = b :: rest ->
  read_from_buffer n keep c =
  (firstn n (unread_of b),
   if (buf_consumed b + n <? buf_size b)%nat
   then set_c_buffers (mk_buffer (buf_data b) (buf_consumed b + n) :: rest) c
   else after_split keep c
          ([mk_buffer (buf_data b)
              (buf_consumed b + (buf_size b - buf_consumed b))], rest)).
Proof.
  intros Hb. unfold read_from_buffer, consume_buffer. rewrite Hb.
  fold (unread_of b). pose proof (unread_of_length b) as Hul.
  change (buf_size (mk_buffer (buf_data b) ?n)) with (buf_size b).
  cbn [buf_data buf_consumed].
  destruct (Nat.ltb_spec (buf_size b - buf_consumed b) n) as [Hav|Hav].
  - rewrite !firstn_all2 by lia.
    destruct (Nat.ltb_spec (buf_consumed b + (buf_size b - buf_consumed b))
                (buf_size b)); [lia|].
    destruct (Nat.ltb_spec (buf_consumed b + n) (buf_size b)); [lia|].
    unfold after_split. destruct keep; reflexivity.
  - destruct (Nat.ltb_spec (buf_consumed b + n) (buf_size b)); [reflexivity|].
    replace (buf_size b - buf_consumed b)%nat with n by lia.
    unfold after_split. destruct keep; reflexivity.
Qed.

(** The loop of [input_curl_read] copies the first [size] unread bytes,
    and changes the lists as [split_queue] says. *)
Lemma read_loop_split (fuel n : nat) (keep : bool) (c : input_curl) :
  (length (c_buffers c) <= fuel)%nat ->
  read_loop fuel n keep c =
  (firstn n (unread_c c), after_split keep c (split_queue n (c_buffers c))).
Proof.
  revert n c. induction fuel as [|fuel IH]; intros n c Hlen.
  - destruct (c_buffers c) eqn:Hb; [|simpl in Hlen; lia].
    rewrite read_loop_empty by assumption.
    unfold unread_c. rewrite Hb. simpl. rewrite firstn_nil.
    now rewrite <- Hb at 2; rewrite after_split_id.
  - destruct n as [|n].
    { rewrite read_loop_zero, split_queue_zero, after_split_id. reflexivity. }
    destruct (c_buffers c) as [|b rest] eqn:Hb.
    { rewrite read_loop_empty by assumption.
      unfold unread_c. rewrite Hb. simpl.
      now rewrite <- Hb at 2; rewrite after_split_id. }
    rewrite read_loop_step, Hb. cbn [Nat.eqb orb is_empty].
    rewrite (read_from_buffer_cons _ _ _ _ _ Hb).
    unfold unread_c. rewrite Hb. cbn [map concat split_queue Nat.eqb].
    pose proof (unread_of_length b) as Hul.
    destruct (Nat.ltb_spec (buf_consumed b + S n) (buf_size b)) as [Hlt|Hge].
    + (* the request ends inside the buffer *)
      assert (Hcopy : length (firstn (S n) (unread_of b)) = S n)
        by (rewrite length_firstn; lia).
      rewrite Hcopy, Nat.sub_diag, read_loop_zero, app_nil_r.
      rewrite firstn_app.
      replace (S n - length (unread_of b))%nat with O by lia.
      cbn [firstn]. rewrite app_nil_r. f_equal.
      unfold after_split. destruct keep; cbn [fst snd]; [|reflexivity].
      rewrite app_nil_r. unfold set_c_rewind, set_c_buffers; reflexivity.
    + (* the buffer is used up *)
      set (b' := mk_buffer (buf_data b)
                   (buf_consumed b + (buf_size b - buf_consumed b))).
      set (c1 := after_split keep c ([b'], rest)).
      assert (Hc1 : c_buffers c1 = rest)
        by (subst c1; unfold after_split; destruct keep; reflexivity).
      rewrite (@firstn_all2 _ (S n) (unread_of b)) by lia.
      rewrite Hul.
      rewrite (IH (S n - (buf_size b - buf_consumed b))%nat c1)
        by (rewrite Hc1; simpl in Hlen; lia).
      unfold unread_c. rewrite Hc1.
      rewrite firstn_app, Hul.
      rewrite (@firstn_all2 _ (S n) (unread_of b)) by lia.
      f_equal.
      destruct (split_queue (S n - (buf_size b - buf_consumed b)) rest)
        as [moved left].
      subst c1. unfold after_split. destruct keep; cbn [fst snd]; [|reflexivity].
      unfold set_c_rewind, set_c_buffers; cbn.
      rewrite <- app_assoc. reflexivity.
Qed.

(** The loop is left with its condition false: the number of buffers is
    fuel enough. *)
Lemma read_loop_exit (n : nat) (keep : bool) (c : input_curl) :
  let r := read_loop (length (c_buffers c)) n keep c in
  (n - length (fst r) = 0)%nat \/ c_buffers (snd r) = [].
Proof.
  cbv zeta. rewrite read_loop_split by lia. cbn [fst snd].
  assert (H : forall bufs m,
             (m - length (firstn m (concat (map unread_of bufs))) = 0)%nat
             \/ snd (split_queue m bufs) = []).
  { induction bufs as [|b rest IH]; intros m; [right; reflexivity|].
    destruct m as [|m]; [left; reflexivity|].
    cbn [split_queue Nat.eqb map concat].
    pose proof (unread_of_length b) as Hul.
    rewrite length_firstn, length_app.
    destruct (Nat.ltb_spec (buf_consumed b + S m) (buf_size b)).
    - left. lia.
    - specialize (IH (S m - (buf_size b - buf_consumed b))%nat).
      destruct (split_queue (S m - (buf_size b - buf_consumed b)) rest)
        as [moved left] eqn:Hsq. cbn [snd] in *.
      destruct IH as [IH|IH]; [left|right; exact IH].
      rewrite length_firstn in IH. lia. }
  destruct (H (c_buffers c) n) as [H1|H1]; [left; exact H1|right].
  unfold after_split. destruct keep; cbn; exact H1.
Qed.

(** ** What the engine's callbacks add *)

Lemma fed_refl (s : input_stream) : fed [] s s.
Proof. unfold fed, chunks; simpl. now rewrite app_nil_r. Qed.

Lemma fed_trans (u1 u2 : list perform_reply) (s1 s2 s3 : input_stream) :
  fed u1 s1 s2 -> fed u2 s2 s3 -> fed (u1 ++ u2) s1 s3.
Proof.
  unfold fed, chunks. intros (B1 & R1 & O1 & E1) (B2 & R2 & O2 & E2).
  rewrite B2, B1, R2, R1, O2, O1, E2, E1, map_app, concat_app, app_assoc.
  auto.
Qed.

Lemma unread_chunks (ps : list perform_reply) :
  concat (map unread_of (chunks ps)) = delivered ps.
Proof.
  unfold chunks, delivered. induction ps as [|p ps IH]; [reflexivity|].
  simpl. rewrite map_app, concat_app, IH. f_equal.
  induction (pr_callbacks p) as [|cb cbs IHc]; [reflexivity|].
  simpl. rewrite map_app, concat_app, IHc. f_equal.
  destruct cb as [line|[|x payload]]; cbn; rewrite ?app_nil_r; reflexivity.
Qed.

Lemma fed_unread (used : list perform_reply) (s s' : input_stream) :
  fed used s s' -> unread s' = unread s ++ delivered used.
Proof.
  intros (B & _ & _). unfold unread, unread_c.
  now rewrite B, map_app, concat_app, unread_chunks.
Qed.

(** The header callback leaves the plugin's data, the offset and the error
    alone. *)
Lemma headerfunction_core (header : list byte) (s : input_stream) :
  is_data (input_curl_headerfunction header s) = is_data s
  /\ is_offset (input_curl_headerfunction header s) = is_offset s
  /\ is_error (input_curl_headerfunction header s) = is_error s.
Proof.
  unfold input_curl_headerfunction.
  repeat match goal with
         | |- context [match ?x with _ => _ end] => destruct x
         end; auto.
Qed.

Lemma writefunction_core (payload : list byte) (s : input_stream) :
  c_buffers (is_data (input_curl_writefunction payload s))
  = c_buffers (is_data s) ++ chunk_of (BodyData payload)
  /\ c_rewind (is_data (input_curl_writefunction payload s))
     = c_rewind (is_data s)
  /\ c_eof (is_data (input_curl_writefunction payload s)) = c_eof (is_data s)
  /\ is_offset (input_curl_writefunction payload s) = is_offset s
  /\ is_error (input_curl_writefunction payload s) = is_error s
  /\ c_easy (is_data (input_curl_writefunction payload s))
     = c_easy (is_data s).
Proof.
  destruct payload; simpl; rewrite ?app_nil_r; auto 10.
Qed.

Lemma run_callbacks_core (cbs : list callback) (s : input_stream) :
  let s' := fold_left run_callback cbs s in
  c_buffers (is_data s') = c_buffers (is_data s) ++ concat (map chunk_of cbs)
  /\ c_rewind (is_data s') = c_rewind (is_data s)
  /\ c_eof (is_data s') = c_eof (is_data s)
  /\ is_offset s' = is_offset s
  /\ is_error s' = is_error s
  /\ c_easy (is_data s') = c_easy (is_data s).
Proof.
  revert s. induction cbs as [|cb cbs IH]; intros s; cbn [fold_left].
  - cbn. rewrite app_nil_r. auto 10.
  - destruct (IH (run_callback s cb)) as (B & R & E & O & X & Y).
    cbv zeta. rewrite B, R, E, O, X, Y.
    destruct cb as [line|payload]; cbn [run_callback map concat].
    + destruct (headerfunction_core line s) as (D & O1 & X1).
      rewrite D, O1, X1. cbn. auto 10.
    + destruct (writefunction_core payload s)
        as (B1 & R1 & E1 & O1 & X1 & Y1).
      rewrite B1, R1, E1, O1, X1, Y1, app_assoc. auto 10.
Qed.

Lemma perform_core (e e' : engine) (s s' : input_stream) (mcode : Z) :
  curl_multi_perform e s = Some (e', s', mcode) ->
  exists p, performs e = p :: performs e'
            /\ mcode = pr_mcode p
            /\ inits e' = inits e /\ selects e' = selects e
            /\ fed [p] s s'
            /\ c_eof (is_data s') = c_eof (is_data s)
            /\ is_error s' = is_error s.
Proof.
  unfold curl_multi_perform. destruct (performs e) as [|p rest]; [discriminate|].
  intros H; inversion H; subst; clear H. exists p.
  destruct (run_callbacks_core (pr_callbacks p) s)
    as (B & R & E & O & X & Y).
  cbn. unfold fed, chunks. cbn. rewrite app_nil_r. auto 12.
Qed.

Lemma info_read_loop_core (msgs : list CURLMsg) (s : input_stream) :
  let '(queue, s', ret) := info_read_loop msgs s in
  c_buffers (is_data s') = c_buffers (is_data s)
  /\ c_rewind (is_data s') = c_rewind (is_data s)
  /\ is_offset s' = is_offset s
  /\ c_easy (is_data s') = c_easy (is_data s)
  /\ (ret = false -> c_eof (is_data s') = true /\ is_error s' = -1)
  /\ (ret = true -> is_error s' = is_error s)
  /\ (c_eof (is_data s) = true -> c_eof (is_data s') = true).
Proof.
  revert s. induction msgs as [|m rest IH]; intros s; cbn [info_read_loop].
  - repeat split; auto; discriminate.
  - destruct (msg m =? CURLMSG_DONE).
    + destruct (msg_result m =? CURLE_OK); cbn [negb].
      * specialize (IH (on_data (set_c_eof true) s)).
        destruct (info_read_loop rest (on_data (set_c_eof true) s))
          as [[queue s'] ret]. cbn in IH. intuition.
      * cbn. repeat split; auto; discriminate.
    + apply IH.
Qed.

Lemma info_read_core (e e' : engine) (s s' : input_stream) (ret : bool) :
  input_curl_multi_info_read e s = (e', s', ret) ->
  performs e' = performs e /\ inits e' = inits e /\ selects e' = selects e
  /\ fed [] s s'
  /\ (ret = false -> c_eof (is_data s') = true /\ is_error s' = -1)
  /\ (ret = true -> is_error s' = is_error s)
  /\ (c_eof (is_data s) = true -> c_eof (is_data s') = true).
Proof.
  unfold input_curl_multi_info_read.
  pose proof (info_read_loop_core (pending e) s) as H.
  destruct (info_read_loop (pending e) s) as [[queue s1] r].
  intros E; inversion E; subst; clear E. cbn.
  unfold fed, chunks; cbn. rewrite app_nil_r. intuition.
Qed.

(** ** The fill loop *)

Lemma read_fill_step (fuel : nat) (mcode : Z) (e : engine) (s : input_stream) :
  read_fill (S fuel) mcode e s =
  if negb (c_eof (is_data s)) && is_empty (c_buffers (is_data s)) then
    if negb (mcode =? CURLM_CALL_MULTI_PERFORM) then
      match input_curl_select e with
      | None => Stuck e s
      | Some (e1, ret) =>
          if ret <=? 0 then Returns e1 s false
          else fill_poll (read_fill fuel) e1 s
      end
    else fill_poll (read_fill fuel) e s
  else Returns e s true.
Proof. reflexivity. Qed.

(** With data queued or the end reached, the fill loop is not entered: the
    engine is not called. *)
Lemma read_fill_ready (fuel : nat) (mcode : Z) (e : engine)
  (s : input_stream) :
  negb (c_eof (is_data s)) && is_empty (c_buffers (is_data s)) = false ->
  read_fill fuel mcode e s = Returns e s true.
Proof. intros H. destruct fuel; cbn; rewrite H; reflexivity. Qed.

Lemma select_core (e e1 : engine) (ret : Z) :
  input_curl_select e = Some (e1, ret) ->
  exists r, selects e = r :: selects e1 /\ ret = select_value r
            /\ performs e1 = performs e /\ inits e1 = inits e.
Proof.
  unfold input_curl_select. destruct (selects e) as [|r rest]; [discriminate|].
  intros H. exists r. destruct r; inversion H; subst; cbn; auto.
Qed.

Lemma read_fill_core (fuel : nat) (mcode : Z) (e : engine) (s : input_stream) :
  let o := read_fill fuel mcode e s in
  (exists used, performs e = used ++ performs (out_engine o)
                /\ fed used s (out_stream o))
  /\ inits (out_engine o) = inits e
  /\ (exists waited, selects e = waited ++ selects (out_engine o))
  /\ fill_end e o.
Proof.
  revert mcode e s. induction fuel as [|fuel IH]; intros mcode e s.
  - cbn. destruct (negb (c_eof (is_data s))
                   && is_empty (c_buffers (is_data s))) eqn:Hc; cbn.
    + repeat split; auto.
      * exists []. split; [reflexivity|apply fed_refl].
      * exists []. reflexivity.
    + repeat split; auto.
      * exists []. split; [reflexivity|apply fed_refl].
      * exists []. reflexivity.
  - rewrite read_fill_step.
    destruct (negb (c_eof (is_data s))
              && is_empty (c_buffers (is_data s))) eqn:Hc.
    2:{ cbn. repeat split; auto.
        - exists []. split; [reflexivity|apply fed_refl].
        - exists []. reflexivity. }
    assert (Hact : c_eof (is_data s) = false /\ c_buffers (is_data s) = []).
    { apply andb_true_iff in Hc. destruct Hc as [H1 H2].
      apply negb_true_iff in H1.
      destruct (c_buffers (is_data s)); [auto|discriminate]. }
    (* the poll, from an engine [e1] reached after waiting *)
    assert (Hpoll : forall e1 waited,
               performs e1 = performs e -> inits e1 = inits e ->
               selects e = waited ++ selects e1 ->
               let o := fill_poll (read_fill fuel) e1 s in
               (exists used, performs e = used ++ performs (out_engine o)
                             /\ fed used s (out_stream o))
               /\ inits (out_engine o) = inits e
               /\ (exists waited, selects e = waited ++ selects (out_engine o))
               /\ fill_end e o).
    { intros e1 waited Hp Hi Hs. unfold fill_poll.
      destruct (curl_multi_perform e1 s) as [[[e2 s2] mcode2]|] eqn:Hperf.
      2:{ cbn. repeat split; auto.
          - exists []. split; [now rewrite Hp|apply fed_refl].
          - exists waited. exact Hs. }
      apply perform_core in Hperf.
      destruct Hperf as (p & Hp2 & Hm & Hi2 & Hs2 & Hfed & Heof & Herr).
      destruct (negb (mcode2 =? CURLM_OK)
                && negb (mcode2 =? CURLM_CALL_MULTI_PERFORM)).
      { cbn. repeat split.
        - exists [p]. split; [now rewrite <- Hp, Hp2|].
          destruct Hfed as (B & R & O & Y). unfold fed. cbn. auto.
        - congruence.
        - exists waited. congruence.
        - left. reflexivity. }
      destruct (input_curl_multi_info_read e2 s2) as [[e3 s3] bret] eqn:Hinfo.
      apply info_read_core in Hinfo.
      destruct Hinfo as (Hp3 & Hi3 & Hs3 & Hfed3 & Hfail & _ & _).
      pose proof (fed_trans _ _ _ _ _ Hfed Hfed3) as Hfed13.
      destruct bret; cbn [negb].
      - specialize (IH mcode2 e3 s3). cbv zeta in IH.
        destruct IH as ((used & Hu & Hfu) & Hiu & (w2 & Hw2) & Hend).
        repeat split.
        + exists (([p] ++ []) ++ used). split.
          * rewrite <- Hp, Hp2, <- Hp3, Hu. cbn. reflexivity.
          * eapply fed_trans; eassumption.
        + congruence.
        + exists (waited ++ w2). rewrite Hs, <- Hs2, <- Hs3, Hw2.
          now rewrite app_assoc.
        + destruct (read_fill fuel mcode2 e3 s3) as [e4 s4 [|]|e4 s4];
            cbn in Hend |- *; auto.
          destruct Hend as [Hend|(E1 & E2 & w3 & r & Hw3 & Hr)]; [left; auto|].
          right. repeat split; auto.
          exists (waited ++ w3), r. split; [|exact Hr].
          rewrite Hs, <- Hs2, <- Hs3, Hw3. now rewrite app_assoc.
      - cbn. repeat split.
        + exists ([p] ++ []). split; [cbn; congruence|exact Hfed13].
        + congruence.
        + exists waited. congruence.
        + left. apply Hfail. reflexivity. }
    destruct (negb (mcode =? CURLM_CALL_MULTI_PERFORM)).
    + destruct (input_curl_select e) as [[e1 ret]|] eqn:Hsel.
      2:{ cbn. repeat split; auto.
          - exists []. split; [reflexivity|apply fed_refl].
          - exists []. reflexivity. }
      apply select_core in Hsel. destruct Hsel as (r & Hs & Hr & Hp & Hi).
      destruct (Z.leb_spec ret 0) as [Hle|Hgt].
      * cbn. repeat split; auto.
        -- exists []. split; [now rewrite Hp|apply fed_refl].
        -- exists [r]. exact Hs.
        -- right. destruct Hact. repeat split; auto.
           exists [], r. split; [exact Hs|lia].
      * apply (Hpoll e1 [r]); auto.
    + apply (Hpoll e []); auto.
Qed.

(** One more than the number of replies left is fuel enough for the fill
    loop: more fuel gives the same result. *)
Lemma read_fill_fuel (fuel fuel' : nat) (mcode : Z) (e : engine)
  (s : input_stream) :
  (length (performs e) < fuel)%nat -> (length (performs e) < fuel')%nat ->
  read_fill fuel mcode e s = read_fill fuel' mcode e s.
Proof.
  revert fuel' mcode e s.
  induction fuel as [|fuel IH]; intros fuel' mcode e s H1 H2; [lia|].
  destruct fuel' as [|fuel']; [lia|].
  rewrite !read_fill_step.
  assert (Hpoll : forall e1, performs e1 = performs e ->
             fill_poll (read_fill fuel) e1 s
             = fill_poll (read_fill fuel') e1 s).
  { intros e1 Hp. unfold fill_poll.
    destruct (curl_multi_perform e1 s) as [[[e2 s2] mcode2]|] eqn:Hperf;
      [|reflexivity].
    apply perform_core in Hperf. destruct Hperf as (p & Hp2 & _).
    destruct (negb (mcode2 =? CURLM_OK)
              && negb (mcode2 =? CURLM_CALL_MULTI_PERFORM)); [reflexivity|].
    destruct (input_curl_multi_info_read e2 s2) as [[e3 s3] bret] eqn:Hinfo.
    apply info_read_core in Hinfo. destruct Hinfo as (Hp3 & _).
    destruct bret; [|reflexivity]. cbn [negb].
    apply IH; rewrite Hp3; rewrite <- Hp, Hp2 in *; cbn in *; lia. }
  destruct (negb (c_eof (is_data s)) && is_empty (c_buffers (is_data s)));
    [|reflexivity].
  destruct (negb (mcode =? CURLM_CALL_MULTI_PERFORM)).
  - destruct (input_curl_select e) as [[e1 ret]|] eqn:Hsel; [|reflexivity].
    apply select_core in Hsel. destruct Hsel as (r & _ & _ & Hp & _).
    destruct (ret <=? 0); [reflexivity|]. now apply Hpoll.
  - now apply Hpoll.
Qed.

(** ** One call of [read] *)

Lemma input_curl_read_unfold (e : engine) (s : input_stream) (size : nat) :
  input_curl_read e s size =
  match read_fill (S (length (performs e))) CURLM_CALL_MULTI_PERFORM e s with
  | Stuck e1 s1 => Stuck e1 s1
  | Returns e1 s1 false => Returns e1 s1 []
  | Returns e1 s1 true =>
      Returns e1 (fst (read_send s1 size)) (snd (read_send s1 size))
  end.
Proof.
  unfold input_curl_read, read_send.
  destruct (read_fill _ _ e s) as [e1 s1 [|]|e1 s1]; try reflexivity.
  destruct (read_loop _ size (rewind_head s1) (is_data s1)); reflexivity.
Qed.

Lemma read_send_spec (s1 : input_stream) (size : nat) :
  let r := read_send s1 size in
  snd r = firstn size (unread s1)
  /\ unread (fst r) = skipn size (unread s1)
  /\ is_offset (fst r) = is_offset s1 + Z.of_nat (length (snd r))
  /\ c_eof (is_data (fst r)) = c_eof (is_data s1)
  /\ is_error (fst r) = is_error s1.
Proof.
  unfold read_send. rewrite read_loop_split by lia.
  cbn [fst snd]. split; [reflexivity|].
  assert (Hq : forall bufs n,
             concat (map unread_of (snd (split_queue n bufs)))
             = skipn n (concat (map unread_of bufs))).
  { induction bufs as [|b rest IH]; intros n.
    - cbn. now rewrite skipn_nil.
    - destruct n as [|n]; [reflexivity|].
      cbn [split_queue Nat.eqb map concat].
      pose proof (unread_of_length b) as Hul.
      rewrite skipn_app.
      destruct (Nat.ltb_spec (buf_consumed b + S n) (buf_size b)).
      + cbn [snd map concat].
        replace (S n - length (unread_of b))%nat with O by lia.
        rewrite unread_of_advance. reflexivity.
      + specialize (IH (S n - (buf_size b - buf_consumed b))%nat).
        destruct (split_queue (S n - (buf_size b - buf_consumed b)) rest).
        cbn [snd] in *. rewrite IH, Hul.
        rewrite (skipn_all2 (unread_of b)) by lia. reflexivity. }
  split; [|split; [reflexivity|]].
  - unfold unread, unread_c. rewrite <- Hq.
    unfold after_split.
    destruct (rewind_head s1), (max_rewind_size <? _); reflexivity.
  - unfold after_split.
    destruct (rewind_head s1), (max_rewind_size <? _); split; reflexivity.
Qed.

(** One [read]: the engine's replies [used] were taken in, the bytes
    returned are the first unread ones, and the offset advanced by their
    number. *)
Lemma input_curl_read_conserves (e : engine) (s : input_stream) (size : nat) :
  let o := input_curl_read e s size in
  exists used,
    performs e = used ++ performs (out_engine o)
    /\ out_bytes o ++ unread (out_stream o) = unread s ++ delivered used
    /\ is_offset (out_stream o)
       = is_offset s + Z.of_nat (length (out_bytes o)).
Proof.
  cbv zeta. rewrite input_curl_read_unfold.
  destruct (read_fill_core (S (length (performs e)))
              CURLM_CALL_MULTI_PERFORM e s)
    as ((used & Hu & Hfed) & _).
  exists used.
  destruct (read_fill _ _ e s) as [e1 s1 [|]|e1 s1]; cbn in *.
  - destruct (read_send_spec s1 size) as (Ho & Hun & Hoff & _).
    cbv zeta in *. split; [exact Hu|]. split.
    + rewrite Ho, Hun, firstn_skipn. now apply fed_unread.
    + rewrite Hoff. destruct Hfed as (_ & _ & O & _). now rewrite O.
  - split; [exact Hu|]. split; [now apply fed_unread|].
    destruct Hfed as (_ & _ & O & _). rewrite O. lia.
  - split; [exact Hu|]. split; [now apply fed_unread|].
    destruct Hfed as (_ & _ & O & _). rewrite O. lia.
Qed.

(** With data queued or the end reached, [read] does not call the engine:
    it returns the first [size] unread bytes. *)
Lemma input_curl_read_ready (e : engine) (s : input_stream) (size : nat) :
  negb (c_eof (is_data s)) && is_empty (c_buffers (is_data s)) = false ->
  input_curl_read e s size =
  Returns e (fst (read_send s size)) (firstn size (unread s)).
Proof.
  intros H. rewrite input_curl_read_unfold, read_fill_ready by exact H.
  destruct (read_send_spec s size) as (Ho & _). cbv zeta in Ho.
  now rewrite Ho.
Qed.

Lemma set_c_rewind_nil (c : input_curl) :
  c_rewind c = [] -> set_c_rewind [] c = c.
Proof. intros H. rewrite <- H. apply set_c_rewind_same. Qed.

(** At the end of the stream with nothing queued, [read] returns no bytes
    and changes nothing. *)
Lemma input_curl_read_at_eof (e : engine) (s : input_stream) (size : nat) :
  c_eof (is_data s) = true -> c_buffers (is_data s) = [] ->
  c_rewind (is_data s) = [] ->
  input_curl_read e s size = Returns e s [].
Proof.
  intros He Hb Hr.
  rewrite input_curl_read_ready by (now rewrite He).
  unfold unread, unread_c. rewrite Hb. cbn [map concat]. rewrite firstn_nil.
  f_equal. unfold read_send. rewrite read_loop_empty by exact Hb.
  cbn [fst length]. rewrite Z.add_0_r.
  destruct (rewind_head s && (max_rewind_size <? is_offset s));
    rewrite ?set_c_rewind_nil by exact Hr; destruct s; reflexivity.
Qed.

(** ** Seeking *)

Lemma fast_forward_step (fuel : nat) (offset : Z) (s : input_stream) :
  fast_forward (S fuel) offset s =
  if (is_offset s <? offset) && negb (is_empty (c_buffers (is_data s))) then
    match c_buffers (is_data s) with
    | b :: _ =>
        let keep := rewind_head s in
        let length :=
          if offset - is_offset s <? Z.of_nat (buf_size b - buf_consumed b)
          then Z.to_nat (offset - is_offset s)
          else (buf_size b - buf_consumed b)%nat in
        let s1 := on_data (consume_buffer length keep) s in
        fast_forward fuel offset
          (set_offset (is_offset s1 + Z.of_nat length) s1)
    | [] => s
    end
  else s.
Proof. reflexivity. Qed.

(** Nothing to skip: the loop is not entered. *)
Lemma fast_forward_reached (fuel : nat) (offset : Z) (s : input_stream) :
  offset <= is_offset s -> fast_forward fuel offset s = s.
Proof.
  intros H. destruct fuel; cbn;
    destruct (Z.ltb_spec (is_offset s) offset); try lia; reflexivity.
Qed.

(** The loop touches the two lists and the offset only. *)
Lemma fast_forward_fields (fuel : nat) (offset : Z) (s : input_stream) :
  let s' := fast_forward fuel offset s in
  is_size s' = is_size s /\ is_seekable s' = is_seekable s
  /\ is_error s' = is_error s /\ c_eof (is_data s') = c_eof (is_data s)
  /\ c_easy (is_data s') = c_easy (is_data s).
Proof.
  revert s. induction fuel as [|fuel IH]; intros s.
  - cbn. destruct ((is_offset s <? offset) && _); auto.
  - rewrite fast_forward_step.
    destruct ((is_offset s <? offset) && _); [|auto].
    destruct (c_buffers (is_data s)) as [|b rest] eqn:Hb; [auto|].
    cbv zeta.
    match goal with
    | |- context [fast_forward fuel offset ?s1] =>
        destruct (IH s1) as (A & B & C & D & E)
    end.
    cbv zeta in *. rewrite A, B, C, D, E. cbn.
    unfold consume_buffer. rewrite Hb.
    repeat match goal with
           | |- context [if ?x then _ else _] => destruct x
           end; auto.
Qed.

(** C4 (as amended).  A seek whose absolute target is the current offset
    changes nothing and calls nothing; it succeeds on a seekable stream and
    for [SEEK_SET] to 0, and fails on any other request to a stream that is
    not seekable. *)
Theorem seek_to_current_offset :
  forall (e : engine) (s : input_stream) (offset whence : Z),
    0 <= is_offset s ->
    seek_target s offset whence = Some (is_offset s) ->
    input_curl_seek e s offset whence =
    Returns e s (is_seekable s || ((whence =? SEEK_SET) && (offset =? 0))).
Proof.
  intros e s offset whence Hpos Ht. unfold input_curl_seek.
  destruct ((whence =? SEEK_SET) && (offset =? 0)) eqn:Hz.
  - apply andb_true_iff in Hz. destruct Hz as [Hw Ho].
    unfold seek_target in Ht. rewrite Hw in Ht.
    apply Z.eqb_eq in Ho. inversion Ht as [Heq]. rewrite <- Heq, Ho.
    cbn. now rewrite orb_true_r.
  - cbn [andb]. rewrite orb_false_r.
    destruct (is_seekable s); cbn [negb]; [|reflexivity].
    rewrite Ht. destruct (Z.ltb_spec (is_offset s) 0); [lia|].
    rewrite fast_forward_reached by lia. now rewrite Z.eqb_refl.
Qed.

Lemma seek_to_current_offset_witness :
  input_curl_seek (mk_engine [] [] [] [])
    (set_seekable true (set_offset 5 (new_stream (bytes "http://host/a"))))
    0 SEEK_CUR
  = Returns (mk_engine [] [] [] [])
      (set_seekable true (set_offset 5 (new_stream (bytes "http://host/a"))))
      true.
Proof.
  apply (seek_to_current_offset (mk_engine [] [] [] [])
           (set_seekable true
              (set_offset 5 (new_stream (bytes "http://host/a")))) 0 SEEK_CUR).
  - cbn. lia.
  - reflexivity.
Defined.

(** C4, counterexample.  A stream that is not seekable has read 5 bytes;
    [seek(0, SEEK_CUR)] has the current offset as its target, and returns
    false. *)
Lemma seek_to_current_offset_fails_unseekable :
  let o1 := input_curl_open true plain_engine plain_url in
  let o2 := input_curl_read (out_engine o1) (out_stream o1) 5 in
  out_bytes o2 = bytes "hello"
  /\ is_seekable (out_stream o2) = false
  /\ seek_target (out_stream o2) 0 SEEK_CUR = Some (is_offset (out_stream o2))
  /\ input_curl_seek (out_engine o2) (out_stream o2) 0 SEEK_CUR
     = Returns (out_engine o2) (out_stream o2) false.
Proof. vm_compute. repeat split. Qed.

(** The sum of [SEEK_CUR] is an [off_t] sum: at offset 7, an offset of
    2^63 - 1 gives a negative target, and the seek is refused with nothing
    changed. *)
Lemma seek_sum_wraps_around :
  seek_target sized_stream (2 ^ 63 - 1) SEEK_CUR = Some (- 2 ^ 63 + 6)
  /\ input_curl_seek plain_engine sized_stream (2 ^ 63 - 1) SEEK_CUR
     = Returns plain_engine sized_stream false.
Proof. split; vm_compute; reflexivity. Qed.

(** C8.  On a seekable stream whose size is known, a seek whose target is
    that size and which is not settled by the no-op, the rewind or the
    fast-forward succeeds without starting a request or polling: the
    handle and both lists are freed, [eof] is set, [input_curl_eof] holds,
    and every later [read] returns no bytes and leaves the stream as it
    is. *)
Theorem seek_to_known_size_is_eof :
  forall (e : engine) (s : input_stream) (offset whence target : Z),
    is_seekable s = true ->
    seek_target s offset whence = Some target ->
    0 <= target -> target = is_size s ->
    (whence =? SEEK_SET) && (offset =? 0)
      && ((is_offset s =? 0) || input_curl_can_rewind s) = false ->
    is_offset (fast_forward (length (c_buffers (is_data s))) target s)
      <> target ->
    exists e' s',
      input_curl_seek e s offset whence = Returns e' s' true
      /\ inits e' = inits e /\ performs e' = performs e
      /\ selects e' = selects e
      /\ c_easy (is_data s') = None
      /\ c_buffers (is_data s') = [] /\ c_rewind (is_data s') = []
      /\ c_eof (is_data s') = true /\ is_offset s' = target
      /\ input_curl_eof s' = true
      /\ forall (e2 : engine) (size : nat),
           input_curl_read e2 s' size = Returns e2 s' [].
Proof.
  intros e s offset whence target Hseek Ht Hpos Hsize Hshort Hff.
  unfold input_curl_seek.
  assert (H1 : (whence =? SEEK_SET) && (offset =? 0) && (is_offset s =? 0)
               = false).
  { destruct ((whence =? SEEK_SET) && (offset =? 0)); [|reflexivity].
    cbn in *. now apply orb_false_iff in Hshort. }
  assert (H2 : (whence =? SEEK_SET) && (offset =? 0)
               && input_curl_can_rewind s = false).
  { destruct ((whence =? SEEK_SET) && (offset =? 0)); [|reflexivity].
    cbn in *. now apply orb_false_iff in Hshort. }
  rewrite H1, H2, Hseek, Ht. cbn [negb].
  destruct (Z.ltb_spec target 0); [lia|].
  set (s1 := fast_forward (length (c_buffers (is_data s))) target s) in *.
  destruct (Z.eqb_spec target (is_offset s1)) as [Heq|_]; [congruence|].
  unfold seek_reconnect, input_curl_easy_free.
  destruct (fast_forward_fields (length (c_buffers (is_data s))) target s)
    as (Hsz & _).
  fold s1 in Hsz. cbn [is_offset is_size set_offset set_data].
  rewrite Hsz, <- Hsize, Z.eqb_refl.
  eexists _, _. split; [reflexivity|].
  repeat split; try (destruct (c_easy (is_data s1)); reflexivity).
  intros e2 size. apply input_curl_read_at_eof; reflexivity.
Qed.

Lemma seek_to_known_size_is_eof_witness :
  exists e' s',
    input_curl_seek plain_engine sized_stream 0 SEEK_END = Returns e' s' true
    /\ inits e' = inits plain_engine /\ performs e' = performs plain_engine
    /\ selects e' = selects plain_engine
    /\ c_easy (is_data s') = None
    /\ c_buffers (is_data s') = [] /\ c_rewind (is_data s') = []
    /\ c_eof (is_data s') = true /\ is_offset s' = 12
    /\ input_curl_eof s' = true
    /\ forall (e2 : engine) (size : nat),
         input_curl_read e2 s' size = Returns e2 s' [].
Proof.
  apply (seek_to_known_size_is_eof plain_engine sized_stream 0 SEEK_END 12).
  - reflexivity.
  - reflexivity.
  - lia.
  - reflexivity.
  - reflexivity.
  - vm_compute. discriminate.
Defined.

(** ** After a failed transfer *)

Lemma firstn_plus {A : Type} (n m : nat) (l : list A) :
  firstn (n + m) l = firstn n l ++ firstn m (skipn n l).
Proof.
  revert l. induction n as [|n IH]; intros l; [reflexivity|].
  destruct l as [|x l]; cbn; [now rewrite firstn_nil|]. now rewrite IH.
Qed.

(** Once [eof] is set, a sequence of [read] calls never calls the engine:
    each call returns, and together they return the queued bytes in
    order. *)
Lemma run_reads_at_eof (sizes : list nat) (e : engine) (s : input_stream) :
  c_eof (is_data s) = true ->
  snd (fst (run_reads e s sizes)) = e
  /\ length (fst (fst (run_reads e s sizes))) = length sizes
  /\ concat (fst (fst (run_reads e s sizes)))
     = firstn (list_sum sizes) (unread s)
  /\ unread (snd (run_reads e s sizes)) = skipn (list_sum sizes) (unread s)
  /\ c_eof (is_data (snd (run_reads e s sizes))) = true
  /\ is_error (snd (run_reads e s sizes)) = is_error s.
Proof.
  revert e s. induction sizes as [|size rest IH]; intros e s He.
  - cbn. repeat split; auto.
  - cbn [run_reads]. rewrite input_curl_read_ready by (now rewrite He).
    destruct (read_send_spec s size) as (_ & Hun & _ & Heof & Herr).
    cbv zeta in *.
    destruct (IH e (fst (read_send s size))) as (A & B & C & D & E & F);
      [congruence|].
    destruct (run_reads e (fst (read_send s size)) rest) as [[outs e2] s2].
    cbn [fst snd length concat] in *.
    change (list_sum (size :: rest)) with (size + list_sum rest)%nat.
    rewrite A, B, C, D, E, F, Hun, Herr, firstn_plus, skipn_skipn.
    repeat split; auto. f_equal. lia.
Qed.

(** C5, counterexample.  The failure is reported by the first [read], which
    returns no bytes and stores the error; the next [read] returns the five
    bytes that were queued. *)
Lemma read_returns_queued_bytes_after_failure :
  let o1 := input_curl_open true failing_engine plain_url in
  let o2 := input_curl_read (out_engine o1) (out_stream o1) 5 in
  let o3 := input_curl_read (out_engine o2) (out_stream o2) 5 in
  o1 = Returns (out_engine o1) (out_stream o1) true
  /\ o2 = Returns (out_engine o2) (out_stream o2) []
  /\ is_error (out_stream o2) = -1
  /\ c_eof (is_data (out_stream o2)) = true
  /\ o3 = Returns (out_engine o3) (out_stream o3) (bytes "hello")
  /\ is_error (out_stream o3) = -1.
Proof. vm_compute. repeat split. Qed.

(** ** Zero-byte reads *)

Lemma chunks_ok (ps : list perform_reply) : Forall buffer_ok (chunks ps).
Proof.
  unfold chunks. induction ps as [|p ps IH]; [constructor|].
  cbn. apply Forall_app. split; [|exact IH].
  induction (pr_callbacks p) as [|cb cbs IHc]; [constructor|].
  cbn. apply Forall_app. split; [|exact IHc].
  destruct cb as [line|[|x payload]]; cbn; try constructor; [|constructor].
  unfold buffer_ok, buf_size. cbn. lia.
Qed.

Lemma fed_buffers_ok (used : list perform_reply) (s s' : input_stream) :
  fed used s s' ->
  Forall buffer_ok (c_buffers (is_data s)) ->
  Forall buffer_ok (c_buffers (is_data s')).
Proof.
  intros (B & _ & _) H. rewrite B. apply Forall_app. split; [exact H|].
  apply chunks_ok.
Qed.

(** A well-formed non-empty queue has unread bytes. *)
Lemma unread_nonempty (s : input_stream) :
  Forall buffer_ok (c_buffers (is_data s)) ->
  c_buffers (is_data s) <> [] -> unread s <> [].
Proof.
  unfold unread, unread_c. destruct (c_buffers (is_data s)) as [|b rest];
    [congruence|].
  intros H _. inversion H as [|? ? Hb _]; subst. cbn.
  pose proof (unread_of_length b) as Hul. unfold buffer_ok in Hb.
  destruct (unread_of b); cbn in *; [lia|discriminate].
Qed.

(** C9, counterexample.  The engine has nothing to deliver and select(2)
    times out: [read] returns no bytes although the transfer is still
    active, [eof] is not set and no error is stored. *)
Lemma read_returns_zero_on_select_timeout :
  let o1 := input_curl_open true stalled_engine plain_url in
  let o2 := input_curl_read (out_engine o1) (out_stream o1) 4096 in
  o1 = Returns (out_engine o1) (out_stream o1) true
  /\ o2 = Returns (out_engine o2) (out_stream o2) []
  /\ c_eof (is_data (out_stream o2)) = false
  /\ is_error (out_stream o2) = 0
  /\ c_buffers (is_data (out_stream o2)) = []
  /\ input_curl_eof (out_stream o2) = false.
Proof. vm_compute. repeat split. Qed.

(** While select(2) reports the socket ready, the fill loop goes on: the
    first poll of this [read] brings nothing, the wait returns 1, and the
    second poll brings the bytes that are returned. *)
Lemma read_retries_after_ready_select :
  let o1 := input_curl_open true slow_engine plain_url in
  let o2 := input_curl_read (out_engine o1) (out_stream o1) 4096 in
  out_value o2 = Some (bytes "hi")
  /\ performs (out_engine o2) = []
  /\ selects (out_engine o2) = [].
Proof. vm_compute. repeat split. Qed.

(** ** Reconnecting *)

Lemma perform_loop_core (again : Z -> input_stream -> bool) (fuel : nat)
  (e : engine) (s : input_stream) :
  let o := perform_loop again fuel e s in
  exists used, performs e = used ++ performs (out_engine o)
               /\ fed used s (out_stream o)
               /\ inits (out_engine o) = inits e
               /\ c_eof (is_data (out_stream o)) = c_eof (is_data s).
Proof.
  revert e s. induction fuel as [|fuel IH]; intros e s; cbn.
  - exists []. repeat split; auto. apply fed_refl.
  - destruct (curl_multi_perform e s) as [[[e1 s1] mcode]|] eqn:Hperf.
    2:{ exists []. repeat split; auto. apply fed_refl. }
    apply perform_core in Hperf.
    destruct Hperf as (p & Hp & _ & Hi & _ & Hfed & Heof & _).
    destruct (again mcode s1).
    + destruct (IH e1 s1) as (used & Hu & Hf & Hi2 & He2). cbv zeta in *.
      exists ([p] ++ used). split; [cbn; congruence|].
      split; [eapply fed_trans; eassumption|]. split; congruence.
    + exists [p]. cbn. auto.
Qed.

Lemma easy_init_core (e e' : engine) (s s' : input_stream) (ret : bool) :
  input_curl_easy_init e s = Some (e', s', ret) ->
  exists r, inits e = r :: inits e' /\ ret = init_ok r
            /\ performs e' = performs e /\ selects e' = selects e
            /\ pending e' = pending e
            /\ s' = on_data (fun c => set_c_easy (ir_easy r)
                                        (set_c_eof false c)) s.
Proof.
  unfold input_curl_easy_init, init_ok.
  destruct (inits e) as [|r rest]; [discriminate|]. intros H. exists r.
  destruct (ir_easy r); [|inversion H; subst; cbn; auto 10].
  destruct (ir_add r =? CURLM_OK); cbn in H;
    [|inversion H; subst; cbn; auto 10].
  destruct (ir_url r =? CURLE_OK); cbn in H; inversion H; subst; cbn; auto 10.
Qed.




(** ** The header callback *)

Lemma digit_facts (b : byte) :
  g_ascii_isdigit b = true ->
  g_ascii_isspace b = false /\ 48 <= code b <= 57.
Proof.
  unfold g_ascii_isdigit, g_ascii_isspace. intros H.
  apply andb_true_iff in H. destruct H as [H1 H2].
  apply Z.leb_le in H1. apply Z.leb_le in H2.
  split; [|lia].
  destruct (Z.eqb_spec (code b) 32); [lia|].
  destruct (Z.leb_spec 9 (code b)), (Z.leb_spec (code b) 13); cbn; auto; lia.
Qed.

(** A digit is nothing that [g_ascii_strtoull] skips or takes for a sign,
    and not the end of a C string. *)
Lemma digit_not_skipped (b : byte) :
  g_ascii_isdigit b = true ->
  strtoull_isspace b = false /\ code b <> 43 /\ code b <> 45 /\ code b <> 0.
Proof.
  unfold g_ascii_isdigit, strtoull_isspace, g_ascii_isspace. intros H.
  apply andb_true_iff in H. destruct H as [H1 H2].
  apply Z.leb_le in H1. apply Z.leb_le in H2.
  repeat split; lia.
Qed.

Lemma strtoull_skip_head (h : byte) (t : list byte) :
  strtoull_isspace h = false -> strtoull_skip (h :: t) = h :: t.
Proof. intros H. cbn. now rewrite H. Qed.

Lemma strtoull_skip_app (l r : list byte) :
  Forall (fun b => strtoull_isspace b = true) l ->
  strtoull_skip (l ++ r) = strtoull_skip r.
Proof.
  induction 1 as [|b l Hb _ IH]; [reflexivity|]. cbn. now rewrite Hb.
Qed.

Lemma skip_spaces_app (l r : list byte) :
  all_space l -> skip_spaces (l ++ r) = skip_spaces r.
Proof.
  induction 1 as [|b l Hb _ IH]; [reflexivity|]. cbn. now rewrite Hb.
Qed.

Lemma skip_spaces_head (h : byte) (t : list byte) :
  g_ascii_isspace h = false -> skip_spaces (h :: t) = h :: t.
Proof. intros H. cbn. now rewrite H. Qed.

Lemma skip_spaces_length (l : list byte) :
  (length (skip_spaces l) <= length l)%nat.
Proof.
  induction l as [|b l IH]; cbn; [lia|].
  destruct (g_ascii_isspace b); cbn; lia.
Qed.

Lemma skip_spaces_last (x : list byte) (h : byte) :
  g_ascii_isspace h = false ->
  exists p, skip_spaces (x ++ [h]) = p ++ [h].
Proof.
  intros H. induction x as [|a x IH].
  - exists []. cbn. now rewrite H.
  - cbn. destruct (g_ascii_isspace a); [exact IH|].
    exists (a :: x). reflexivity.
Qed.

(** Trimming on the right keeps a first byte that is not white space. *)
Lemma trim_right_head (h : byte) (t : list byte) :
  g_ascii_isspace h = false -> exists t', trim_right (h :: t) = h :: t'.
Proof.
  intros H. unfold trim_right. cbn [rev].
  destruct (skip_spaces_last (rev t) h H) as (p & Hp).
  rewrite Hp, rev_app_distr. cbn. eauto.
Qed.

Lemma trim_right_length (l : list byte) :
  (length (trim_right l) <= length l)%nat.
Proof.
  unfold trim_right. rewrite length_rev.
  pose proof (skip_spaces_length (rev l)) as H. now rewrite length_rev in H.
Qed.

Lemma trim_right_digits (digits trail : list byte) :
  all_digit digits -> all_space trail ->
  trim_right (digits ++ trail) = digits.
Proof.
  intros Hd Ht. unfold trim_right. rewrite rev_app_distr.
  rewrite skip_spaces_app by (apply Forall_rev; exact Ht).
  assert (Hr : all_digit (rev digits)) by (apply Forall_rev; exact Hd).
  destruct (rev digits) as [|h t] eqn:Hrev.
  - cbn. apply (f_equal (@rev byte)) in Hrev. rewrite rev_involutive in Hrev.
    now rewrite Hrev.
  - inversion Hr as [|? ? Hh _]; subst.
    rewrite skip_spaces_head by (apply digit_facts; exact Hh).
    rewrite <- Hrev. apply rev_involutive.
Qed.

Lemma c_str_id (l : list byte) :
  Forall (fun b => code b <> 0) l -> c_str l = l.
Proof.
  induction 1 as [|b l Hb _ IH]; [reflexivity|]. cbn.
  destruct (Z.eqb_spec (code b) 0); [contradiction|]. now rewrite IH.
Qed.

Lemma memchr_app (c : byte) (name rest : list byte) :
  Forall (fun b => b <> c) name ->
  memchr c (name ++ c :: rest) = Some (length name).
Proof.
  induction 1 as [|b l Hb _ IH]; cbn.
  - now rewrite Byte.byte_dec_lb.
  - destruct (Byte.eqb b c) eqn:E.
    + apply Byte.byte_dec_bl in E. contradiction.
    + now rewrite IH.
Qed.

(** A name that compares equal to a literal without colon and NUL
    contains neither. *)
Lemma names_header_bytes (name : list byte) (literal : string) :
  names_header name literal ->
  Forall (fun z => z <> 58 /\ z <> 0) (map code (bytes literal)) ->
  Forall (fun b => b <> ":"%byte) name /\ Forall (fun b => code b <> 0) name.
Proof.
  unfold names_header. generalize (map code (bytes literal)) as codes.
  induction name as [|b name IH]; intros codes Hn Hc; [split; constructor|].
  destruct codes as [|z codes]; [discriminate|].
  cbn in Hn. injection Hn as Hz Hrest. inversion Hc as [|? ? [H1 H2] Hc'].
  subst. destruct (IH _ eq_refl Hc') as [IH1 IH2].
  assert (Hb : code b <> 58 /\ code b <> 0).
  { unfold lower_code in H1, H2.
    destruct ((65 <=? code b) && (code b <=? 90)) eqn:E.
    - apply andb_true_iff in E. destruct E as [E1 E2].
      apply Z.leb_le in E1. apply Z.leb_le in E2. lia.
    - auto. }
  split; constructor; try tauto.
  intros ->. apply (proj1 Hb). reflexivity.
Qed.

Lemma decimal_from_mono (l : list byte) (acc : Z) :
  all_digit l -> 0 <= acc -> acc <= decimal_from acc l.
Proof.
  revert acc. induction l as [|b l IH]; intros acc Hl Hacc; [cbn; lia|].
  inversion Hl as [|? ? Hb Hl']; subst.
  destruct (digit_facts b Hb) as [_ Hr].
  cbn [decimal_from fold_left].
  fold (decimal_from (acc * 10 + (code b - 48)) l).
  specialize (IH (acc * 10 + (code b - 48)) Hl'). lia.
Qed.

Lemma strtoull_digits_value (digits : list byte) (acc : Z) :
  all_digit digits -> 0 <= acc -> decimal_from acc digits <= G_MAXUINT64 ->
  strtoull_digits digits acc false = (decimal_from acc digits, false)
  /\ acc <= decimal_from acc digits.
Proof.
  intros Hd. revert acc. induction Hd as [|b l Hb _ IH]; intros acc Hacc Hmax.
  - cbn. split; [reflexivity|lia].
  - destruct (digit_facts b Hb) as [_ Hrange].
    cbn [strtoull_digits decimal_from fold_left] in *. rewrite Hb.
    fold (decimal_from (acc * 10 + (code b - 48)) l) in *.
    destruct (IH (acc * 10 + (code b - 48))) as [IH1 IH2]; [lia|exact Hmax|].
    cbn [orb].
    destruct (Z.ltb_spec G_MAXUINT64 (acc * 10 + (code b - 48))); [lia|].
    split; [exact IH1|lia].
Qed.

Lemma g_ascii_strtoull_digits (digits : list byte) :
  all_digit digits -> decimal digits <= G_MAXUINT64 ->
  g_ascii_strtoull digits = decimal digits.
Proof.
  intros Hd Hmax. unfold g_ascii_strtoull.
  destruct (strtoull_digits_value digits 0 Hd) as [Hv _]; [lia|exact Hmax|].
  destruct digits as [|h t]; [reflexivity|].
  inversion Hd as [|? ? Hh _]; subst.
  destruct (digit_not_skipped h Hh) as (Hsp & Hplus & Hminus & _).
  rewrite strtoull_skip_head by exact Hsp.
  destruct (Z.eqb_spec (code h) 45); [contradiction|].
  destruct (Z.eqb_spec (code h) 43); [contradiction|].
  now rewrite Hv.
Qed.

Lemma to_off_t_small (z : Z) : 0 <= z < 2 ^ 63 -> to_off_t z = z.
Proof.
  intros H. unfold to_off_t. rewrite Z.mod_small by lia.
  destruct (Z.ltb_spec z (2 ^ 63)); lia.
Qed.

(** A [content-length] line whose end, after trimming, lies within the
    first 63 bytes: the size becomes the offset plus whatever
    [g_ascii_strtoull] makes of the value. *)
Lemma headerfunction_content_length (name rest : list byte)
  (s : input_stream) :
  names_header name "content-length" ->
  (length (name ++ ":"%byte :: rest)
   - (length (skip_spaces rest) - length (trim_right (skip_spaces rest)))
   < 64)%nat ->
  input_curl_headerfunction (name ++ ":"%byte :: rest) s =
  set_size
    (to_off_t (is_offset s
               + g_ascii_strtoull (c_str (trim_right (skip_spaces rest))))) s.
Proof.
  intros Hn Hlen.
  destruct (names_header_bytes name "content-length" Hn) as [Hcolon Hnul].
  { vm_compute. repeat constructor; discriminate. }
  pose proof (skip_spaces_length rest) as Hl1.
  pose proof (trim_right_length (skip_spaces rest)) as Hl2.
  rewrite length_app in Hlen. cbn [length] in Hlen.
  unfold input_curl_headerfunction.
  rewrite memchr_app by exact Hcolon.
  destruct (Nat.leb_spec 64 (length name)) as [Hbig|_]; [lia|].
  rewrite firstn_app, firstn_all, Nat.sub_diag. cbn [firstn].
  rewrite app_nil_r.
  replace (skipn (S (length name)) (name ++ ":"%byte :: rest)) with rest.
  2:{ rewrite skipn_app, skipn_all2 by lia.
      replace (S (length name) - length name)%nat with 1%nat by lia.
      reflexivity. }
  rewrite (c_str_id name Hnul).
  assert (H1 : strcasecmp_eq name (bytes "accept-ranges") = false).
  { unfold strcasecmp_eq. rewrite (c_str_id name Hnul), Hn. reflexivity. }
  assert (H2 : strcasecmp_eq name (bytes "content-length") = true).
  { unfold strcasecmp_eq. rewrite (c_str_id name Hnul), Hn. reflexivity. }
  rewrite H1, H2, length_app. cbn [length].
  destruct (Nat.leb_spec 64
              (length name + S (length rest)
               - (length (skip_spaces rest)
                  - length (trim_right (skip_spaces rest))))) as [Hbig|_];
    [lia|reflexivity].
Qed.

(** ** The rewind list as a record of what has been read *)

Lemma read_part_length (bufs : list buffer) :
  Forall buffer_ok bufs -> length (read_part bufs) = head_consumed bufs.
Proof.
  destruct bufs as [|b rest]; [reflexivity|]. intros H.
  inversion H as [|? ? Hb _]; subst. cbn. unfold buffer_ok, buf_size in Hb.
  rewrite length_firstn. lia.
Qed.

Lemma full_data_length (l : list buffer) :
  Forall buffer_full l -> l <> [] ->
  (0 < length (concat (map buf_data l)))%nat.
Proof.
  destruct l as [|b l]; [congruence|]. intros H _.
  inversion H as [|? ? [_ Hb] _]; subst. cbn. rewrite length_app.
  unfold buf_size in Hb. lia.
Qed.

(** The buffers that the copy loop uses up and leaves, on a well-formed
    queue. *)
Lemma split_queue_wf (bufs : list buffer) (n : nat) :
  Forall buffer_ok bufs -> tail_fresh bufs ->
  let r := split_queue n bufs in
  Forall buffer_full (fst r)
  /\ Forall buffer_ok (snd r) /\ tail_fresh (snd r)
  /\ concat (map buf_data (fst r)) ++ read_part (snd r)
     = read_part bufs ++ firstn n (concat (map unread_of bufs)).
Proof.
  revert n. induction bufs as [|b rest IH]; intros n Hok Hfresh.
  - cbn. rewrite firstn_nil. repeat split; constructor.
  - destruct n as [|n].
    { cbn. rewrite app_nil_r. repeat split; auto. }
    inversion Hok as [|? ? Hb Hrest]; subst. cbn in Hfresh.
    pose proof (unread_of_length b) as Hul. unfold buffer_ok in Hb.
    cbn [split_queue Nat.eqb map concat read_part].
    destruct (Nat.ltb_spec (buf_consumed b + S n) (buf_size b)) as [Hlt|Hge].
    + cbn [fst snd map concat read_part buf_consumed buf_data app].
      repeat split.
      * constructor.
      * constructor; [|exact Hrest]. unfold buffer_ok, buf_size in *.
        cbn. lia.
      * exact Hfresh.
      * rewrite firstn_app.
        replace (S n - length (unread_of b))%nat with O by lia.
        rewrite (firstn_O (concat (map unread_of rest))), app_nil_r.
        apply firstn_plus.
    + assert (Htail : tail_fresh rest).
      { destruct rest as [|b2 rest2]; [exact I|].
        inversion Hfresh; assumption. }
      specialize (IH (S n - (buf_size b - buf_consumed b))%nat Hrest Htail).
      destruct (split_queue (S n - (buf_size b - buf_consumed b)) rest)
        as [moved left]. cbv zeta in IH. cbn [fst snd] in *.
      destruct IH as (IH1 & IH2 & IH3 & IH4).
      repeat split; auto.
      * constructor; [|exact IH1]. unfold buffer_full, buf_size in *.
        cbn. lia.
      * cbn [map concat buf_data]. rewrite <- app_assoc, IH4.
        assert (Hrp : read_part rest = []).
        { destruct rest as [|b2 rest2]; [reflexivity|].
          inversion Hfresh as [|? ? Hb2 _]; subst. cbn.
          unfold buffer_fresh in Hb2. now rewrite Hb2. }
        rewrite Hrp, app_nil_l, firstn_app, Hul.
        rewrite (@firstn_all2 _ (S n) (unread_of b)) by lia.
        rewrite app_assoc. f_equal. unfold unread_of.
        symmetry. apply firstn_skipn.
Qed.

(** What the engine delivers does not touch what has been read. *)
Lemma fed_keeps_history (used : list perform_reply) (s s' : input_stream) :
  fed used s s' ->
  (wf_stream s -> wf_stream s')
  /\ replayed s' = replayed s
  /\ head_consumed (c_buffers (is_data s'))
     = head_consumed (c_buffers (is_data s)).
Proof.
  intros (B & R & O & _). unfold wf_stream, replayed. rewrite B, R, O.
  pose proof (chunks_ok used) as Hok.
  assert (Hfresh : Forall buffer_fresh (chunks used)).
  { unfold chunks. clear. induction used as [|p ps IH]; [constructor|].
    cbn. apply Forall_app. split; [|exact IH].
    induction (pr_callbacks p) as [|cb cbs IHc]; [constructor|].
    cbn. apply Forall_app. split; [|exact IHc].
    destruct cb as [line|[|x payload]]; cbn; try constructor;
      [reflexivity|constructor]. }
  split; [|split].
  - intros (H1 & H2 & H3 & H4). repeat split; auto.
    + apply Forall_app. auto.
    + destruct (c_buffers (is_data s)) as [|b rest]; cbn in *.
      * destruct (chunks used); [exact I|]. inversion Hfresh; assumption.
      * apply Forall_app. auto.
  - f_equal. destruct (c_buffers (is_data s)) as [|b rest]; [|reflexivity].
    cbn. destruct (chunks used) as [|c l]; [reflexivity|].
    inversion Hfresh as [|? ? Hc _]; subst. cbn.
    unfold buffer_fresh in Hc. now rewrite Hc.
  - destruct (c_buffers (is_data s)) as [|b rest]; [|reflexivity].
    cbn. destruct (chunks used) as [|c l]; [reflexivity|].
    inversion Hfresh as [|? ? Hc _]; subst. exact Hc.
Qed.

Lemma data_length_sum (l : list buffer) :
  length (concat (map buf_data l)) = list_sum (map buf_size l).
Proof.
  induction l as [|b l IH]; [reflexivity|].
  cbn. rewrite length_app, IH. reflexivity.
Qed.

(** The copy loop and the offset update of [input_curl_read] on a
    well-formed stream: the lists stay well-formed; a stream that could
    be rewound either can still be rewound, with the bytes returned added
    to its record, or has lost its record; a lost record stays lost; and
    the rewind list is within [max_rewind_size] afterwards. *)
Lemma read_send_history (s1 : input_stream) (n : nat) :
  wf_stream s1 ->
  let s' := fst (read_send s1 n) in
  let out := snd (read_send s1 n) in
  wf_stream s'
  /\ (forall hist, replayable s1 hist ->
                   (replayable s' (hist ++ out)
                    /\ rewind_total s' <= max_rewind_size)
                   \/ rewind_lost s')
  /\ (rewind_lost s1 -> rewind_lost s').
Proof.
  intros (Hok & Hfresh & Hfull & Hoff).
  pose proof (split_queue_wf (c_buffers (is_data s1)) n Hok Hfresh) as Hsq.
  cbv zeta in Hsq.
  destruct (split_queue n (c_buffers (is_data s1))) as [moved left] eqn:Heq.
  cbn [fst snd] in Hsq. destruct Hsq as (Hm & Hl & Hlf & Hhist).
  fold (unread_c (is_data s1)) in Hhist.
  pose proof (read_part_length _ Hok) as Hrp.
  pose proof (read_part_length _ Hl) as Hrp'.
  (* the result, field by field *)
  assert (Hres :
    snd (read_send s1 n) = firstn n (unread_c (is_data s1))
    /\ c_buffers (is_data (fst (read_send s1 n))) = left
    /\ is_offset (fst (read_send s1 n))
       = is_offset s1 + Z.of_nat (length (firstn n (unread_c (is_data s1))))
    /\ c_rewind (is_data (fst (read_send s1 n)))
       = if rewind_head s1
         then if max_rewind_size
                 <? is_offset s1
                    + Z.of_nat (length (firstn n (unread_c (is_data s1))))
              then [] else c_rewind (is_data s1) ++ moved
         else c_rewind (is_data s1)).
  { unfold read_send. rewrite read_loop_split by lia. rewrite Heq.
    unfold after_split. cbn [fst snd].
    destruct (rewind_head s1), (max_rewind_size <? _); cbn; auto. }
  destruct Hres as (Ho & Hb' & Hoff' & Hr').
  cbv zeta. rewrite Ho.
  set (s' := fst (read_send s1 n)) in *.
  set (out := firstn n (unread_c (is_data s1))) in *.
  clearbody s' out. clear Ho Heq.
  assert (Hlen : (length (concat (map buf_data moved))
                  + head_consumed left
                  = head_consumed (c_buffers (is_data s1)) + length out)%nat).
  { apply (f_equal (@length byte)) in Hhist.
    rewrite !length_app in Hhist. lia. }
  assert (Hmoved : moved <> [] ->
                   (0 < length (concat (map buf_data moved)))%nat)
    by (apply full_data_length; exact Hm).
  unfold wf_stream, replayable, rewind_lost, replayed, rewind_total.
  rewrite Hb', Hoff'.
  unfold rewind_head in Hr'.
  destruct (c_rewind (is_data s1)) as [|r0 rw] eqn:Hrw; cbn [is_empty negb orb] in Hr'.
  - (* the rewind list is empty *)
    destruct (Z.eqb_spec (is_offset s1) 0) as [Hz|Hnz].
    + (* at the beginning: the used-up buffers start the rewind list *)
      destruct (Z.ltb_spec max_rewind_size
                  (is_offset s1 + Z.of_nat (length out))) as [Hbig|Hsmall];
        rewrite Hr'; cbn [app map concat].
      * split; [repeat split; auto; try constructor; lia|]. split.
        -- intros hist [Hh Ho]. cbn in Hh.
           destruct moved as [|m moved'].
           ++ left. cbn in Hhist. rewrite Hhist, Hh.
              split; [split; [reflexivity|]|cbn; unfold max_rewind_size; lia].
              rewrite length_app. lia.
           ++ right. split; [reflexivity|].
              assert (0 < length (concat (map buf_data (m :: moved'))))%nat
                by (apply Hmoved; discriminate).
              rewrite Hh in Hrp. lia.
        -- intros [_ Hlost]. lia.
      * split; [repeat split; auto; lia|]. split.
        -- intros hist [Hh Ho]. cbn in Hh. left.
           rewrite Hhist, Hh. split; [split; [reflexivity|]|].
           ++ rewrite length_app. lia.
           ++ rewrite <- data_length_sum. rewrite Hh in Hrp. lia.
        -- intros [_ Hlost]. lia.
    + (* somewhere else: used-up buffers are freed *)
      rewrite Hr'. cbn [app map concat].
      split; [repeat split; auto; try constructor; lia|]. split.
      * intros hist [Hh Ho]. cbn in Hh.
        destruct moved as [|m moved'].
        -- left. cbn in Hhist. rewrite Hhist, Hh.
           split; [split; [reflexivity|]|cbn; unfold max_rewind_size; lia].
           rewrite length_app. lia.
        -- right. split; [reflexivity|].
           assert (0 < length (concat (map buf_data (m :: moved'))))%nat
             by (apply Hmoved; discriminate).
           rewrite Hh in Hrp. lia.
      * intros [_ Hlost]. split; [reflexivity|]. lia.
  - (* the rewind list is being written *)
    assert (Hp : (0 < length (concat (map buf_data (r0 :: rw))))%nat)
      by (apply full_data_length; [exact Hfull|discriminate]).
    destruct (Z.ltb_spec max_rewind_size
                (is_offset s1 + Z.of_nat (length out))) as [Hbig|Hsmall];
      rewrite Hr'.
    + split; [repeat split; auto; try constructor; lia|]. split.
      * intros hist [Hh Ho]. right. split; [reflexivity|].
        apply (f_equal (@length byte)) in Hh. rewrite length_app in Hh.
        lia.
      * intros [Hx _]. discriminate.
    + split; [repeat split; auto; [apply Forall_app; auto|lia]|]. split.
      * intros hist [Hh Ho]. left.
        rewrite map_app, concat_app, <- app_assoc, Hhist, app_assoc, Hh.
        split; [split; [reflexivity|]|].
        -- rewrite length_app. lia.
        -- rewrite <- data_length_sum, map_app, concat_app, length_app.
           apply (f_equal (@length byte)) in Hh. rewrite length_app in Hh.
           lia.
      * intros [Hx _]. discriminate.
Qed.

Lemma fed_replayable (used : list perform_reply) (s s' : input_stream) :
  fed used s s' ->
  (wf_stream s -> wf_stream s')
  /\ (forall hist, replayable s hist -> replayable s' hist)
  /\ (rewind_lost s -> rewind_lost s')
  /\ rewind_total s' = rewind_total s.
Proof.
  intros H. destruct (fed_keeps_history _ _ _ H) as (Hwf & Hre & Hhc).
  destruct H as (_ & R & O & _).
  unfold replayable, rewind_lost, rewind_total.
  rewrite Hre, Hhc, R, O. tauto.
Qed.

(** One [read], however it ends, on a well-formed stream. *)
Lemma input_curl_read_history (e : engine) (s : input_stream) (n : nat) :
  wf_stream s ->
  let o := input_curl_read e s n in
  wf_stream (out_stream o)
  /\ (forall hist, replayable s hist ->
                   replayable (out_stream o) (hist ++ out_bytes o)
                   \/ rewind_lost (out_stream o))
  /\ (rewind_lost s -> rewind_lost (out_stream o))
  /\ ((exists hist, replayable s hist) \/ rewind_lost s ->
      rewind_total s <= max_rewind_size ->
      rewind_total (out_stream o) <= max_rewind_size).
Proof.
  intros Hwf. cbv zeta. rewrite input_curl_read_unfold.
  destruct (read_fill_core (S (length (performs e)))
              CURLM_CALL_MULTI_PERFORM e s) as ((used & _ & Hfed) & _).
  apply fed_replayable in Hfed. destruct Hfed as (F1 & F2 & F3 & F4).
  destruct (read_fill _ _ e s) as [e1 s1 [|]|e1 s1]; cbn in *.
  - destruct (read_send_history s1 n (F1 Hwf)) as (S1 & S2 & S3).
    cbv zeta in *. split; [exact S1|]. split; [|split].
    + intros hist Hh. destruct (S2 hist (F2 hist Hh)) as [[Hr _]|Hl]; auto.
    + auto.
    + intros [[hist Hh]|Hl] _.
      * destruct (S2 hist (F2 hist Hh)) as [[_ Hb]|[Hl _]]; [exact Hb|].
        unfold rewind_total. rewrite Hl. cbn. unfold max_rewind_size. lia.
      * destruct (S3 (F3 Hl)) as [Hl' _].
        unfold rewind_total. rewrite Hl'. cbn. unfold max_rewind_size. lia.
  - split; [auto|]. split; [|split].
    + intros hist Hh. left. rewrite app_nil_r. auto.
    + auto.
    + intros _ Hb. now rewrite F4.
  - split; [auto|]. split; [|split].
    + intros hist Hh. left. rewrite app_nil_r. auto.
    + auto.
    + intros _ Hb. now rewrite F4.
Qed.

(** A sequence of [read] calls on a stream that can be rewound: at its end
    the stream can still be rewound, and its record has grown by the bytes
    returned, or the record is lost. *)
Lemma run_reads_history (sizes : list nat) (e : engine) (s : input_stream)
  (hist : list byte) :
  wf_stream s -> replayable s hist ->
  wf_stream (snd (run_reads e s sizes))
  /\ (replayable (snd (run_reads e s sizes))
        (hist ++ concat (fst (fst (run_reads e s sizes))))
      \/ rewind_lost (snd (run_reads e s sizes))).
Proof.
  revert e s hist. induction sizes as [|n rest IH]; intros e s hist Hwf Hh.
  - cbn. rewrite app_nil_r. auto.
  - cbn [run_reads].
    destruct (input_curl_read_history e s n Hwf) as (W & R & _).
    cbv zeta in *. specialize (R hist Hh).
    destruct (input_curl_read e s n) as [e1 s1 out|e1 s1] eqn:Hread;
      cbn [out_stream out_bytes] in *.
    + destruct R as [R|L].
      * destruct (IH e1 s1 (hist ++ out) W R) as (W2 & R2).
        destruct (run_reads e1 s1 rest) as [[outs e2] s2].
        cbn [fst snd concat] in *. rewrite app_assoc. auto.
      * (* once lost, lost for the rest of the sequence *)
        assert (Hlost : forall sizes e s,
                   wf_stream s -> rewind_lost s ->
                   wf_stream (snd (run_reads e s sizes))
                   /\ rewind_lost (snd (run_reads e s sizes))).
        { clear. induction sizes as [|n rest IH]; intros e s Hwf Hl;
            [cbn; auto|].
          cbn [run_reads].
          destruct (input_curl_read_history e s n Hwf) as (W & _ & L & _).
          cbv zeta in *. specialize (L Hl).
          destruct (input_curl_read e s n) as [e1 s1 out|e1 s1];
            cbn [out_stream] in *; [|cbn; auto].
          destruct (IH e1 s1 W L) as (W2 & L2).
          destruct (run_reads e1 s1 rest) as [[outs e2] s2]. cbn in *. auto. }
        destruct (Hlost rest e1 s1 W L) as (W2 & L2).
        destruct (run_reads e1 s1 rest) as [[outs e2] s2]. cbn in *. auto.
    + cbn. rewrite app_nil_r in R. rewrite app_nil_r. auto.
Qed.

Lemma rewind_lost_cannot_rewind (s : input_stream) :
  rewind_lost s -> input_curl_can_rewind s = false.
Proof.
  intros [Hr Hl]. unfold input_curl_can_rewind. rewrite Hr. cbn.
  destruct (c_buffers (is_data s)) as [|b rest]; [reflexivity|].
  cbn in Hl. destruct (Z.eqb_spec (Z.of_nat (buf_consumed b)) (is_offset s));
    [lia|reflexivity].
Qed.

(** The [assert(offset == is->offset)] of [input_curl_rewind] holds where
    [input_curl_seek] calls it. *)
Lemma rewind_assert_holds (s : input_stream) (hist : list byte) :
  wf_stream s -> replayable s hist ->
  rewind_assert_offset s = is_offset s.
Proof.
  intros (Hok & _ & Hfull & _) [Hh Ho]. unfold rewind_assert_offset.
  rewrite Ho, <- Hh. unfold replayed. rewrite length_app, data_length_sum.
  rewrite (read_part_length _ Hok). f_equal. f_equal.
  clear - Hfull. induction Hfull as [|b l [Hb _] _ IH]; [reflexivity|].
  unfold list_sum in *. cbn. now rewrite Hb, IH.
Qed.

Lemma at_start_replayable (s : input_stream) :
  at_start s -> wf_stream s /\ replayable s [].
Proof.
  intros (Ho & Hr & Hb). unfold wf_stream, replayable, replayed.
  rewrite Hr, Ho.
  assert (H1 : Forall buffer_ok (c_buffers (is_data s)))
    by (eapply Forall_impl; [|exact Hb]; cbn; tauto).
  assert (H2 : Forall buffer_fresh (c_buffers (is_data s)))
    by (eapply Forall_impl; [|exact Hb]; cbn; tauto).
  repeat split; auto; try lia.
  - destruct (c_buffers (is_data s)); [exact I|]. inversion H2; assumption.
  - cbn. destruct (c_buffers (is_data s)) as [|b rest]; [reflexivity|].
    inversion H2 as [|? ? Hf _]; subst. cbn. unfold buffer_fresh in Hf.
    now rewrite Hf.
Qed.

Lemma unread_after_rewind (s : input_stream) :
  exists tail, unread (input_curl_rewind s) = replayed s ++ tail.
Proof.
  unfold unread, unread_c, replayed, input_curl_rewind. cbn.
  rewrite map_app, concat_app, map_map.
  assert (Hm : concat (map (fun b => unread_of (reset_buffer b))
                         (c_rewind (is_data s)))
               = concat (map buf_data (c_rewind (is_data s)))).
  { reflexivity. }
  rewrite Hm. destruct (c_buffers (is_data s)) as [|b rest].
  - exists []. cbn. now rewrite !app_nil_r.
  - exists (skipn (buf_consumed b) (buf_data b) ++ concat (map unread_of rest)).
    cbn [read_part map concat]. rewrite <- app_assoc. f_equal.
    rewrite app_assoc. f_equal.
    change (unread_of (reset_buffer b)) with (buf_data b).
    symmetry. apply firstn_skipn.
Qed.

(** X8.  Rewinding, where the code still can.  A stream at offset 0 has
    been read by a sequence of [read] calls that returned N bytes in all, and
    [input_curl_can_rewind] still holds.  Then [seek(0, SEEK_SET)] succeeds
    without any call to the engine; afterwards the offset is 0, the rewind
    list is empty, and the buffer list is the old rewind list followed by
    the old buffer list, with [consumed] reset to 0 in the rewind buffers
    and in the first buffer; and a [read] of N bytes returns, again without
    any call to the engine, the same bytes as the first reads. *)
Theorem rewind_replays_what_was_read :
  forall (e : engine) (s : input_stream) (sizes : list nat),
    at_start s ->
    input_curl_can_rewind (snd (run_reads e s sizes)) = true ->
    exists s2 s3,
      input_curl_seek (snd (fst (run_reads e s sizes)))
        (snd (run_reads e s sizes)) 0 SEEK_SET
      = Returns (snd (fst (run_reads e s sizes))) s2 true
      /\ is_offset s2 = 0
      /\ c_rewind (is_data s2) = []
      /\ c_buffers (is_data s2)
         = map reset_buffer (c_rewind (is_data (snd (run_reads e s sizes))))
           ++ match c_buffers (is_data (snd (run_reads e s sizes))) with
              | [] => []
              | b :: rest => reset_buffer b :: rest
              end
      /\ is_offset (snd (run_reads e s sizes))
         = Z.of_nat (length (concat (fst (fst (run_reads e s sizes)))))
      /\ input_curl_read (snd (fst (run_reads e s sizes))) s2
           (length (concat (fst (fst (run_reads e s sizes)))))
         = Returns (snd (fst (run_reads e s sizes))) s3
             (concat (fst (fst (run_reads e s sizes)))).
Proof.
  intros e s sizes Hstart Hcan.
  destruct (at_start_replayable s Hstart) as [Hwf Hrep].
  destruct (run_reads_history sizes e s [] Hwf Hrep) as (Hwf1 & Hrep1).
  destruct (run_reads e s sizes) as [[outs e1] s1]. cbn [fst snd app] in *.
  destruct Hrep1 as [[Hh Ho]|Hlost].
  2:{ apply rewind_lost_cannot_rewind in Hlost. congruence. }
  destruct Hwf1 as (Hok & Hfresh & Hfull & Hpos).
  (* the stream after the seek, whichever branch is taken *)
  assert (Hseek : input_curl_seek e1 s1 0 SEEK_SET
                  = Returns e1 (input_curl_rewind s1) true).
  { unfold input_curl_seek. cbn [Z.eqb SEEK_SET andb]. rewrite Hcan.
    destruct (Z.eqb_spec (is_offset s1) 0) as [Hz|_]; [|reflexivity].
    f_equal. (* no-op: rewinding would change nothing *)
    assert (Hnil : replayed s1 = []).
    { rewrite Hh. destruct (concat outs); [reflexivity|].
      cbn in Ho. lia. }
    unfold replayed in Hnil. apply app_eq_nil in Hnil.
    destruct Hnil as [Hrw Hrp].
    assert (Hrw' : c_rewind (is_data s1) = []).
    { destruct (c_rewind (is_data s1)) as [|r0 rw]; [reflexivity|].
      pose proof (full_data_length _ Hfull) as Hp. rewrite Hrw in Hp.
      cbn in Hp. assert (0 < 0)%nat by (apply Hp; discriminate). lia. }
    pose proof (read_part_length _ Hok) as Hl. rewrite Hrp in Hl.
    unfold input_curl_rewind. rewrite Hrw', <- Hz. cbn [map app].
    destruct s1 as [c o sz sk er rd mi mn]. destruct c as [u r h bufs bd ef rw].
    cbn in *. subst rw. do 2 f_equal.
    destruct bufs as [|b rest]; [reflexivity|]. cbn in Hl.
    destruct b as [d k]. cbn in *. subst k. reflexivity. }
  exists (input_curl_rewind s1).
  destruct (unread_after_rewind s1) as (tail & Htail).
  assert (Hne : is_empty (c_buffers (is_data (input_curl_rewind s1))) = false).
  { unfold input_curl_can_rewind in Hcan. cbn.
    destruct (c_rewind (is_data s1)); cbn in *; [|reflexivity].
    destruct (c_buffers (is_data s1)); [discriminate|reflexivity]. }
  eexists. split; [exact Hseek|]. repeat split; auto.
  rewrite input_curl_read_ready by (rewrite Hne; apply andb_false_r).
  f_equal. rewrite Htail, Hh, firstn_app, firstn_all, Nat.sub_diag.
  cbn. apply app_nil_r.
Qed.

Lemma rewind_replays_what_was_read_witness :
  let o1 := input_curl_open true chunked_engine plain_url in
  let r := run_reads (out_engine o1) (out_stream o1) [4; 2]%nat in
  concat (fst (fst r)) = bytes "abcdef"
  /\ exists s2 s3,
       input_curl_seek (snd (fst r)) (snd r) 0 SEEK_SET
       = Returns (snd (fst r)) s2 true
       /\ is_offset s2 = 0
       /\ c_rewind (is_data s2) = []
       /\ c_buffers (is_data s2)
          = map reset_buffer (c_rewind (is_data (snd r)))
            ++ match c_buffers (is_data (snd r)) with
               | [] => []
               | b :: rest => reset_buffer b :: rest
               end
       /\ is_offset (snd r) = Z.of_nat (length (concat (fst (fst r))))
       /\ input_curl_read (snd (fst r)) s2 (length (concat (fst (fst r))))
          = Returns (snd (fst r)) s3 (concat (fst (fst r))).
Proof.
  cbv zeta. split; [vm_compute; reflexivity|].
  apply (rewind_replays_what_was_read
           (out_engine (input_curl_open true chunked_engine plain_url))
           (out_stream (input_curl_open true chunked_engine plain_url))
           [4; 2]%nat).
  - vm_compute. repeat split. constructor.
  - vm_compute. reflexivity.
Defined.

(** C3, at the failing input.  The body arrives in the chunks "abc" and
    "defgh"; [read(2)] and [read(1)] return "ab" and "c", 3 bytes read
    contiguously from offset 0.  The second call finds the rewind list
    empty away from offset 0, takes the rewind buffers for dropped and
    frees the first chunk when it is used up.  [input_curl_can_rewind] is
    then false: [seek(0, SEEK_SET)] fails on the stream that is not
    seekable, and on the seekable one it starts a new request. *)
Lemma rewind_lost_when_first_chunk_read_in_two_calls :
  let o1 := input_curl_open true chunked_engine plain_url in
  let r := run_reads (out_engine o1) (out_stream o1) [2; 1]%nat in
  let o2 := input_curl_open true seekable_engine plain_url in
  let r2 := run_reads (out_engine o2) (out_stream o2) [2; 1]%nat in
  let o3 := input_curl_seek (snd (fst r2)) (snd r2) 0 SEEK_SET in
  fst (fst r) = [bytes "ab"; bytes "c"]
  /\ is_offset (snd r) = 3
  /\ c_rewind (is_data (snd r)) = []
  /\ input_curl_can_rewind (snd r) = false
  /\ out_value (input_curl_seek (snd (fst r)) (snd r) 0 SEEK_SET)
     = Some false
  /\ fst (fst r2) = [bytes "ab"; bytes "c"]
  /\ is_seekable (snd r2) = true
  /\ input_curl_can_rewind (snd r2) = false
  /\ out_value o3 = Some true
  /\ length (inits (snd (fst r2))) = 1%nat
  /\ inits (out_engine o3) = [].
Proof. vm_compute. repeat split. Qed.

(** ** The limit of the rewind list *)

(** [read] keeps the rewind list within [max_rewind_size]: on a
    well-formed stream that can be rewound or has lost its record, a
    rewind list within the limit is within the limit after the call,
    however the call ends. *)
Lemma read_keeps_rewind_within_limit (e : engine) (s : input_stream)
  (n : nat) :
  wf_stream s ->
  (exists hist, replayable s hist) \/ rewind_lost s ->
  rewind_total s <= max_rewind_size ->
  rewind_total (out_stream (input_curl_read e s n)) <= max_rewind_size.
Proof.
  intros Hwf Hinv Hb.
  destruct (input_curl_read_history e s n Hwf) as (_ & _ & _ & H).
  now apply H.
Qed.

(** C2, at the failing input.  After [open] the five chunks are queued at
    offset 0.  [seek(81920, SEEK_SET)] fast-forwards through them without
    calling the engine and succeeds; all five chunks are then on the
    rewind list, 81920 bytes, more than [max_rewind_size]: the loop of
    [input_curl_seek] appends to the rewind list as [input_curl_read]
    does, but lacks its check against the limit. *)
Lemma seek_fast_forward_exceeds_rewind_limit :
  let o1 := input_curl_open true burst_engine plain_url in
  let o2 := input_curl_seek (out_engine o1) (out_stream o1) 81920 SEEK_SET in
  out_value o1 = Some true
  /\ rewind_total (out_stream o1) = 0
  /\ length (c_buffers (is_data (out_stream o1))) = 5%nat
  /\ out_value o2 = Some true
  /\ performs (out_engine o2) = performs (out_engine o1)
  /\ inits (out_engine o2) = inits (out_engine o1)
  /\ is_offset (out_stream o2) = 81920
  /\ length (c_rewind (is_data (out_stream o2))) = 5%nat
  /\ rewind_total (out_stream o2) = 81920
  /\ max_rewind_size < rewind_total (out_stream o2).
Proof. vm_compute. repeat split. Qed.

(** ** Well-formedness is kept by every operation *)

Lemma fast_forward_wf (fuel : nat) (offset : Z) (s : input_stream) :
  wf_stream s -> wf_stream (fast_forward fuel offset s).
Proof.
  revert s. induction fuel as [|fuel IH]; intros s Hwf.
  - cbn. destruct ((is_offset s <? offset) && _); exact Hwf.
  - rewrite fast_forward_step.
    destruct (Z.ltb_spec (is_offset s) offset) as [Hlt|_]; [|exact Hwf].
    destruct (c_buffers (is_data s)) as [|b rest] eqn:Hb; [exact Hwf|].
    cbn [is_empty negb andb]. cbv zeta. apply IH.
    destruct Hwf as (Hok & Hfresh & Hfull & Hpos). rewrite Hb in Hok, Hfresh.
    inversion Hok as [|? ? Hb0 Hrest]; subst. cbn in Hfresh.
    unfold buffer_ok in Hb0.
    set (len := if offset - is_offset s
                   <? Z.of_nat (buf_size b - buf_consumed b)
                then Z.to_nat (offset - is_offset s)
                else (buf_size b - buf_consumed b)%nat).
    assert (Hlen : (0 < len <= buf_size b - buf_consumed b)%nat).
    { subst len. destruct (Z.ltb_spec (offset - is_offset s)
                             (Z.of_nat (buf_size b - buf_consumed b))); lia. }
    unfold wf_stream, on_data, consume_buffer. rewrite Hb.
    change (buf_size (mk_buffer (buf_data b) ?k)) with (buf_size b).
    cbn [buf_consumed].
    destruct (Nat.ltb_spec (buf_consumed b + len) (buf_size b)).
    + assert (Hhead : Forall buffer_ok
                        (mk_buffer (buf_data b) (buf_consumed b + len)
                         :: rest)).
      { constructor; [|exact Hrest].
        unfold buffer_ok, buf_size in *. cbn. lia. }
      cbn. repeat split; auto; try lia.
    + assert (Htail : tail_fresh rest).
      { destruct rest as [|b2 rest2]; [exact I|].
        inversion Hfresh; assumption. }
      assert (Hnew : Forall buffer_full
                       (c_rewind (is_data s)
                        ++ [mk_buffer (buf_data b) (buf_consumed b + len)])).
      { apply Forall_app. split; [exact Hfull|].
        constructor; [|constructor].
        unfold buffer_full, buf_size in *. cbn. lia. }
      destruct (rewind_head s); cbn; repeat split; auto; try lia.
Qed.

Lemma input_curl_rewind_wf (s : input_stream) :
  wf_stream s -> wf_stream (input_curl_rewind s).
Proof.
  intros (Hok & Hfresh & Hfull & Hpos). unfold wf_stream, input_curl_rewind.
  cbn.
  assert (H1 : Forall (fun b => buffer_ok b /\ buffer_fresh b)
                 (map reset_buffer (c_rewind (is_data s)))).
  { apply Forall_map. eapply Forall_impl; [|exact Hfull].
    intros b [_ Hb]. unfold buffer_ok, buffer_fresh, buf_size in *. cbn.
    auto. }
  assert (H2 : Forall (fun b => buffer_ok b /\ buffer_fresh b)
                 match c_buffers (is_data s) with
                 | [] => []
                 | b :: rest => reset_buffer b :: rest
                 end).
  { destruct (c_buffers (is_data s)) as [|b rest]; [constructor|].
    inversion Hok as [|? ? Hb Hrest]; subst. cbn in Hfresh.
    constructor.
    - unfold buffer_ok, buffer_fresh, buf_size in *. cbn. split; [lia|auto].
    - apply Forall_forall. intros x Hx.
      rewrite Forall_forall in Hrest, Hfresh. auto. }
  pose proof (proj2 (Forall_app _ _ _) (conj H1 H2)) as H.
  repeat split; try constructor; try lia.
  - eapply Forall_impl; [|exact H]. cbn. tauto.
  - destruct (_ ++ _) as [|x l]; [exact I|]. inversion H; subst.
    eapply Forall_impl; [|eassumption]. cbn. tauto.
Qed.

Lemma perform_loop_wf (again : Z -> input_stream -> bool) (fuel : nat)
  (e : engine) (s : input_stream) :
  wf_stream s -> wf_stream (out_stream (perform_loop again fuel e s)).
Proof.
  destruct (perform_loop_core again fuel e s) as (used & _ & Hfed & _).
  cbv zeta in Hfed. apply fed_replayable in Hfed. tauto.
Qed.

(** [read], [seek] and [buffer] keep a stream well-formed, and [open]
    makes one: the [assert]s of [consume_buffer] and [read_from_buffer]
    never fail. *)
Theorem operations_keep_wf :
  (forall multi_ok e url,
      wf_stream (out_stream (input_curl_open multi_ok e url)))
  /\ (forall e s n, wf_stream s ->
                    wf_stream (out_stream (input_curl_read e s n)))
  /\ (forall e s, wf_stream s ->
                  wf_stream (out_stream (input_curl_buffer e s)))
  /\ (forall e s offset whence,
         wf_stream s ->
         wf_stream (out_stream (input_curl_seek e s offset whence))).
Proof.
  assert (Hempty : forall s, c_buffers (is_data s) = [] ->
                             c_rewind (is_data s) = [] ->
                             0 <= is_offset s -> wf_stream s).
  { intros s Hb Hr Ho. unfold wf_stream. rewrite Hb, Hr.
    repeat split; auto; constructor. }
  assert (Hinfo : forall e s, wf_stream s ->
             wf_stream (snd (fst (input_curl_multi_info_read e s)))).
  { intros e s Hwf.
    destruct (input_curl_multi_info_read e s) as [[e1 s1] ret] eqn:Hi.
    apply info_read_core in Hi. destruct Hi as (_ & _ & _ & Hfed & _).
    apply fed_replayable in Hfed. cbn. tauto. }
  assert (Hsend : forall e s, wf_stream s ->
             wf_stream (out_stream (input_curl_send_request e s))).
  { intros e s Hwf. unfold input_curl_send_request.
    pose proof (perform_loop_wf
                  (fun mcode _ => mcode =? CURLM_CALL_MULTI_PERFORM)
                  (length (performs e)) e s Hwf) as H.
    destruct (perform_loop _ _ e s); exact H. }
  assert (Hinit : forall e s e1 s1 ret,
             input_curl_easy_init e s = Some (e1, s1, ret) ->
             wf_stream s -> wf_stream s1).
  { intros e s e1 s1 ret Hi Hwf. apply easy_init_core in Hi.
    destruct Hi as (r & _ & _ & _ & _ & _ & Hs). subst s1. exact Hwf. }
  split; [|split; [|split]].
  - intros multi_ok e url. unfold input_curl_open.
    assert (Hnew : wf_stream (new_stream url))
      by (apply Hempty; cbn; auto; lia).
    destruct (negb (has_http_prefix url)); [exact Hnew|].
    destruct (negb multi_ok); [exact Hnew|].
    destruct (input_curl_easy_init e (new_stream url))
      as [[[e1 s1] ret]|] eqn:Hi; [|exact Hnew].
    pose proof (Hinit _ _ _ _ _ Hi Hnew) as Hs1.
    destruct ret.
    + pose proof (Hsend e1 s1 Hs1) as H.
      destruct (input_curl_send_request e1 s1) as [e2 s2 [|]|e2 s2];
        cbn in *; auto.
      apply Hempty; cbn; auto. apply H.
    + cbn. apply Hempty; cbn; auto. apply Hs1.
  - intros e s n Hwf. apply (input_curl_read_history e s n Hwf).
  - intros e s Hwf. unfold input_curl_buffer.
    pose proof (perform_loop_wf
                  (fun mcode s1 => (mcode =? CURLM_CALL_MULTI_PERFORM)
                                   && is_empty (c_buffers (is_data s1)))
                  (length (performs e)) e
                  (on_data (set_c_buffered false) s) Hwf) as H.
    destruct (perform_loop _ _ e _) as [e1 s1 mcode|e1 s1]; [|exact H].
    cbn in H.
    destruct (negb (mcode =? CURLM_OK)
              && negb (mcode =? CURLM_CALL_MULTI_PERFORM)); [exact H|].
    pose proof (Hinfo e1 s1 H) as H2.
    destruct (input_curl_multi_info_read e1 s1) as [[e2 s2] ret].
    destruct ret; exact H2.
  - intros e s offset whence Hwf. unfold input_curl_seek.
    destruct ((whence =? SEEK_SET) && (offset =? 0) && (is_offset s =? 0));
      [exact Hwf|].
    destruct ((whence =? SEEK_SET) && (offset =? 0)
              && input_curl_can_rewind s);
      [now apply input_curl_rewind_wf|].
    destruct (negb (is_seekable s)); [exact Hwf|].
    destruct (seek_target s offset whence) as [target|]; [|exact Hwf].
    destruct (Z.ltb_spec target 0); [exact Hwf|].
    pose proof (fast_forward_wf (length (c_buffers (is_data s))) target s Hwf)
      as Hff.
    set (s1 := fast_forward _ target s) in *.
    destruct (target =? is_offset s1); [exact Hff|].
    unfold seek_reconnect, input_curl_easy_free.
    match goal with
    | |- context [set_offset target (set_data ?c s1)] =>
        set (s2 := set_offset target (set_data c s1))
    end.
    assert (Hs2 : wf_stream s2) by (apply Hempty; cbn; auto).
    destruct (is_offset s2 =? is_size s2); [exact Hs2|].
    destruct (input_curl_easy_init _ s2) as [[[e2 s3] ret]|] eqn:Hi;
      [|exact Hs2].
    pose proof (Hinit _ _ _ _ _ Hi Hs2) as Hs3.
    destruct ret; [|exact Hs3].
    match goal with
    | |- context [input_curl_send_request e2 ?s] => set (s4 := s)
    end.
    assert (Hs4 : wf_stream s4) by (subst s4; destruct (0 <? _); exact Hs3).
    pose proof (Hsend e2 s4 Hs4) as H5.
    destruct (input_curl_send_request e2 s4) as [e3 s5 [|]|e3 s5];
      cbn in H5; auto.
    pose proof (Hinfo e3 s5 H5) as H6.
    destruct (input_curl_multi_info_read e3 s5) as [[e4 s6] ret]. exact H6.
Qed.

(** ** Fuel and the loops *)

(** The fast-forward loop is left with its condition false: the number of
    buffers is fuel enough. *)
Lemma fast_forward_exit (fuel : nat) (offset : Z) (s : input_stream) :
  (length (c_buffers (is_data s)) <= fuel)%nat ->
  (is_offset (fast_forward fuel offset s) <? offset)
  && negb (is_empty (c_buffers (is_data (fast_forward fuel offset s))))
  = false.
Proof.
  revert s. induction fuel as [|fuel IH]; intros s Hlen.
  - destruct (c_buffers (is_data s)) eqn:Hb; [|cbn in Hlen; lia].
    cbn. rewrite Hb. cbn. rewrite andb_false_r, Hb. apply andb_false_r.
  - rewrite fast_forward_step.
    destruct ((is_offset s <? offset)
              && negb (is_empty (c_buffers (is_data s)))) eqn:Hc;
      [|exact Hc].
    apply andb_true_iff in Hc. destruct Hc as [Hlt Hne].
    apply Z.ltb_lt in Hlt.
    destruct (c_buffers (is_data s)) as [|b rest] eqn:Hb; [discriminate|].
    cbv zeta.
    set (len := if offset - is_offset s
                   <? Z.of_nat (buf_size b - buf_consumed b)
                then Z.to_nat (offset - is_offset s)
                else (buf_size b - buf_consumed b)%nat).
    set (s1 := on_data (consume_buffer len (rewind_head s)) s).
    assert (Hs1 : is_offset s1 = is_offset s) by reflexivity.
    assert (Hcase :
      (c_buffers (is_data s1) = rest)
      \/ (is_offset s + Z.of_nat len = offset)).
    { subst s1 len. unfold on_data, consume_buffer. rewrite Hb.
      change (buf_size (mk_buffer (buf_data b) ?k)) with (buf_size b).
      cbn [buf_consumed].
      destruct (Z.ltb_spec (offset - is_offset s)
                  (Z.of_nat (buf_size b - buf_consumed b))).
      - right. lia.
      - left. destruct (Nat.ltb_spec
                          (buf_consumed b + (buf_size b - buf_consumed b))
                          (buf_size b)); [lia|].
        destruct (rewind_head s); reflexivity. }
    destruct Hcase as [Hrest|Hreach].
    + apply IH. cbn [is_data set_offset]. rewrite Hrest. cbn in Hlen. lia.
    + rewrite fast_forward_reached by (cbn; lia).
      cbn [is_offset set_offset]. rewrite Hs1.
      destruct (Z.ltb_spec (is_offset s + Z.of_nat len) offset); [lia|].
      reflexivity.
Qed.

(** A perform loop run with more fuel than there are replies ends as with
    exactly that much. *)
Lemma perform_loop_fuel (again : Z -> input_stream -> bool) (fuel : nat)
  (e : engine) (s : input_stream) :
  (length (performs e) <= fuel)%nat ->
  perform_loop again fuel e s
  = perform_loop again (length (performs e)) e s.
Proof.
  revert e s. induction fuel as [|fuel IH]; intros e s Hlen.
  - destruct (performs e) eqn:Hp; [reflexivity|cbn in Hlen; lia].
  - cbn [perform_loop]. unfold curl_multi_perform.
    destruct (performs e) as [|p rest] eqn:Hp; [reflexivity|].
    cbn [length perform_loop]. unfold curl_multi_perform. rewrite Hp.
    destruct (again _ _); [|reflexivity].
    apply IH. cbn in *. lia.
Qed.


(** ** The fast-forward loop, step by step *)

Lemma fast_forward_unfold (fuel : nat) (offset : Z) (s : input_stream) :
  fast_forward (S fuel) offset s =
  if (is_offset s <? offset) && negb (is_empty (c_buffers (is_data s))) then
    match c_buffers (is_data s) with
    | b :: _ => fast_forward fuel offset (ff_step offset b s)
    | [] => s
    end
  else s.
Proof. reflexivity. Qed.

(** One iteration either stops inside the first buffer, at the offset
    asked for, or uses the buffer up. *)
Lemma ff_step_cases (offset : Z) (b : buffer) (rest : list buffer)
  (s : input_stream) :
  c_buffers (is_data s) = b :: rest -> is_offset s < offset ->
  (offset - is_offset s < Z.of_nat (buf_size b - buf_consumed b)
   /\ c_buffers (is_data (ff_step offset b s))
      = mk_buffer (buf_data b)
          (buf_consumed b + Z.to_nat (offset - is_offset s)) :: rest
   /\ c_rewind (is_data (ff_step offset b s)) = c_rewind (is_data s)
   /\ is_offset (ff_step offset b s) = offset)
  \/ (Z.of_nat (buf_size b - buf_consumed b) <= offset - is_offset s
      /\ c_buffers (is_data (ff_step offset b s)) = rest
      /\ c_rewind (is_data (ff_step offset b s))
         = (if rewind_head s
            then c_rewind (is_data s)
                 ++ [mk_buffer (buf_data b)
                       (buf_consumed b + (buf_size b - buf_consumed b))]
            else c_rewind (is_data s))
      /\ is_offset (ff_step offset b s)
         = is_offset s + Z.of_nat (buf_size b - buf_consumed b)).
Proof.
  intros Hb Hlt. unfold ff_step, on_data, consume_buffer. rewrite Hb.
  change (buf_size (mk_buffer (buf_data b) ?k)) with (buf_size b).
  cbn [buf_consumed].
  destruct (Z.ltb_spec (offset - is_offset s)
              (Z.of_nat (buf_size b - buf_consumed b))) as [Hin|Hout].
  - left. split; [exact Hin|].
    destruct (Nat.ltb_spec (buf_consumed b + Z.to_nat (offset - is_offset s))
                (buf_size b)); [|lia].
    cbn. repeat split; auto. lia.
  - right. split; [exact Hout|].
    destruct (Nat.ltb_spec (buf_consumed b + (buf_size b - buf_consumed b))
                (buf_size b)); [lia|].
    destruct (rewind_head s); cbn; auto.
Qed.

(** The other fields are not touched. *)
Lemma ff_step_fields (offset : Z) (b : buffer) (s : input_stream) :
  is_size (ff_step offset b s) = is_size s
  /\ is_seekable (ff_step offset b s) = is_seekable s
  /\ is_error (ff_step offset b s) = is_error s
  /\ c_eof (is_data (ff_step offset b s)) = c_eof (is_data s).
Proof.
  unfold ff_step, on_data, consume_buffer. cbn.
  destruct (c_buffers (is_data s)); [auto|].
  repeat match goal with
         | |- context [if ?x then _ else _] => destruct x
         end; auto.
Qed.

(** The fast-forward loop skips unread bytes: as many as asked for, or all
    that are queued. *)
Lemma fast_forward_unread (fuel : nat) (offset : Z) (s : input_stream) :
  (length (c_buffers (is_data s)) <= fuel)%nat ->
  is_offset s <= offset ->
  unread (fast_forward fuel offset s)
  = skipn (Z.to_nat (offset - is_offset s)) (unread s)
  /\ is_offset (fast_forward fuel offset s)
     = is_offset s
       + Z.min (offset - is_offset s) (Z.of_nat (length (unread s))).
Proof.
  revert s. induction fuel as [|fuel IH]; intros s Hlen Hle.
  - destruct (c_buffers (is_data s)) eqn:Hb; [|cbn in Hlen; lia].
    assert (Hs : fast_forward 0 offset s = s).
    { cbn. rewrite Hb. cbn. now rewrite andb_false_r. }
    rewrite Hs. unfold unread, unread_c. rewrite Hb. cbn.
    rewrite skipn_nil. split; [reflexivity|lia].
  - rewrite fast_forward_unfold.
    destruct (Z.ltb_spec (is_offset s) offset) as [Hlt|Hge].
    2:{ cbn [andb]. replace (offset - is_offset s) with 0 by lia.
        cbn. split; [reflexivity|lia]. }
    destruct (c_buffers (is_data s)) as [|b rest] eqn:Hb.
    { cbn. unfold unread, unread_c. rewrite Hb. cbn. rewrite skipn_nil.
      split; [reflexivity|lia]. }
    cbn [is_empty negb andb].
    pose proof (unread_of_length b) as Hul.
    assert (Hun : unread s = unread_of b ++ concat (map unread_of rest))
      by (unfold unread, unread_c; now rewrite Hb).
    destruct (ff_step_cases offset b rest s Hb Hlt)
      as [(Hin & B & R & O)|(Hout & B & R & O)].
    + rewrite fast_forward_reached by lia.
      assert (Hun' : unread (ff_step offset b s)
                     = skipn (Z.to_nat (offset - is_offset s)) (unread_of b)
                       ++ concat (map unread_of rest)).
      { unfold unread, unread_c. rewrite B. cbn [map concat].
        now rewrite unread_of_advance. }
      split.
      * rewrite Hun', Hun, skipn_app. f_equal.
        replace (Z.to_nat (offset - is_offset s) - length (unread_of b))%nat
          with 0%nat by lia.
        reflexivity.
      * rewrite O, Hun, length_app. lia.
    + assert (Hun' : unread (ff_step offset b s)
                     = concat (map unread_of rest)).
      { unfold unread, unread_c. now rewrite B. }
      destruct (IH (ff_step offset b s)) as [IH1 IH2].
      * rewrite B. cbn in Hlen. lia.
      * lia.
      * rewrite IH1, IH2, Hun', Hun, O, skipn_app, length_app.
        rewrite (skipn_all2 (unread_of b)) by lia.
        split.
        -- cbn [app]. f_equal. lia.
        -- lia.
Qed.

(** ** The record of what has been read, through every operation *)

Lemma fresh_head (l : list buffer) :
  Forall buffer_fresh l -> read_part l = [] /\ head_consumed l = O.
Proof.
  destruct l as [|b l]; [auto|]. intros H.
  inversion H as [|? ? Hb _]; subst. unfold buffer_fresh in Hb. cbn.
  now rewrite Hb.
Qed.

Lemma ff_step_inv (offset : Z) (b : buffer) (rest : list buffer)
  (s : input_stream) :
  c_buffers (is_data s) = b :: rest -> is_offset s < offset ->
  stream_inv s -> stream_inv (ff_step offset b s).
Proof.
  intros Hb Hlt ((Hok & Hfresh & Hfull & Hpos) & Hrec).
  rewrite Hb in Hok, Hfresh. cbn in Hfresh.
  inversion Hok as [|? ? Hb0 Hrest]; subst. unfold buffer_ok in Hb0.
  destruct (fresh_head rest Hfresh) as [Hrp Hhc].
  assert (Htail : tail_fresh rest).
  { destruct rest as [|b2 rest2]; [exact I|]. inversion Hfresh; assumption. }
  unfold stream_inv, wf_stream, replayable, rewind_lost, replayed in *.
  rewrite Hb in Hrec. cbn [read_part head_consumed] in Hrec.
  destruct (ff_step_cases offset b rest s Hb Hlt)
    as [(Hin & B & R & O)|(Hout & B & R & O)]; rewrite B, R, O.
  - (* the offset is reached inside the first buffer *)
    split.
    + repeat split; auto; try lia.
      constructor; [|exact Hrest]. unfold buffer_ok, buf_size in *. cbn. lia.
    + cbn [read_part head_consumed buf_consumed buf_data].
      destruct Hrec as [[hist [Hh Ho]]|[Hr Hl]].
      * left.
        exists (hist ++ firstn (Z.to_nat (offset - is_offset s))
                         (skipn (buf_consumed b) (buf_data b))).
        split.
        -- rewrite firstn_plus, app_assoc, Hh. reflexivity.
        -- rewrite length_app, length_firstn, length_skipn.
           unfold buf_size in *. lia.
      * right. split; [exact Hr|]. lia.
  - (* the first buffer is used up *)
    assert (Hb' : buffer_full
                    (mk_buffer (buf_data b)
                       (buf_consumed b + (buf_size b - buf_consumed b)))).
    { unfold buffer_full, buf_size in *. cbn. lia. }
    unfold rewind_head.
    destruct (c_rewind (is_data s)) as [|r0 rw] eqn:Hrw;
      cbn [is_empty negb orb].
    + destruct (Z.eqb_spec (is_offset s) 0) as [Hz|Hnz].
      * split; [repeat split; auto; try lia; repeat constructor; apply Hb'|].
        destruct Hrec as [[hist [Hh Ho]]|[_ Hl]]; [|lia].
        left. exists (buf_data b). cbn [app map concat].
        rewrite Hrp, !app_nil_r. split; [reflexivity|].
        cbn in Hh. rewrite <- Hh in Ho. rewrite length_firstn in Ho.
        unfold buf_size in *. lia.
      * split; [repeat split; auto; lia|].
        right. split; [reflexivity|]. rewrite Hhc. lia.
    + split.
      * repeat split; auto; try lia.
        apply Forall_app. split; [exact Hfull|]. repeat constructor; apply Hb'.
      * destruct Hrec as [[hist [Hh Ho]]|[Hr _]]; [|discriminate].
        left. exists (hist ++ skipn (buf_consumed b) (buf_data b)).
        split.
        -- rewrite map_app, concat_app, Hrp, app_nil_r.
           change (concat (map buf_data
                     [mk_buffer (buf_data b)
                        (buf_consumed b + (buf_size b - buf_consumed b))]))
             with (buf_data b ++ []).
           rewrite app_nil_r, <- Hh, <- app_assoc. f_equal.
           symmetry. apply firstn_skipn.
        -- rewrite length_app, length_skipn. unfold buf_size in *. lia.
Qed.

Lemma fast_forward_inv (fuel : nat) (offset : Z) (s : input_stream) :
  stream_inv s -> stream_inv (fast_forward fuel offset s).
Proof.
  revert s. induction fuel as [|fuel IH]; intros s Hinv.
  - cbn. destruct ((is_offset s <? offset) && _); exact Hinv.
  - rewrite fast_forward_unfold.
    destruct (Z.ltb_spec (is_offset s) offset) as [Hlt|_]; [|exact Hinv].
    destruct (c_buffers (is_data s)) as [|b rest] eqn:Hb; [exact Hinv|].
    cbn [is_empty negb andb]. apply IH.
    now apply (ff_step_inv offset b rest s Hb Hlt).
Qed.

Lemma empty_lists_inv (s : input_stream) :
  c_buffers (is_data s) = [] -> c_rewind (is_data s) = [] ->
  0 <= is_offset s -> stream_inv s.
Proof.
  intros Hb Hr Ho. unfold stream_inv, wf_stream, replayable, rewind_lost,
    replayed. rewrite Hb, Hr. split; [repeat split; auto; constructor|].
  destruct (Z.eqb_spec (is_offset s) 0) as [Hz|Hnz].
  - left. exists []. cbn. split; [reflexivity|lia].
  - right. cbn. split; [reflexivity|lia].
Qed.

Lemma fed_inv (used : list perform_reply) (s s' : input_stream) :
  fed used s s' -> stream_inv s -> stream_inv s'.
Proof.
  intros Hfed [Hwf Hrec]. apply fed_replayable in Hfed.
  destruct Hfed as (F1 & F2 & F3 & _). split; [auto|].
  destruct Hrec as [[hist Hh]|Hl]; [left; exists hist|right]; auto.
Qed.

Lemma rewind_inv (s : input_stream) :
  stream_inv s -> stream_inv (input_curl_rewind s).
Proof.
  intros [Hwf _]. split; [now apply input_curl_rewind_wf|].
  left. exists [].
  pose proof (input_curl_rewind_wf s Hwf) as (Hok & _).
  unfold replayable, replayed. cbn [input_curl_rewind is_data is_offset
    set_offset set_data c_rewind set_c_rewind set_c_buffers c_buffers] in *.
  cbn [map concat app length]. split; [|reflexivity].
  destruct (c_rewind (is_data s)) as [|r0 rw]; cbn.
  - destruct (c_buffers (is_data s)); reflexivity.
  - reflexivity.
Qed.

(** Every operation keeps the invariant. *)
Lemma read_inv (e : engine) (s : input_stream) (n : nat) :
  stream_inv s -> stream_inv (out_stream (input_curl_read e s n)).
Proof.
  intros [Hwf Hrec].
  destruct (input_curl_read_history e s n Hwf) as (W & R & L & _).
  cbv zeta in *. split; [exact W|].
  destruct Hrec as [[hist Hh]|Hl]; [|right; auto].
  destruct (R hist Hh) as [Hr|Hl]; [left; eauto|right; auto].
Qed.

Lemma info_read_inv (e : engine) (s : input_stream) :
  stream_inv s ->
  stream_inv (snd (fst (input_curl_multi_info_read e s))).
Proof.
  intros Hinv.
  destruct (input_curl_multi_info_read e s) as [[e1 s1] ret] eqn:Hi.
  apply info_read_core in Hi. destruct Hi as (_ & _ & _ & Hfed & _).
  cbn. eapply fed_inv; eassumption.
Qed.

Lemma perform_loop_inv (again : Z -> input_stream -> bool) (fuel : nat)
  (e : engine) (s : input_stream) :
  stream_inv s -> stream_inv (out_stream (perform_loop again fuel e s)).
Proof.
  destruct (perform_loop_core again fuel e s) as (used & _ & Hfed & _).
  cbv zeta in Hfed. now apply fed_inv with (used := used).
Qed.

Lemma buffer_inv (e : engine) (s : input_stream) :
  stream_inv s -> stream_inv (out_stream (input_curl_buffer e s)).
Proof.
  intros Hinv. unfold input_curl_buffer.
  pose proof (perform_loop_inv
                (fun mcode s1 => (mcode =? CURLM_CALL_MULTI_PERFORM)
                                 && is_empty (c_buffers (is_data s1)))
                (length (performs e)) e
                (on_data (set_c_buffered false) s) Hinv) as H.
  destruct (perform_loop _ _ e _) as [e1 s1 mcode|e1 s1]; [|exact H].
  cbn in H.
  destruct (negb (mcode =? CURLM_OK)
            && negb (mcode =? CURLM_CALL_MULTI_PERFORM)); [exact H|].
  pose proof (info_read_inv e1 s1 H) as H2.
  destruct (input_curl_multi_info_read e1 s1) as [[e2 s2] ret].
  destruct ret; exact H2.
Qed.

Lemma send_request_inv (e : engine) (s : input_stream) :
  stream_inv s -> stream_inv (out_stream (input_curl_send_request e s)).
Proof.
  intros Hinv. unfold input_curl_send_request.
  pose proof (perform_loop_inv
                (fun mcode _ => mcode =? CURLM_CALL_MULTI_PERFORM)
                (length (performs e)) e s Hinv) as H.
  destruct (perform_loop _ _ e s); exact H.
Qed.

Lemma easy_init_inv (e e1 : engine) (s s1 : input_stream) (ret : bool) :
  input_curl_easy_init e s = Some (e1, s1, ret) ->
  stream_inv s -> stream_inv s1.
Proof.
  intros Hi Hinv. apply easy_init_core in Hi.
  destruct Hi as (r & _ & _ & _ & _ & _ & Hs). subst s1. exact Hinv.
Qed.

Lemma seek_inv (e : engine) (s : input_stream) (offset whence : Z) :
  stream_inv s ->
  stream_inv (out_stream (input_curl_seek e s offset whence)).
Proof.
  intros Hinv. unfold input_curl_seek.
  destruct ((whence =? SEEK_SET) && (offset =? 0) && (is_offset s =? 0));
    [exact Hinv|].
  destruct ((whence =? SEEK_SET) && (offset =? 0)
            && input_curl_can_rewind s); [now apply rewind_inv|].
  destruct (negb (is_seekable s)); [exact Hinv|].
  destruct (seek_target s offset whence) as [target|]; [|exact Hinv].
  destruct (Z.ltb_spec target 0); [exact Hinv|].
  pose proof (fast_forward_inv (length (c_buffers (is_data s))) target s Hinv)
    as Hff.
  set (s1 := fast_forward _ target s) in *.
  destruct (target =? is_offset s1); [exact Hff|].
  unfold seek_reconnect, input_curl_easy_free.
  match goal with
  | |- context [set_offset target (set_data ?c s1)] =>
      set (s2 := set_offset target (set_data c s1))
  end.
  assert (Hs2 : stream_inv s2) by (apply empty_lists_inv; cbn; auto).
  destruct (is_offset s2 =? is_size s2); [exact Hs2|].
  destruct (input_curl_easy_init _ s2) as [[[e2 s3] ret]|] eqn:Hi;
    [|exact Hs2].
  pose proof (easy_init_inv _ _ _ _ _ Hi Hs2) as Hs3.
  destruct ret; [|exact Hs3].
  match goal with
  | |- context [input_curl_send_request e2 ?s] => set (s4 := s)
  end.
  assert (Hs4 : stream_inv s4) by (subst s4; destruct (0 <? _); exact Hs3).
  pose proof (send_request_inv e2 s4 Hs4) as H5.
  destruct (input_curl_send_request e2 s4) as [e3 s5 [|]|e3 s5];
    cbn in H5; auto.
  pose proof (info_read_inv e3 s5 H5) as H6.
  destruct (input_curl_multi_info_read e3 s5) as [[e4 s6] ret]. exact H6.
Qed.

Lemma open_inv (multi_ok : bool) (e : engine) (url : list byte) :
  stream_inv (out_stream (input_curl_open multi_ok e url)).
Proof.
  unfold input_curl_open.
  assert (Hnew : stream_inv (new_stream url))
    by (apply empty_lists_inv; cbn; auto; lia).
  destruct (negb (has_http_prefix url)); [exact Hnew|].
  destruct (negb multi_ok); [exact Hnew|].
  destruct (input_curl_easy_init e (new_stream url))
    as [[[e1 s1] ret]|] eqn:Hi; [|exact Hnew].
  pose proof (easy_init_inv _ _ _ _ _ Hi Hnew) as Hs1.
  destruct ret.
  - pose proof (send_request_inv e1 s1 Hs1) as H.
    destruct (input_curl_send_request e1 s1) as [e2 s2 [|]|e2 s2];
      cbn in *; auto.
    apply empty_lists_inv; cbn; auto. apply H.
  - cbn. apply empty_lists_inv; cbn; auto. apply Hs1.
Qed.

Lemma run_operations_inv (ops : list operation) (e : engine)
  (s : input_stream) :
  stream_inv s -> stream_inv (snd (run_operations e s ops)).
Proof.
  revert e s. induction ops as [|op rest IH]; intros e s Hinv; [exact Hinv|].
  cbn [run_operations].
  assert (Hstep : stream_inv (snd (fst (run_operation e s op)))).
  { destruct op as [size| |offset whence]; cbn [run_operation].
    - pose proof (read_inv e s size Hinv) as H.
      destruct (input_curl_read e s size); exact H.
    - pose proof (buffer_inv e s Hinv) as H.
      destruct (input_curl_buffer e s); exact H.
    - pose proof (seek_inv e s offset whence Hinv) as H.
      destruct (input_curl_seek e s offset whence); exact H. }
  destruct (run_operation e s op) as [[e1 s1] returned]. cbn in Hstep.
  destruct returned; [now apply IH|exact Hstep].
Qed.

(** The pump leaves the rewind list and the offset alone. *)
Lemma buffer_keeps_rewind (e : engine) (s : input_stream) :
  rewind_total (out_stream (input_curl_buffer e s)) = rewind_total s.
Proof.
  unfold input_curl_buffer.
  destruct (perform_loop_core
              (fun mcode s1 => (mcode =? CURLM_CALL_MULTI_PERFORM)
                               && is_empty (c_buffers (is_data s1)))
              (length (performs e)) e (on_data (set_c_buffered false) s))
    as (used & _ & Hfed & _).
  cbv zeta in Hfed. apply fed_replayable in Hfed.
  destruct Hfed as (_ & _ & _ & Ht).
  change (rewind_total (on_data (set_c_buffered false) s))
    with (rewind_total s) in Ht.
  destruct (perform_loop _ _ e _) as [e1 s1 mcode|e1 s1];
    cbn [out_stream] in *; [|exact Ht].
  destruct (negb (mcode =? CURLM_OK)
            && negb (mcode =? CURLM_CALL_MULTI_PERFORM)); [exact Ht|].
  destruct (input_curl_multi_info_read e1 s1) as [[e2 s2] ret] eqn:Hi.
  apply info_read_core in Hi. destruct Hi as (_ & _ & _ & Hf2 & _).
  apply fed_replayable in Hf2. destruct Hf2 as (_ & _ & _ & Ht2).
  destruct ret; cbn [negb out_stream]; now rewrite Ht2.
Qed.

(** ** What holds on every run *)

(** X1.  After [open] and any sequence of [read], [buffer] and [seek]
    calls, the lists are well-formed: every queued buffer has
    [consumed < size] (the [assert]s of [consume_buffer] and
    [read_from_buffer]), only the first queued buffer is partly read, and
    every rewind buffer is used up. *)
Theorem asserts_hold_on_every_run :
  forall (multi_ok : bool) (e : engine) (url : list byte)
         (ops : list operation),
    wf_stream
      (snd (run_operations (out_engine (input_curl_open multi_ok e url))
              (out_stream (input_curl_open multi_ok e url)) ops)).
Proof.
  intros multi_ok e url ops.
  apply (run_operations_inv ops). apply open_inv.
Qed.

(** X2.  After [open] and any sequence of calls, whenever
    [input_curl_can_rewind] holds, the sum that the debug build of
    [input_curl_rewind] computes equals the offset: its
    [assert(offset == is->offset)] does not fail. *)
Theorem rewind_assert_holds_on_every_run :
  forall (multi_ok : bool) (e : engine) (url : list byte)
         (ops : list operation),
    input_curl_can_rewind
      (snd (run_operations (out_engine (input_curl_open multi_ok e url))
              (out_stream (input_curl_open multi_ok e url)) ops)) = true ->
    rewind_assert_offset
      (snd (run_operations (out_engine (input_curl_open multi_ok e url))
              (out_stream (input_curl_open multi_ok e url)) ops))
    = is_offset
        (snd (run_operations (out_engine (input_curl_open multi_ok e url))
                (out_stream (input_curl_open multi_ok e url)) ops)).
Proof.
  intros multi_ok e url ops Hcan.
  destruct (run_operations_inv ops
              (out_engine (input_curl_open multi_ok e url)) _
              (open_inv multi_ok e url))
    as [Hwf [[hist Hh]|Hl]].
  - exact (rewind_assert_holds _ hist Hwf Hh).
  - apply rewind_lost_cannot_rewind in Hl. congruence.
Qed.

Lemma rewind_assert_holds_on_every_run_witness :
  let o := input_curl_open true chunked_engine plain_url in
  let r := run_operations (out_engine o) (out_stream o)
             [OpRead 4; OpBuffer; OpRead 2] in
  rewind_assert_offset (snd r) = is_offset (snd r).
Proof.
  cbv zeta.
  apply (rewind_assert_holds_on_every_run true chunked_engine plain_url
           [OpRead 4; OpBuffer; OpRead 2]).
  vm_compute. reflexivity.
Defined.

(** X3.  After [open] and any sequence of [read] and [buffer] calls, the
    rewind list holds at most [max_rewind_size] bytes. *)
Theorem rewind_limit_without_seek :
  forall (multi_ok : bool) (e : engine) (url : list byte)
         (ops : list operation),
    Forall no_seek ops ->
    rewind_total
      (snd (run_operations (out_engine (input_curl_open multi_ok e url))
              (out_stream (input_curl_open multi_ok e url)) ops))
    <= max_rewind_size.
Proof.
  intros multi_ok e url ops Hops.
  assert (Hgen : forall ops e s,
             Forall no_seek ops -> stream_inv s ->
             rewind_total s <= max_rewind_size ->
             rewind_total (snd (run_operations e s ops)) <= max_rewind_size).
  { clear. induction ops as [|op rest IH]; intros e s Hops Hinv Hb;
      [exact Hb|].
    inversion Hops as [|? ? Hop Hrest]; subst. cbn [run_operations].
    assert (Hstep : stream_inv (snd (fst (run_operation e s op)))
                    /\ rewind_total (snd (fst (run_operation e s op)))
                       <= max_rewind_size).
    { destruct op as [size| |offset whence]; cbn [run_operation];
        [| |contradiction].
      - pose proof (read_inv e s size Hinv) as H.
        destruct Hinv as [Hwf Hrec].
        destruct (input_curl_read_history e s size Hwf) as (_ & _ & _ & L).
        cbv zeta in L. specialize (L Hrec Hb).
        destruct (input_curl_read e s size); auto.
      - pose proof (buffer_inv e s Hinv) as H.
        pose proof (buffer_keeps_rewind e s) as Ht.
        destruct (input_curl_buffer e s); cbn in *; rewrite Ht; auto. }
    destruct (run_operation e s op) as [[e1 s1] returned]. cbn in Hstep.
    destruct Hstep as [Hi1 Hb1].
    destruct returned; [now apply IH|exact Hb1]. }
  apply Hgen; [exact Hops|apply open_inv|].
  (* [open] leaves the rewind list empty *)
  unfold rewind_total.
  assert (Hrw : c_rewind (is_data (out_stream
                            (input_curl_open multi_ok e url))) = []).
  { unfold input_curl_open.
    destruct (negb (has_http_prefix url)); [reflexivity|].
    destruct (negb multi_ok); [reflexivity|].
    destruct (input_curl_easy_init e (new_stream url))
      as [[[e1 s1] ret]|] eqn:Hi; [|reflexivity].
    apply easy_init_core in Hi. destruct Hi as (r & _ & _ & _ & _ & _ & Hs).
    destruct ret; [|reflexivity].
    unfold input_curl_send_request.
    destruct (perform_loop_core
                (fun mcode _ => mcode =? CURLM_CALL_MULTI_PERFORM)
                (length (performs e1)) e1 s1) as (used & _ & Hfed & _).
    cbv zeta in Hfed. destruct Hfed as (_ & R & _).
    destruct (perform_loop _ _ e1 s1) as [e2 s2 mcode|e2 s2]; cbn in R |- *.
    - destruct (mcode =? CURLM_OK); cbn; [|reflexivity].
      rewrite R, Hs. reflexivity.
    - rewrite R, Hs. reflexivity. }
  rewrite Hrw. cbn. unfold max_rewind_size. lia.
Qed.

Lemma rewind_limit_without_seek_witness :
  let o := input_curl_open true burst_engine plain_url in
  rewind_total
    (snd (run_operations (out_engine o) (out_stream o)
            [OpRead (70 * 1000); OpBuffer; OpRead (20 * 1000)]))
  <= max_rewind_size.
Proof.
  cbv zeta.
  apply (rewind_limit_without_seek true burst_engine plain_url
           [OpRead (70 * 1000); OpBuffer; OpRead (20 * 1000)]).
  repeat constructor.
Defined.

(** ** Requests that [seek] refuses, settles in memory, or reconnects for *)

(** X4.  A seek whose [whence] is unknown, or [SEEK_END] with the size not
    known, or whose absolute offset is negative, returns false and changes
    neither the stream nor the engine. *)
Theorem seek_rejects_bad_request :
  forall (e : engine) (s : input_stream) (offset whence : Z),
    match seek_target s offset whence with
    | None => True
    | Some target => target < 0
    end ->
    input_curl_seek e s offset whence = Returns e s false.
Proof.
  intros e s offset whence H. unfold input_curl_seek.
  assert (Hshort : (whence =? SEEK_SET) && (offset =? 0) = false).
  { destruct (Z.eqb_spec whence SEEK_SET) as [Hw|_]; [|reflexivity].
    destruct (Z.eqb_spec offset 0) as [Ho|_]; [|reflexivity].
    subst. cbn in H. lia. }
  rewrite Hshort. cbn [andb].
  destruct (is_seekable s); cbn [negb]; [|reflexivity].
  destruct (seek_target s offset whence) as [target|]; [|reflexivity].
  destruct (Z.ltb_spec target 0); [reflexivity|lia].
Qed.

Lemma seek_rejects_bad_request_witness :
  input_curl_seek plain_engine sized_stream (-13) SEEK_END
  = Returns plain_engine sized_stream false
  /\ input_curl_seek plain_engine (new_stream plain_url) 0 SEEK_END
     = Returns plain_engine (new_stream plain_url) false.
Proof.
  split.
  - apply (seek_rejects_bad_request plain_engine sized_stream (-13) SEEK_END).
    cbn. lia.
  - apply (seek_rejects_bad_request plain_engine (new_stream plain_url)
             0 SEEK_END).
    exact I.
Defined.

(** X5.  On a stream that is not seekable, [seek] never calls the engine:
    it returns false and changes nothing, except for [SEEK_SET] to 0,
    which is a no-op at offset 0 and a rewind when
    [input_curl_can_rewind] holds. *)
Theorem seek_unseekable_stays_in_memory :
  forall (e : engine) (s : input_stream) (offset whence : Z),
    is_seekable s = false ->
    input_curl_seek e s offset whence =
    if (whence =? SEEK_SET) && (offset =? 0) then
      if is_offset s =? 0 then Returns e s true
      else if input_curl_can_rewind s
           then Returns e (input_curl_rewind s) true
           else Returns e s false
    else Returns e s false.
Proof.
  intros e s offset whence Hs. unfold input_curl_seek. rewrite Hs.
  destruct ((whence =? SEEK_SET) && (offset =? 0)); cbn [andb negb];
    [|reflexivity].
  destruct (is_offset s =? 0); [reflexivity|].
  destruct (input_curl_can_rewind s); reflexivity.
Qed.

Lemma seek_unseekable_stays_in_memory_witness :
  input_curl_seek plain_engine
    (set_offset 5 (new_stream plain_url)) 100 SEEK_SET
  = Returns plain_engine (set_offset 5 (new_stream plain_url)) false.
Proof.
  apply (seek_unseekable_stays_in_memory plain_engine
           (set_offset 5 (new_stream plain_url)) 100 SEEK_SET).
  reflexivity.
Defined.

Lemma unread_empty_queue (s : input_stream) :
  unread s <> [] -> is_empty (c_buffers (is_data s)) = false.
Proof.
  unfold unread, unread_c. destruct (c_buffers (is_data s)); [|reflexivity].
  cbn. congruence.
Qed.

(** X6.  A forward seek on a seekable stream to an offset within the
    queued data succeeds without calling the engine: the offset is the
    target, exactly the bytes in between are skipped, and if unread bytes
    are left the next [read] returns them from the target on, again
    without calling the engine. *)
Theorem seek_fast_forward_within_queue :
  forall (e : engine) (s : input_stream) (offset whence target : Z),
    is_seekable s = true ->
    0 <= is_offset s ->
    seek_target s offset whence = Some target ->
    is_offset s < target ->
    target - is_offset s <= Z.of_nat (length (unread s)) ->
    exists s',
      input_curl_seek e s offset whence = Returns e s' true
      /\ is_offset s' = target
      /\ unread s' = skipn (Z.to_nat (target - is_offset s)) (unread s)
      /\ (unread s' <> [] ->
          forall size,
            exists s'',
              input_curl_read e s' size
              = Returns e s''
                  (firstn size
                     (skipn (Z.to_nat (target - is_offset s)) (unread s)))).
Proof.
  intros e s offset whence target Hseek Hpos Ht Hlt Hin.
  unfold input_curl_seek.
  assert (Hshort : (whence =? SEEK_SET) && (offset =? 0) = false).
  { destruct (Z.eqb_spec whence SEEK_SET) as [Hw|_]; [|reflexivity].
    destruct (Z.eqb_spec offset 0) as [Ho|_]; [|reflexivity].
    subst. cbn in Ht. inversion Ht. lia. }
  rewrite Hshort, Hseek, Ht. cbn [andb negb].
  destruct (Z.ltb_spec target 0); [lia|].
  destruct (fast_forward_unread (length (c_buffers (is_data s))) target s)
    as [Hun Hoff]; [lia|lia|].
  set (s1 := fast_forward (length (c_buffers (is_data s))) target s) in *.
  rewrite Z.min_l in Hoff by lia.
  destruct (Z.eqb_spec target (is_offset s1)) as [_|Hne]; [|lia].
  exists s1. split; [reflexivity|]. split; [lia|]. split; [exact Hun|].
  intros Hleft size. eexists.
  rewrite input_curl_read_ready.
  - rewrite Hun. reflexivity.
  - rewrite (unread_empty_queue s1 Hleft). apply andb_false_r.
Qed.

Lemma seek_fast_forward_within_queue_witness :
  let o := input_curl_open true seekable_engine plain_url in
  let o1 := input_curl_buffer (out_engine o) (out_stream o) in
  exists s',
    input_curl_seek (out_engine o1) (out_stream o1) 5 SEEK_CUR
    = Returns (out_engine o1) s' true
    /\ is_offset s' = 5
    /\ unread s' = bytes "fgh"
    /\ (unread s' <> [] ->
        forall size,
          exists s'',
            input_curl_read (out_engine o1) s' size
            = Returns (out_engine o1) s'' (firstn size (bytes "fgh"))).
Proof.
  cbv zeta.
  apply (seek_fast_forward_within_queue
           (out_engine
              (input_curl_buffer
                 (out_engine (input_curl_open true seekable_engine plain_url))
                 (out_stream (input_curl_open true seekable_engine plain_url))))
           (out_stream
              (input_curl_buffer
                 (out_engine (input_curl_open true seekable_engine plain_url))
                 (out_stream (input_curl_open true seekable_engine plain_url))))
           5 SEEK_CUR 5).
  - vm_compute. reflexivity.
  - vm_compute. discriminate.
  - vm_compute. reflexivity.
  - vm_compute. reflexivity.
  - vm_compute. discriminate.
Defined.

(** The engine's callbacks and messages leave the URL and the range
    string alone. *)
Lemma run_callbacks_range (cbs : list callback) (s : input_stream) :
  c_range (is_data (fold_left run_callback cbs s)) = c_range (is_data s)
  /\ c_url (is_data (fold_left run_callback cbs s)) = c_url (is_data s).
Proof.
  revert s. induction cbs as [|cb cbs IH]; intros s; [auto|].
  cbn [fold_left]. destruct (IH (run_callback s cb)) as [R U].
  rewrite R, U. destruct cb as [line|payload]; cbn [run_callback].
  - destruct (headerfunction_core line s) as (D & _). now rewrite D.
  - destruct payload; auto.
Qed.

Lemma info_read_loop_range (msgs : list CURLMsg) (s : input_stream) :
  c_range (is_data (snd (fst (info_read_loop msgs s)))) = c_range (is_data s)
  /\ c_url (is_data (snd (fst (info_read_loop msgs s)))) = c_url (is_data s).
Proof.
  revert s. induction msgs as [|m rest IH]; intros s; [auto|].
  cbn [info_read_loop]. destruct (msg m =? CURLMSG_DONE); [|apply IH].
  destruct (msg_result m =? CURLE_OK); cbn [negb]; [|auto].
  destruct (IH (on_data (set_c_eof true) s)) as [R U]. now rewrite R, U.
Qed.

Lemma info_read_range (e : engine) (s : input_stream) :
  c_range (is_data (snd (fst (input_curl_multi_info_read e s))))
  = c_range (is_data s).
Proof.
  unfold input_curl_multi_info_read.
  destruct (info_read_loop_range (pending e) s) as [R _].
  destruct (info_read_loop (pending e) s) as [[queue s1] ret]. exact R.
Qed.

Lemma perform_loop_range (again : Z -> input_stream -> bool) (fuel : nat)
  (e : engine) (s : input_stream) :
  c_range (is_data (out_stream (perform_loop again fuel e s)))
  = c_range (is_data s).
Proof.
  revert e s. induction fuel as [|fuel IH]; intros e s; [reflexivity|].
  cbn [perform_loop]. unfold curl_multi_perform.
  destruct (performs e) as [|p rest]; [reflexivity|].
  destruct (run_callbacks_range (pr_callbacks p) s) as [R _].
  destruct (again _ _).
  - rewrite IH. exact R.
  - exact R.
Qed.

(** X7.  When a seek takes the reconnect path to a target that is not the
    known size and returns true, one request has been started: the offset
    is the target, the rewind list is empty, the handle is the new one,
    the buffer list holds exactly the chunks that the new request has
    delivered so far, and the range string is the target in decimal
    followed by [-] when the target is above 0, and absent for target
    0.  The target is the absolute offset as the code computes it, a
    non-negative [off_t]. *)
Theorem seek_reconnect_success_state :
  forall (e e' : engine) (s s' : input_stream) (offset whence target : Z),
    is_seekable s = true ->
    seek_target s offset whence = Some target ->
    0 <= target < 2 ^ 63 -> target <> is_size s ->
    (whence =? SEEK_SET) && (offset =? 0)
      && ((is_offset s =? 0) || input_curl_can_rewind s) = false ->
    is_offset (fast_forward (length (c_buffers (is_data s))) target s)
      <> target ->
    input_curl_seek e s offset whence = Returns e' s' true ->
    is_offset s' = target
    /\ c_rewind (is_data s') = []
    /\ c_range (is_data s')
       = (if 0 <? target
          then Some (bytes (NilZero.string_of_int (Z.to_int target) ++ "-"))
          else None)
    /\ exists r used,
         inits e = r :: inits e'
         /\ init_ok r = true
         /\ c_easy (is_data s') = ir_easy r
         /\ performs e = used ++ performs e'
         /\ c_buffers (is_data s') = chunks used.
Proof.
  intros e e' s s' offset whence target Hseek Ht Hpos Hsize Hshort Hff.
  unfold input_curl_seek.
  assert (H1 : (whence =? SEEK_SET) && (offset =? 0) && (is_offset s =? 0)
               = false).
  { destruct ((whence =? SEEK_SET) && (offset =? 0)); [|reflexivity].
    cbn in *. now apply orb_false_iff in Hshort. }
  assert (H2 : (whence =? SEEK_SET) && (offset =? 0)
               && input_curl_can_rewind s = false).
  { destruct ((whence =? SEEK_SET) && (offset =? 0)); [|reflexivity].
    cbn in *. now apply orb_false_iff in Hshort. }
  rewrite H1, H2, Hseek, Ht. cbn [negb].
  destruct (Z.ltb_spec target 0); [lia|].
  destruct (fast_forward_fields (length (c_buffers (is_data s))) target s)
    as (Hsz & _).
  set (s1 := fast_forward (length (c_buffers (is_data s))) target s) in *.
  destruct (Z.eqb_spec target (is_offset s1)) as [Heq|_]; [congruence|].
  unfold seek_reconnect, input_curl_easy_free.
  set (e1 := match c_easy (is_data s1) with
             | Some _ => mk_engine (inits e) (performs e) (selects e) []
             | None => e
             end).
  assert (He1 : inits e1 = inits e /\ performs e1 = performs e)
    by (subst e1; destruct (c_easy (is_data s1)); auto).
  destruct He1 as [Hi1 Hp1].
  set (s2 := set_offset target (set_data _ s1)).
  assert (Hs2 : is_size s2 = is_size s) by (subst s2; cbn; exact Hsz).
  destruct (Z.eqb_spec (is_offset s2) (is_size s2)) as [Heq|_].
  { subst s2. cbn in Heq. cbn in Hs2. congruence. }
  destruct (input_curl_easy_init e1 s2) as [[[e2 s3] ret]|] eqn:Hinit;
    [|discriminate].
  apply easy_init_core in Hinit.
  destruct Hinit as (r & Hr & Hret & Hp2 & _ & _ & Hs3).
  assert (Hs3' : c_buffers (is_data s3) = [] /\ c_rewind (is_data s3) = []
                 /\ is_offset s3 = target
                 /\ c_easy (is_data s3) = ir_easy r
                 /\ c_range (is_data s3) = None)
    by (rewrite Hs3; cbn; auto).
  clear Hs3. destruct Hs3' as (B3 & R3 & O3 & E3 & G3).
  destruct ret; [|discriminate].
  set (s4 := if 0 <? is_offset s3 then _ else s3).
  assert (Hs4 : c_buffers (is_data s4) = [] /\ c_rewind (is_data s4) = []
                /\ is_offset s4 = target
                /\ c_easy (is_data s4) = ir_easy r
                /\ c_range (is_data s4)
                   = (if 0 <? target
                      then Some (bytes (NilZero.string_of_int
                                          (Z.to_int target) ++ "-"))
                      else None)).
  { subst s4. rewrite O3. destruct (0 <? target); cbn; auto 10. }
  destruct Hs4 as (B4 & R4 & O4 & E4 & G4).
  unfold input_curl_send_request.
  destruct (perform_loop_core
              (fun mcode _ => mcode =? CURLM_CALL_MULTI_PERFORM)
              (length (performs e2)) e2 s4)
    as (used & Hu & (B5 & R5 & O5 & E5) & Hi5 & _).
  pose proof (perform_loop_range
                (fun mcode _ => mcode =? CURLM_CALL_MULTI_PERFORM)
                (length (performs e2)) e2 s4) as G5.
  cbv zeta in *.
  destruct (perform_loop _ _ e2 s4) as [e3 s5 mcode|e3 s5]; [|discriminate].
  cbn in Hu, B5, R5, O5, E5, Hi5, G5.
  destruct (mcode =? CURLM_OK); [|discriminate].
  pose proof (info_read_range e3 s5) as G6.
  destruct (input_curl_multi_info_read e3 s5) as [[e4 s6] ret] eqn:Hinfo.
  apply info_read_core in Hinfo.
  destruct Hinfo as (Hp6 & Hi6 & _ & (B6 & R6 & O6 & E6) & _).
  cbn in G6.
  intros Hr0; inversion Hr0; subst e4 s6 ret; clear Hr0.
  split; [congruence|]. split; [congruence|]. split; [congruence|].
  exists r, used. repeat split; try congruence.
  rewrite B6, B5, B4. cbn. unfold chunks. cbn. now rewrite app_nil_r.
Qed.

Lemma seek_reconnect_success_state_witness :
  let o1 := input_curl_open true seekable_engine plain_url in
  let o2 := input_curl_seek (out_engine o1) (out_stream o1) 1000 SEEK_SET in
  is_offset (out_stream o2) = 1000
  /\ c_rewind (is_data (out_stream o2)) = []
  /\ c_range (is_data (out_stream o2)) = Some (bytes "1000-")
  /\ exists r used,
       inits (out_engine o1) = r :: inits (out_engine o2)
       /\ init_ok r = true
       /\ c_easy (is_data (out_stream o2)) = ir_easy r
       /\ performs (out_engine o1) = used ++ performs (out_engine o2)
       /\ c_buffers (is_data (out_stream o2)) = chunks used.
Proof.
  cbv zeta.
  apply (seek_reconnect_success_state
           (out_engine (input_curl_open true seekable_engine plain_url)) _
           (out_stream (input_curl_open true seekable_engine plain_url)) _
           1000 SEEK_SET 1000).
  - reflexivity.
  - reflexivity.
  - lia.
  - vm_compute. discriminate.
  - reflexivity.
  - vm_compute. discriminate.
  - vm_compute. reflexivity.
Defined.

(** ** Rewinding and reading *)

(** X9.  [input_curl_rewind] puts back exactly what had been read: the
    unread bytes afterwards are the bytes of the rewind list and of the
    read part of the first buffer, followed by the bytes that were unread
    before.  On a well-formed stream the result is a stream at its start:
    offset 0, rewind list empty, no buffer partly read. *)
Theorem rewind_restores_read_bytes :
  forall s : input_stream,
    unread (input_curl_rewind s) = replayed s ++ unread s
    /\ is_offset (input_curl_rewind s) = 0
    /\ c_rewind (is_data (input_curl_rewind s)) = []
    /\ (wf_stream s -> at_start (input_curl_rewind s)).
Proof.
  intros s. split; [|split; [reflexivity|split; [reflexivity|]]].
  - unfold unread, unread_c, replayed, input_curl_rewind. cbn.
    rewrite map_app, concat_app, map_map, <- app_assoc. f_equal.
    destruct (c_buffers (is_data s)) as [|b rest]; [reflexivity|].
    cbn [read_part map concat].
    change (unread_of (reset_buffer b)) with (buf_data b).
    rewrite app_assoc. f_equal. unfold unread_of. symmetry.
    apply firstn_skipn.
  - intros Hwf. pose proof (input_curl_rewind_wf s Hwf) as (Hok & Hfr & _).
    destruct Hwf as (_ & Hfresh & _).
    unfold at_start. split; [reflexivity|]. split; [reflexivity|].
    revert Hok Hfr. unfold input_curl_rewind. cbn.
    set (l := map reset_buffer (c_rewind (is_data s)) ++ _).
    assert (Hhead : match l with [] => True | b :: _ => buffer_fresh b end).
    { subst l. destruct (c_rewind (is_data s)); cbn.
      - destruct (c_buffers (is_data s)); cbn; [exact I|reflexivity].
      - reflexivity. }
    clearbody l. intros Hok Hfr. destruct l as [|b l]; [constructor|].
    cbn in Hfr. inversion Hok; subst.
    constructor; [split; assumption|].
    apply Forall_forall. intros x Hx.
    rewrite Forall_forall in Hfr. rewrite Forall_forall in H2. auto.
Qed.

(** X10.  [read] never returns more bytes than were asked for. *)
Theorem read_returns_at_most_size :
  forall (e : engine) (s : input_stream) (size : nat),
    (length (out_bytes (input_curl_read e s size)) <= size)%nat.
Proof.
  intros e s size. rewrite input_curl_read_unfold.
  destruct (read_fill _ _ e s) as [e1 s1 [|]|e1 s1]; cbn; try lia.
  destruct (read_send_spec s1 size) as (Ho & _). cbv zeta in Ho.
  rewrite Ho, length_firstn. lia.
Qed.

(** X11.  With data queued on a well-formed stream, a [read] of a size
    above 0 returns at once, without calling the engine: it returns the
    first unread bytes, as many as asked for or all that are queued, at
    least one, and leaves the rest queued. *)
Theorem read_with_data_queued :
  forall (e : engine) (s : input_stream) (size : nat),
    Forall buffer_ok (c_buffers (is_data s)) ->
    c_buffers (is_data s) <> [] ->
    (0 < size)%nat ->
    exists s',
      input_curl_read e s size = Returns e s' (firstn size (unread s))
      /\ firstn size (unread s) <> []
      /\ length (firstn size (unread s))
         = Nat.min size (length (unread s))
      /\ unread s' = skipn size (unread s)
      /\ is_offset s'
         = is_offset s + Z.of_nat (Nat.min size (length (unread s))).
Proof.
  intros e s size Hok Hne Hsize.
  assert (Hq : is_empty (c_buffers (is_data s)) = false)
    by (destruct (c_buffers (is_data s)); [congruence|reflexivity]).
  rewrite input_curl_read_ready by (rewrite Hq; apply andb_false_r).
  destruct (read_send_spec s size) as (Ho & Hun & Hoff & _).
  cbv zeta in *. eexists. split; [reflexivity|].
  pose proof (unread_nonempty s Hok Hne) as Hu.
  repeat split.
  - destruct (unread s); [congruence|]. destruct size; [lia|discriminate].
  - apply length_firstn.
  - exact Hun.
  - rewrite Hoff, Ho, length_firstn. reflexivity.
Qed.

Lemma read_with_data_queued_witness :
  exists s',
    input_curl_read plain_engine sized_stream 2
    = Returns plain_engine s' (firstn 2 (unread sized_stream))
    /\ firstn 2 (unread sized_stream) <> []
    /\ length (firstn 2 (unread sized_stream))
       = Nat.min 2 (length (unread sized_stream))
    /\ unread s' = skipn 2 (unread sized_stream)
    /\ is_offset s'
       = is_offset sized_stream
         + Z.of_nat (Nat.min 2 (length (unread sized_stream))).
Proof.
  apply (read_with_data_queued plain_engine sized_stream 2).
  - repeat constructor.
  - discriminate.
  - lia.
Defined.

(** X12.  Once [input_curl_eof] holds, [read] returns no bytes without
    calling the engine, the offset stays, and [input_curl_eof] still
    holds. *)
Theorem read_at_end_of_stream :
  forall (e : engine) (s : input_stream) (size : nat),
    input_curl_eof s = true ->
    exists s',
      input_curl_read e s size = Returns e s' []
      /\ is_offset s' = is_offset s
      /\ input_curl_eof s' = true
      /\ is_error s' = is_error s.
Proof.
  intros e s size Heof. unfold input_curl_eof in Heof.
  apply andb_true_iff in Heof. destruct Heof as [He Hb].
  assert (Hnil : c_buffers (is_data s) = [])
    by (destruct (c_buffers (is_data s)); [reflexivity|discriminate]).
  rewrite input_curl_read_ready by (now rewrite He).
  destruct (read_send_spec s size) as (Ho & Hun & Hoff & Heof' & Herr).
  cbv zeta in *.
  assert (Hu : unread s = []) by (unfold unread, unread_c; now rewrite Hnil).
  rewrite Hu, firstn_nil in *. eexists. split; [reflexivity|].
  rewrite Ho in Hoff. cbn in Hoff.
  repeat split; [lia| |exact Herr].
  unfold input_curl_eof. rewrite Heof', He. cbn.
  unfold read_send. rewrite read_loop_empty by exact Hnil.
  cbn [length]. destruct (rewind_head s && _); cbn; now rewrite Hnil.
Qed.

Lemma read_at_end_of_stream_witness :
  exists s',
    input_curl_read plain_engine
      (on_data (set_c_eof true) (new_stream plain_url)) 4096
    = Returns plain_engine s' []
    /\ is_offset s' = 0
    /\ input_curl_eof s' = true
    /\ is_error s' = 0.
Proof.
  apply (read_at_end_of_stream plain_engine
           (on_data (set_c_eof true) (new_stream plain_url)) 4096).
  reflexivity.
Defined.

(** ** Messages and the pump *)

Lemma info_read_loop_spec (msgs : list CURLMsg) (s : input_stream) :
  let r := info_read_loop msgs s in
  snd r = negb (existsb is_failed_done msgs)
  /\ if snd r
     then fst (fst r) = []
          /\ c_eof (is_data (snd (fst r)))
             = c_eof (is_data s) || existsb is_done msgs
          /\ is_error (snd (fst r)) = is_error s
     else is_error (snd (fst r)) = -1
          /\ c_eof (is_data (snd (fst r))) = true
          /\ exists before m,
               msgs = before ++ m :: fst (fst r)
               /\ is_failed_done m = true
               /\ existsb is_failed_done before = false.
Proof.
  revert s. induction msgs as [|m rest IH]; intros s.
  - cbn. rewrite orb_false_r. auto.
  - cbn [info_read_loop existsb]. unfold is_failed_done at 1, is_done at 1.
    destruct (msg m =? CURLMSG_DONE) eqn:Hd; cbn [andb orb].
    + destruct (msg_result m =? CURLE_OK) eqn:Hr; cbn [negb orb].
      * specialize (IH (on_data (set_c_eof true) s)). cbv zeta in IH.
        destruct (info_read_loop rest (on_data (set_c_eof true) s))
          as [[queue s1] ret]. cbn [fst snd] in *.
        destruct IH as [IH1 IH2]. split; [exact IH1|].
        destruct ret.
        -- destruct IH2 as (Q & E & X). cbn in E, X.
           rewrite orb_true_r. auto.
        -- destruct IH2 as (X & E & before & m' & Hm & Hf & Hb).
           repeat split; auto. exists (m :: before), m'.
           split; [cbn; now rewrite Hm|]. split; [exact Hf|].
           cbn. unfold is_failed_done at 1. now rewrite Hd, Hr, Hb.
      * cbn. repeat split. exists [], m. cbn.
        unfold is_failed_done. now rewrite Hd, Hr.
    + specialize (IH s). cbv zeta in IH.
      destruct (info_read_loop rest s) as [[queue s1] ret].
      cbn [fst snd] in *. destruct IH as [IH1 IH2]. split; [exact IH1|].
      destruct ret; [exact IH2|].
      destruct IH2 as (X & E & before & m' & Hm & Hf & Hb).
      repeat split; auto. exists (m :: before), m'.
      split; [cbn; now rewrite Hm|]. split; [exact Hf|].
      cbn. unfold is_failed_done at 1. now rewrite Hd, Hb.
Qed.

(** X13.  [input_curl_multi_info_read] returns false exactly when a queued
    [CURLMSG_DONE] message carries a result other than [CURLE_OK].  When
    it returns true the queue has been emptied, the error is unchanged,
    and [eof] is set if and only if it was set or a [CURLMSG_DONE] message
    was queued.  When it returns false the error is -1, [eof] is set, and
    the messages after the first failed one are still queued. *)
Theorem multi_info_read_reports_first_failure :
  forall (e : engine) (s : input_stream),
    snd (input_curl_multi_info_read e s)
    = negb (existsb is_failed_done (pending e))
    /\ if snd (input_curl_multi_info_read e s)
       then pending (fst (fst (input_curl_multi_info_read e s))) = []
            /\ c_eof (is_data (snd (fst (input_curl_multi_info_read e s))))
               = c_eof (is_data s) || existsb is_done (pending e)
            /\ is_error (snd (fst (input_curl_multi_info_read e s)))
               = is_error s
       else is_error (snd (fst (input_curl_multi_info_read e s))) = -1
            /\ c_eof (is_data (snd (fst (input_curl_multi_info_read e s))))
               = true
            /\ exists before m,
                 pending e
                 = before ++ m
                   :: pending (fst (fst (input_curl_multi_info_read e s)))
                 /\ is_failed_done m = true
                 /\ existsb is_failed_done before = false.
Proof.
  intros e s. unfold input_curl_multi_info_read.
  pose proof (info_read_loop_spec (pending e) s) as H. cbv zeta in H.
  destruct (info_read_loop (pending e) s) as [[queue s1] ret].
  exact H.
Qed.

Lemma is_empty_app {A : Type} (l1 l2 : list A) :
  is_empty (l1 ++ l2) = is_empty l1 && is_empty l2.
Proof. destruct l1; reflexivity. Qed.

Lemma run_callbacks_buffered (cbs : list callback) (s : input_stream) :
  c_buffered (is_data (fold_left run_callback cbs s))
  = c_buffered (is_data s) || negb (is_empty (concat (map chunk_of cbs))).
Proof.
  revert s. induction cbs as [|cb cbs IH]; intros s.
  - cbn. now rewrite orb_false_r.
  - cbn [fold_left map concat]. rewrite IH, is_empty_app, negb_andb.
    rewrite orb_assoc. f_equal.
    destruct cb as [line|[|x payload]]; cbn [run_callback].
    + destruct (headerfunction_core line s) as (D & _). rewrite D.
      cbn. now rewrite orb_false_r.
    + cbn. now rewrite orb_false_r.
    + cbn. now rewrite orb_true_r.
Qed.

Lemma info_read_loop_buffered (msgs : list CURLMsg) (s : input_stream) :
  c_buffered (is_data (snd (fst (info_read_loop msgs s))))
  = c_buffered (is_data s).
Proof.
  revert s. induction msgs as [|m rest IH]; intros s; [reflexivity|].
  cbn [info_read_loop]. destruct (msg m =? CURLMSG_DONE); [|apply IH].
  destruct (msg_result m =? CURLE_OK); cbn [negb]; [|reflexivity].
  now rewrite IH.
Qed.

(** A perform loop: the replies it used, what they appended, and the
    [buffered] flag. *)
Lemma perform_loop_buffered (again : Z -> input_stream -> bool) (fuel : nat)
  (e : engine) (s : input_stream) :
  exists used,
    performs e = used ++ performs (out_engine (perform_loop again fuel e s))
    /\ fed used s (out_stream (perform_loop again fuel e s))
    /\ c_buffered (is_data (out_stream (perform_loop again fuel e s)))
       = c_buffered (is_data s) || negb (is_empty (chunks used))
    /\ c_eof (is_data (out_stream (perform_loop again fuel e s)))
       = c_eof (is_data s)
    /\ is_error (out_stream (perform_loop again fuel e s)) = is_error s.
Proof.
  revert e s. induction fuel as [|fuel IH]; intros e s; cbn [perform_loop].
  - exists []. cbn. rewrite orb_false_r. repeat split; auto. apply fed_refl.
  - destruct (curl_multi_perform e s) as [[[e1 s1] mcode]|] eqn:Hperf.
    2:{ exists []. cbn. rewrite orb_false_r. repeat split; auto.
        apply fed_refl. }
    pose proof Hperf as Hperf'. apply perform_core in Hperf.
    destruct Hperf as (p & Hp & _ & _ & _ & Hfed & Heof & Herr).
    assert (Hbuf : c_buffered (is_data s1)
                   = c_buffered (is_data s) || negb (is_empty (chunks [p]))).
    { unfold curl_multi_perform in Hperf'. rewrite Hp in Hperf'.
      inversion Hperf'; subst. rewrite run_callbacks_buffered.
      unfold chunks. cbn. now rewrite app_nil_r. }
    destruct (again mcode s1).
    + destruct (IH e1 s1) as (used & Hu & Hf & Hb & He & Hx).
      exists ([p] ++ used). split; [cbn; congruence|].
      split; [eapply fed_trans; eassumption|].
      rewrite Hb, Hbuf, He, Hx. unfold chunks. rewrite map_app, concat_app.
      rewrite is_empty_app, negb_andb, orb_assoc. auto.
    + exists [p]. cbn [out_engine out_stream].
      split; [exact Hp|]. split; [exact Hfed|]. auto.
Qed.

(** X14.  The pump [input_curl_buffer] never reads: the offset and the
    rewind list stay, and the buffer list grows by exactly the chunks of
    the replies it used.  It returns -1 only with [eof] set (a failed poll
    or a failed transfer); otherwise it returns 1 if a chunk was appended
    during the call and 0 if none was. *)
Theorem buffer_reports_new_data :
  forall (e : engine) (s : input_stream),
    exists used,
      performs e = used ++ performs (out_engine (input_curl_buffer e s))
      /\ c_buffers (is_data (out_stream (input_curl_buffer e s)))
         = c_buffers (is_data s) ++ chunks used
      /\ unread (out_stream (input_curl_buffer e s))
         = unread s ++ delivered used
      /\ c_rewind (is_data (out_stream (input_curl_buffer e s)))
         = c_rewind (is_data s)
      /\ is_offset (out_stream (input_curl_buffer e s)) = is_offset s
      /\ match input_curl_buffer e s with
         | Stuck _ _ => True
         | Returns _ s' r =>
             if r =? -1 then c_eof (is_data s') = true
             else r = (if is_empty (chunks used) then 0 else 1)
         end.
Proof.
  intros e s. unfold input_curl_buffer.
  destruct (perform_loop_buffered
              (fun mcode s1 => (mcode =? CURLM_CALL_MULTI_PERFORM)
                               && is_empty (c_buffers (is_data s1)))
              (length (performs e)) e (on_data (set_c_buffered false) s))
    as (used & Hu & Hfed & Hb & _).
  exists used. cbn [on_data set_data is_data set_c_buffered c_buffered orb]
    in Hb.
  assert (Hfed' : forall s', fed used (on_data (set_c_buffered false) s) s' ->
                             fed used s s') by (intros s' H; exact H).
  destruct (perform_loop _ _ e _) as [e1 s1 mcode|e1 s1];
    cbn [out_engine out_stream] in *.
  2:{ apply Hfed' in Hfed. pose proof (fed_unread _ _ _ Hfed) as Hun.
      destruct Hfed as (B & R & O & _). auto 10. }
  apply Hfed' in Hfed.
  destruct (negb (mcode =? CURLM_OK)
            && negb (mcode =? CURLM_CALL_MULTI_PERFORM)).
  { cbn [out_engine out_stream].
    assert (Hf2 : fed used s (on_data (set_c_eof true) s1))
      by (destruct Hfed as (B & R & O & Y); unfold fed; cbn; auto).
    pose proof (fed_unread _ _ _ Hf2) as Hun.
    destruct Hf2 as (B & R & O & _). repeat split; auto. }
  pose proof (info_read_loop_buffered (pending e1) s1) as Hb2.
  destruct (input_curl_multi_info_read e1 s1) as [[e2 s2] ret] eqn:Hi.
  assert (Hb3 : c_buffered (is_data s2) = c_buffered (is_data s1)).
  { unfold input_curl_multi_info_read in Hi.
    destruct (info_read_loop (pending e1) s1) as [[q sx] rx].
    inversion Hi; subst. exact Hb2. }
  apply info_read_core in Hi.
  destruct Hi as (Hp2 & _ & _ & Hfed2 & Hfail & _ & _).
  pose proof (fed_trans _ _ _ _ _ Hfed Hfed2) as Hf3.
  rewrite app_nil_r in Hf3.
  pose proof (fed_unread _ _ _ Hf3) as Hun.
  destruct Hf3 as (B & R & O & _).
  destruct ret; cbn [negb out_engine out_stream].
  - split; [congruence|]. repeat split; auto.
    rewrite Hb3, Hb. destruct (is_empty (chunks used)); reflexivity.
  - split; [congruence|]. repeat split; auto. cbn. now apply Hfail.
Qed.

(** ** Opening *)

Lemma code_inj (a b : byte) : code a = code b -> a = b.
Proof.
  unfold code. intros H. apply N2Z.inj in H.
  pose proof (Byte.of_to_N a) as Ha. pose proof (Byte.of_to_N b) as Hb.
  rewrite H in Ha. congruence.
Qed.

Lemma codes_eqb_eq (l1 l2 : list byte) :
  codes_eqb (map code l1) (map code l2) = true <-> l1 = l2.
Proof.
  revert l2. induction l1 as [|a l1 IH]; intros [|b l2]; cbn;
    try (split; [discriminate|discriminate]); [tauto|].
  rewrite andb_true_iff, Z.eqb_eq, IH. split.
  - intros [H1 H2]. apply code_inj in H1. congruence.
  - intros H. inversion H. auto.
Qed.

Lemma chunks_fresh (ps : list perform_reply) :
  Forall (fun b => buffer_fresh b /\ buffer_ok b) (chunks ps).
Proof.
  unfold chunks. induction ps as [|p ps IH]; [constructor|].
  cbn. apply Forall_app. split; [|exact IH].
  induction (pr_callbacks p) as [|cb cbs IHc]; [constructor|].
  cbn. apply Forall_app. split; [|exact IHc].
  destruct cb as [line|[|x payload]]; cbn; try constructor; [|constructor].
  unfold buffer_fresh, buffer_ok, buf_size. cbn. split; [reflexivity|lia].
Qed.

(** X15.  [input_curl_open] refuses a URL that does not start with
    [http://]: it returns false without calling the engine. *)
Theorem open_rejects_other_schemes :
  forall (multi_ok : bool) (e : engine) (url : list byte),
    firstn 7 (c_str url) <> bytes "http://" ->
    input_curl_open multi_ok e url = Returns e (new_stream url) false.
Proof.
  intros multi_ok e url H. unfold input_curl_open.
  destruct (has_http_prefix url) eqn:Hp; [|reflexivity].
  unfold has_http_prefix in Hp. apply codes_eqb_eq in Hp. contradiction.
Qed.

Lemma open_rejects_other_schemes_witness :
  input_curl_open true plain_engine (bytes "https://host/stream")
  = Returns plain_engine (new_stream (bytes "https://host/stream")) false.
Proof.
  apply (open_rejects_other_schemes true plain_engine
           (bytes "https://host/stream")).
  vm_compute. discriminate.
Defined.

(** X16.  When [input_curl_open] returns true, the URL starts with
    [http://], one request has been started, and the stream is at its
    start: offset 0, no error, no range string, rewind list empty, and
    the buffer list holds exactly the chunks delivered while the request
    was submitted, none of them read. *)
Theorem open_success_state :
  forall (multi_ok : bool) (e e' : engine) (url : list byte)
         (s' : input_stream),
    input_curl_open multi_ok e url = Returns e' s' true ->
    firstn 7 (c_str url) = bytes "http://"
    /\ at_start s'
    /\ is_error s' = 0
    /\ c_range (is_data s') = None
    /\ exists r used,
         inits e = r :: inits e'
         /\ init_ok r = true
         /\ c_easy (is_data s') = ir_easy r
         /\ performs e = used ++ performs e'
         /\ c_buffers (is_data s') = chunks used.
Proof.
  intros multi_ok e e' url s'. unfold input_curl_open.
  destruct (has_http_prefix url) eqn:Hp; cbn [negb]; [|discriminate].
  unfold has_http_prefix in Hp. apply codes_eqb_eq in Hp.
  destruct multi_ok; cbn [negb]; [|discriminate].
  destruct (input_curl_easy_init e (new_stream url))
    as [[[e1 s1] ret]|] eqn:Hi; [|discriminate].
  apply easy_init_core in Hi.
  destruct Hi as (r & Hr & Hret & Hp1 & _ & _ & Hs1).
  destruct ret; [|discriminate].
  unfold input_curl_send_request.
  destruct (perform_loop_buffered
              (fun mcode _ => mcode =? CURLM_CALL_MULTI_PERFORM)
              (length (performs e1)) e1 s1)
    as (used & Hu & (B & R & O & E) & _ & _ & Hx).
  pose proof (perform_loop_range
                (fun mcode _ => mcode =? CURLM_CALL_MULTI_PERFORM)
                (length (performs e1)) e1 s1) as G.
  destruct (perform_loop_core
              (fun mcode _ => mcode =? CURLM_CALL_MULTI_PERFORM)
              (length (performs e1)) e1 s1) as (_ & _ & _ & Hin & _).
  cbv zeta in Hin.
  destruct (perform_loop _ _ e1 s1) as [e2 s2 mcode|e2 s2]; [|discriminate].
  cbn [out_engine out_stream] in *.
  destruct (mcode =? CURLM_OK); [|discriminate].
  intros H; inversion H; subst e2 s2; clear H.
  rewrite Hs1 in B, R, O, E, G, Hx. cbn in B, R, O, E, G, Hx.
  split; [exact Hp|]. split.
  - unfold at_start. rewrite O, R, B. repeat split. apply chunks_fresh.
  - split; [exact Hx|]. split; [exact G|].
    exists r, used. repeat split; auto; congruence.
Qed.

Lemma open_success_state_witness :
  let o := input_curl_open true burst_engine plain_url in
  firstn 7 (c_str plain_url) = bytes "http://"
  /\ at_start (out_stream o)
  /\ is_error (out_stream o) = 0
  /\ c_range (is_data (out_stream o)) = None
  /\ exists r used,
       inits burst_engine = r :: inits (out_engine o)
       /\ init_ok r = true
       /\ c_easy (is_data (out_stream o)) = ir_easy r
       /\ performs burst_engine = used ++ performs (out_engine o)
       /\ c_buffers (is_data (out_stream o)) = chunks used.
Proof.
  cbv zeta.
  apply (open_success_state true burst_engine
           (out_engine (input_curl_open true burst_engine plain_url))
           plain_url).
  vm_compute. reflexivity.
Defined.

(** X17.  When [input_curl_open] returns false, nothing is left behind:
    no handle, no queued buffer (chunks delivered before a failed
    submission are freed), no rewind buffer, offset 0. *)
Theorem open_failure_frees_everything :
  forall (multi_ok : bool) (e e' : engine) (url : list byte)
         (s' : input_stream),
    input_curl_open multi_ok e url = Returns e' s' false ->
    c_easy (is_data s') = None
    /\ c_buffers (is_data s') = []
    /\ c_rewind (is_data s') = []
    /\ c_range (is_data s') = None
    /\ is_offset s' = 0.
Proof.
  intros multi_ok e e' url s'. unfold input_curl_open.
  destruct (negb (has_http_prefix url)).
  { intros H; inversion H; subst. cbn. auto. }
  destruct (negb multi_ok).
  { intros H; inversion H; subst. cbn. auto. }
  destruct (input_curl_easy_init e (new_stream url))
    as [[[e1 s1] ret]|] eqn:Hi; [|discriminate].
  apply easy_init_core in Hi.
  destruct Hi as (r & _ & _ & _ & _ & _ & Hs1).
  destruct ret.
  - unfold input_curl_send_request.
    destruct (perform_loop_core
                (fun mcode _ => mcode =? CURLM_CALL_MULTI_PERFORM)
                (length (performs e1)) e1 s1)
      as (used & _ & (_ & _ & O & _) & _).
    cbv zeta in O.
    destruct (perform_loop _ _ e1 s1) as [e2 s2 mcode|e2 s2]; [|discriminate].
    cbn [out_stream] in O.
    destruct (mcode =? CURLM_OK); [discriminate|].
    intros H; inversion H; subst. cbn. rewrite O. repeat split; auto.
  - intros H; inversion H; subst. cbn. auto.
Qed.

Lemma open_failure_frees_everything_witness :
  let e := mk_engine [mk_init (Some 1%nat) CURLM_OK CURLE_OK]
             [mk_perform [BodyData (bytes "x")] CURLM_CALL_MULTI_PERFORM [];
              mk_perform [] 4 []] [] [] in
  let o := input_curl_open true e plain_url in
  c_easy (is_data (out_stream o)) = None
  /\ c_buffers (is_data (out_stream o)) = []
  /\ c_rewind (is_data (out_stream o)) = []
  /\ c_range (is_data (out_stream o)) = None
  /\ is_offset (out_stream o) = 0.
Proof.
  cbv zeta.
  apply (open_failure_frees_everything true
           (mk_engine [mk_init (Some 1%nat) CURLM_OK CURLE_OK]
              [mk_perform [BodyData (bytes "x")] CURLM_CALL_MULTI_PERFORM [];
               mk_perform [] 4 []] [] [])
           (out_engine
              (input_curl_open true
                 (mk_engine [mk_init (Some 1%nat) CURLM_OK CURLE_OK]
                    [mk_perform [BodyData (bytes "x")]
                       CURLM_CALL_MULTI_PERFORM [];
                     mk_perform [] 4 []] [] [])
                 plain_url))
           plain_url).
  vm_compute. reflexivity.
Defined.

(** ** Header lines *)

Lemma memchr_none (c : byte) (l : list byte) :
  Forall (fun b => b <> c) l -> memchr c l = None.
Proof.
  induction 1 as [|b l Hb _ IH]; [reflexivity|]. cbn.
  destruct (Byte.eqb b c) eqn:E.
  - apply Byte.byte_dec_bl in E. contradiction.
  - now rewrite IH.
Qed.

(** The callback on a line with a name of less than 64 bytes: the name is
    compared, the value is what is left after stripping. *)
Lemma headerfunction_named (name rest : list byte) (s : input_stream) :
  Forall (fun b => b <> ":"%byte) name ->
  Forall (fun b => code b <> 0) name ->
  (length name < 64)%nat ->
  input_curl_headerfunction (name ++ ":"%byte :: rest) s =
  let value := trim_right (skip_spaces rest) in
  if strcasecmp_eq name (bytes "accept-ranges") then set_seekable true s
  else if strcasecmp_eq name (bytes "content-length") then
    if (64 <=? length (name ++ ":"%byte :: rest)
               - (length (skip_spaces rest) - length value))%nat
    then s
    else set_size (to_off_t (is_offset s + g_ascii_strtoull (c_str value))) s
  else if strcasecmp_eq name (bytes "content-type") then
    set_mime (Some (g_strndup value)) s
  else if strcasecmp_eq name (bytes "icy-name")
          || strcasecmp_eq name (bytes "ice-name")
          || strcasecmp_eq name (bytes "x-audiocast-name") then
    set_meta_name (Some (g_strndup value)) s
  else s.
Proof.
  intros Hcolon Hnul Hlen. unfold input_curl_headerfunction.
  rewrite memchr_app by exact Hcolon.
  destruct (Nat.leb_spec 64 (length name)) as [Hbig|_]; [lia|].
  rewrite firstn_app, firstn_all, Nat.sub_diag. cbn [firstn].
  rewrite app_nil_r.
  replace (skipn (S (length name)) (name ++ ":"%byte :: rest)) with rest.
  2:{ rewrite skipn_app, skipn_all2 by lia.
      replace (S (length name) - length name)%nat with 1%nat by lia.
      reflexivity. }
  rewrite (c_str_id name Hnul). reflexivity.
Qed.

(** A name that [strcasecmp] takes for one of the six literals is shorter
    than 64 bytes and free of colons and NULs, and compares as the
    literals themselves do. *)
Lemma names_header_compare (name : list byte) (literal other : string) :
  names_header name literal ->
  Forall (fun z => z <> 58 /\ z <> 0) (map code (bytes literal)) ->
  strcasecmp_eq name (bytes other)
  = codes_eqb (map code (bytes literal))
      (map lower_code (c_str (bytes other))).
Proof.
  intros Hn Hc. destruct (names_header_bytes name literal Hn Hc) as [_ Hnul].
  unfold strcasecmp_eq. now rewrite (c_str_id name Hnul), Hn.
Qed.

Lemma names_header_length (name : list byte) (literal : string) :
  names_header name literal -> length name = length (bytes literal).
Proof.
  unfold names_header. intros H. apply (f_equal (@length Z)) in H.
  now rewrite !length_map in H.
Qed.

(** X18.  A line whose name is [accept-ranges] in any letter case makes
    the stream seekable, whatever the value, and changes nothing else. *)
Theorem accept_ranges_sets_seekable :
  forall (name rest : list byte) (s : input_stream),
    names_header name "accept-ranges" ->
    input_curl_headerfunction (name ++ ":"%byte :: rest) s
    = set_seekable true s.
Proof.
  intros name rest s Hn.
  assert (Hc : Forall (fun z => z <> 58 /\ z <> 0)
                 (map code (bytes "accept-ranges")))
    by (vm_compute; repeat constructor; discriminate).
  destruct (names_header_bytes name _ Hn Hc) as [Hcolon Hnul].
  pose proof (names_header_length name _ Hn) as Hlen.
  rewrite headerfunction_named; auto; [|rewrite Hlen; cbn; lia].
  cbv zeta. rewrite (names_header_compare name _ "accept-ranges" Hn Hc).
  reflexivity.
Qed.

Lemma accept_ranges_sets_seekable_witness :
  input_curl_headerfunction
    (bytes "Accept-Ranges" ++ ":"%byte :: bytes " none")
    (new_stream plain_url)
  = set_seekable true (new_stream plain_url).
Proof.
  apply (accept_ranges_sets_seekable (bytes "Accept-Ranges") (bytes " none")
           (new_stream plain_url)).
  reflexivity.
Defined.

(** Stripping a value that has white space around it only. *)
Lemma strip_value (lead value trail : list byte) :
  all_space lead -> all_space trail -> stripped value ->
  trim_right (skip_spaces (lead ++ value ++ trail)) = value.
Proof.
  intros Hlead Htrail Hv. rewrite skip_spaces_app by exact Hlead.
  destruct value as [|h t].
  - cbn [app]. unfold trim_right.
    assert (Hs : forall l, all_space l -> skip_spaces l = []).
    { induction 1 as [|b l Hb _ IH]; [reflexivity|]. cbn. now rewrite Hb. }
    rewrite (Hs trail Htrail). cbn. reflexivity.
  - destruct Hv as [Hh Hl]. cbn [app].
    rewrite skip_spaces_head by exact Hh.
    change (h :: t ++ trail) with ((h :: t) ++ trail).
    unfold trim_right. rewrite rev_app_distr.
    rewrite skip_spaces_app by (apply Forall_rev; exact Htrail).
    rewrite (app_removelast_last h (l := h :: t)) at 1 by discriminate.
    rewrite rev_app_distr. cbn [rev app].
    rewrite skip_spaces_head by exact Hl.
    change (last (h :: t) h :: rev (removelast (h :: t)))
      with (rev [last (h :: t) h] ++ rev (removelast (h :: t))).
    rewrite <- rev_app_distr, rev_involutive.
    symmetry. apply app_removelast_last. discriminate.
Qed.

(** ** The [content-length] line *)

Lemma all_space_skipped (l : list byte) : all_space l -> skip_spaces l = [].
Proof. induction 1 as [|b l Hb _ IH]; [reflexivity|]. cbn. now rewrite Hb. Qed.

Lemma c_str_app (l r : list byte) :
  Forall (fun b => code b <> 0) l -> c_str (l ++ r) = l ++ c_str r.
Proof.
  induction 1 as [|b l Hb _ IH]; [reflexivity|]. cbn.
  destruct (Z.eqb_spec (code b) 0); [contradiction|]. now rewrite IH.
Qed.

Lemma Forall_last {A : Type} (P : A -> Prop) (l : list A) (d : A) :
  Forall P l -> l <> [] -> P (last l d).
Proof.
  induction 1 as [|x l Hx Hl IH]; [congruence|]. intros _.
  destruct l as [|y t]; [exact Hx|]. apply IH. discriminate.
Qed.

(** A [content-length] line with white space around its value: the line is
    ignored when the end of the value lies 64 bytes or more into the line,
    and otherwise the size becomes the offset plus whatever
    [g_ascii_strtoull] makes of the value.  (Where there is no value at
    all, the code takes all the white space for leading.) *)
Lemma content_length_line (name lead value trail : list byte)
  (s : input_stream) :
  names_header name "content-length" ->
  all_space lead -> all_space trail -> stripped value ->
  value <> [] \/ trail = [] ->
  input_curl_headerfunction (name ++ ":"%byte :: lead ++ value ++ trail) s =
  if (64 <=? length name + 1 + length lead + length value)%nat then s
  else set_size (to_off_t (is_offset s + g_ascii_strtoull (c_str value))) s.
Proof.
  intros Hn Hlead Htrail Hv Hne.
  assert (Hc : Forall (fun z => z <> 58 /\ z <> 0)
                 (map code (bytes "content-length")))
    by (vm_compute; repeat constructor; discriminate).
  destruct (names_header_bytes name _ Hn Hc) as [Hcolon Hnul].
  pose proof (names_header_length name _ Hn) as Hlen.
  rewrite headerfunction_named; auto; [|rewrite Hlen; cbn; lia].
  cbv zeta.
  rewrite (names_header_compare name _ "accept-ranges" Hn Hc).
  rewrite (names_header_compare name _ "content-length" Hn Hc).
  change (codes_eqb (map code (bytes "content-length"))
            (map lower_code (c_str (bytes "accept-ranges")))) with false.
  change (codes_eqb (map code (bytes "content-length"))
            (map lower_code (c_str (bytes "content-length")))) with true.
  cbv iota.
  rewrite (strip_value lead value trail Hlead Htrail Hv).
  assert (Hskip : length (skip_spaces (lead ++ value ++ trail))
                  = (length value + length trail)%nat).
  { rewrite skip_spaces_app by exact Hlead.
    destruct value as [|h t].
    - destruct Hne as [Hne| ->]; [congruence|]. reflexivity.
    - destruct Hv as [Hh _]. cbn [app].
      rewrite skip_spaces_head by exact Hh. cbn [length].
      rewrite length_app. reflexivity. }
  rewrite Hskip, length_app. cbn [length]. rewrite !length_app.
  replace (length name + S (length lead + (length value + length trail))
           - (length value + length trail - length value))%nat
    with (length name + 1 + length lead + length value)%nat by lia.
  reflexivity.
Qed.

(** A run of digits has no white space at either end. *)
Lemma digits_stripped (digits : list byte) :
  all_digit digits -> stripped digits.
Proof.
  intros Hd. destruct digits as [|h t]; [exact I|].
  split.
  - inversion Hd; subst. now apply digit_facts.
  - apply (Forall_last (fun b => g_ascii_isspace b = false)); [|discriminate].
    eapply Forall_impl; [|exact Hd]. intros b Hb. now apply digit_facts.
Qed.

(** C6 (as amended).  A [content-length] line made of the name, the
    colon, white space, decimal digits and white space: when the digits
    end within the first 63 bytes of the line, the size becomes the offset
    plus the value of the digits, as long as that sum fits the signed
    64-bit [off_t]; when they end later, the line is ignored. *)
Theorem content_length_sets_total_size :
  forall (name lead digits trail : list byte) (s : input_stream),
    names_header name "content-length" ->
    all_space lead -> all_digit digits -> digits <> [] -> all_space trail ->
    ((length name + 1 + length lead + length digits < 64)%nat ->
     0 <= is_offset s ->
     is_offset s + decimal digits < 2 ^ 63 ->
     input_curl_headerfunction (name ++ ":"%byte :: lead ++ digits ++ trail) s
     = set_size (is_offset s + decimal digits) s)
    /\ ((64 <= length name + 1 + length lead + length digits)%nat ->
        input_curl_headerfunction
          (name ++ ":"%byte :: lead ++ digits ++ trail) s
        = s).
Proof.
  intros name lead digits trail s Hn Hlead Hd Hne Htrail.
  pose proof (content_length_line name lead digits trail s Hn Hlead Htrail
                (digits_stripped digits Hd) (or_introl Hne)) as Hline.
  split.
  - intros Hlen Hoff Hsum. rewrite Hline.
    destruct (Nat.leb_spec 64 (length name + 1 + length lead + length digits));
      [lia|].
    assert (Hdec : 0 <= decimal digits).
    { apply decimal_from_mono; [exact Hd|lia]. }
    rewrite c_str_id.
    + rewrite g_ascii_strtoull_digits by (auto; unfold G_MAXUINT64; lia).
      rewrite to_off_t_small by lia. reflexivity.
    + eapply Forall_impl; [|exact Hd]. intros b Hb.
      now apply digit_not_skipped.
  - intros Hlen. rewrite Hline.
    destruct (Nat.leb_spec 64 (length name + 1 + length lead + length digits));
      [reflexivity|lia].
Qed.

Lemma content_length_sets_total_size_witness :
  input_curl_headerfunction
    (bytes "Content-Length" ++ ":"%byte
       :: bytes " " ++ bytes "12345" ++ [x0d; x0a])
    (set_offset 1000 (new_stream plain_url))
  = set_size 13345 (set_offset 1000 (new_stream plain_url)).
Proof.
  apply (content_length_sets_total_size
           (bytes "Content-Length") (bytes " ") (bytes "12345") [x0d; x0a]
           (set_offset 1000 (new_stream plain_url))).
  - reflexivity.
  - repeat constructor.
  - repeat constructor.
  - discriminate.
  - repeat constructor.
  - cbn. lia.
  - cbn. lia.
  - vm_compute. reflexivity.
Defined.

(** C6, counterexample.  A [Content-Length] line with value 5 that is
    padded with white space to more than 63 bytes is ignored: the size
    stays unknown. *)
Lemma long_content_length_line_ignored :
  let line := bytes "Content-Length:" ++ repeat " "%byte 50 ++ bytes "5"
              ++ [x0d; x0a] in
  let s := set_offset 1000 (new_stream plain_url) in
  is_size s = -1
  /\ input_curl_headerfunction line s = s
  /\ is_size (input_curl_headerfunction line s) <> 1000 + 5.
Proof. vm_compute. repeat split. discriminate. Qed.

(** Once the value has gone past [G_MAXUINT64], the digit loop only
    remembers that. *)
Lemma strtoull_digits_overflow (l : list byte) (acc : Z) :
  snd (strtoull_digits l acc true) = true.
Proof.
  induction l as [|b l IH]; [reflexivity|]. cbn.
  destruct (g_ascii_isdigit b); [exact IH|reflexivity].
Qed.

(** The digit loop on a run of digits followed by something else: the value
    of the run, capped at [G_MAXUINT64]. *)
Lemma strtoull_digits_run (digits tail : list byte) (acc : Z) :
  all_digit digits ->
  match tail with [] => True | h :: _ => g_ascii_isdigit h = false end ->
  0 <= acc <= G_MAXUINT64 ->
  (if snd (strtoull_digits (digits ++ tail) acc false)
   then G_MAXUINT64
   else fst (strtoull_digits (digits ++ tail) acc false))
  = Z.min (decimal_from acc digits) G_MAXUINT64.
Proof.
  intros Hd Ht. revert acc.
  induction Hd as [|b l Hb Hl IH]; intros acc Hacc.
  - unfold decimal_from. cbn [app fold_left].
    destruct tail as [|h t]; cbn [strtoull_digits]; [cbn [fst snd]; lia|].
    rewrite Ht. cbn [fst snd]. lia.
  - destruct (digit_facts b Hb) as [_ Hrange].
    cbn [app strtoull_digits decimal_from fold_left]. rewrite Hb.
    fold (decimal_from (acc * 10 + (code b - 48)) l). cbn [orb].
    destruct (Z.ltb_spec G_MAXUINT64 (acc * 10 + (code b - 48))) as [Hov|Hin].
    + rewrite strtoull_digits_overflow.
      pose proof (decimal_from_mono l (acc * 10 + (code b - 48)) Hl) as Hm.
      lia.
    + apply IH. lia.
Qed.

(** [g_ascii_strtoull] on skipped white space, a sign, a run of digits and
    whatever follows. *)
Lemma g_ascii_strtoull_parse (skipped : list byte) (sg : sign)
  (digits tail : list byte) :
  Forall (fun b => strtoull_isspace b = true) skipped ->
  all_digit digits -> number_ends sg digits tail ->
  g_ascii_strtoull (skipped ++ sign_bytes sg ++ digits ++ tail)
  = strtoull_value sg digits.
Proof.
  intros Hsk Hd He. unfold g_ascii_strtoull.
  rewrite strtoull_skip_app by exact Hsk.
  assert (Hrun : forall acc, 0 <= acc <= G_MAXUINT64 ->
             (if snd (strtoull_digits (digits ++ tail) acc false)
              then G_MAXUINT64
              else fst (strtoull_digits (digits ++ tail) acc false))
             = Z.min (decimal_from acc digits) G_MAXUINT64).
  { intros acc Hacc. apply strtoull_digits_run; auto.
    destruct tail; [exact I|apply He]. }
  specialize (Hrun 0). unfold G_MAXUINT64 in Hrun at 1.
  specialize (Hrun ltac:(lia)). fold (decimal digits) in Hrun.
  unfold strtoull_value.
  destruct sg;
    [change (sign_bytes NoSign) with (@nil byte)
    |change (sign_bytes PlusSign) with ["+"%byte]
    |change (sign_bytes MinusSign) with ["-"%byte]]; cbn [app].
  - (* no sign: the first byte is a digit, or the end of the number *)
    destruct digits as [|h t].
    + destruct tail as [|h t].
      * reflexivity.
      * destruct He as (Hnd & Hns). destruct (Hns eq_refl eq_refl)
          as (Hsp & Hplus & Hminus).
        cbn [app]. rewrite strtoull_skip_head by exact Hsp.
        destruct (Z.eqb_spec (code h) 45); [contradiction|].
        destruct (Z.eqb_spec (code h) 43); [contradiction|].
        cbn [app] in Hrun.
        destruct (strtoull_digits (h :: t) 0 false) as [acc ov].
        exact Hrun.
    + inversion Hd as [|? ? Hh _]; subst.
      destruct (digit_not_skipped h Hh) as (Hsp & Hplus & Hminus & _).
      cbn [app]. rewrite strtoull_skip_head by exact Hsp.
      destruct (Z.eqb_spec (code h) 45); [contradiction|].
      destruct (Z.eqb_spec (code h) 43); [contradiction|].
      cbn [app] in Hrun.
      destruct (strtoull_digits (h :: t ++ tail) 0 false) as [acc ov].
      exact Hrun.
  - (* plus *)
    rewrite strtoull_skip_head by reflexivity.
    change (code "+"%byte =? 45) with false.
    change (code "+"%byte =? 43) with true. cbv iota.
    destruct (strtoull_digits (digits ++ tail) 0 false) as [acc ov].
    exact Hrun.
  - (* minus *)
    rewrite strtoull_skip_head by reflexivity.
    change (code "-"%byte =? 45) with true. cbv iota.
    destruct (strtoull_digits (digits ++ tail) 0 false) as [acc ov].
    cbn [fst snd] in Hrun. now rewrite Hrun.
Qed.

(** C7 (as amended).  The value of a [content-length] line is not
    validated.  The value is read as [g_ascii_strtoull] reads it: white
    space, a sign, a run of digits, and whatever follows the digits is
    left unread.  When the value ends within the first 63 bytes of the
    line, the size becomes the offset plus the number read, in 64-bit
    arithmetic: 0 if there is no digit, [G_MAXUINT64] if the digits are
    too many, negated after a minus sign.  When the value ends later, the
    line is ignored. *)
Theorem content_length_value_not_validated :
  forall (name lead skipped : list byte) (sg : sign)
         (digits tail trail : list byte) (s : input_stream),
    names_header name "content-length" ->
    all_space lead -> all_space trail ->
    stripped (skipped ++ sign_bytes sg ++ digits ++ tail) ->
    skipped ++ sign_bytes sg ++ digits ++ tail <> [] \/ trail = [] ->
    Forall (fun b => strtoull_isspace b = true) skipped ->
    all_digit digits ->
    number_ends sg digits tail ->
    ((length name + 1 + length lead
      + length (skipped ++ sign_bytes sg ++ digits ++ tail) < 64)%nat ->
     input_curl_headerfunction
       (name ++ ":"%byte
          :: lead ++ (skipped ++ sign_bytes sg ++ digits ++ tail) ++ trail) s
     = set_size (to_off_t (is_offset s + strtoull_value sg digits)) s)
    /\ ((64 <= length name + 1 + length lead
               + length (skipped ++ sign_bytes sg ++ digits ++ tail))%nat ->
        input_curl_headerfunction
          (name ++ ":"%byte
             :: lead ++ (skipped ++ sign_bytes sg ++ digits ++ tail) ++ trail)
          s
        = s).
Proof.
  intros name lead skipped sg digits tail trail s
         Hn Hlead Htrail Hv Hne Hsk Hd He.
  pose proof (content_length_line name lead _ trail s Hn Hlead Htrail Hv Hne)
    as Hline.
  split; intros Hlen; rewrite Hline.
  - destruct (Nat.leb_spec 64
                (length name + 1 + length lead
                 + length (skipped ++ sign_bytes sg ++ digits ++ tail)));
      [lia|].
    (* the C string ends at the first NUL, which lies in [tail] *)
    assert (Hcstr : c_str (skipped ++ sign_bytes sg ++ digits ++ tail)
                    = skipped ++ sign_bytes sg ++ digits ++ c_str tail).
    { rewrite c_str_app.
      2:{ eapply Forall_impl; [|exact Hsk]. intros b Hb.
          unfold strtoull_isspace, g_ascii_isspace in Hb. lia. }
      rewrite c_str_app by (destruct sg; repeat constructor; discriminate).
      rewrite c_str_app; [reflexivity|].
      eapply Forall_impl; [|exact Hd]. intros b Hb.
      now apply digit_not_skipped. }
    rewrite Hcstr, g_ascii_strtoull_parse; auto.
    destruct tail as [|h t]; [exact I|]. cbn [c_str].
    destruct (Z.eqb_spec (code h) 0); [exact I|]. exact He.
  - destruct (Nat.leb_spec 64
                (length name + 1 + length lead
                 + length (skipped ++ sign_bytes sg ++ digits ++ tail)));
      [reflexivity|lia].
Qed.

Lemma content_length_value_not_validated_witness :
  input_curl_headerfunction
    (bytes "Content-Length: 12abc" ++ [x0d; x0a])
    (set_offset 1000 (new_stream plain_url))
  = set_size 1012 (set_offset 1000 (new_stream plain_url))
  /\ input_curl_headerfunction
       (bytes "Content-Length: -5" ++ [x0d; x0a])
       (set_offset 1000 (new_stream plain_url))
     = set_size 995 (set_offset 1000 (new_stream plain_url))
  /\ input_curl_headerfunction
       (bytes "Content-Length: 1 2" ++ [x0d; x0a])
       (set_offset 1000 (new_stream plain_url))
     = set_size 1001 (set_offset 1000 (new_stream plain_url))
  /\ input_curl_headerfunction
       (bytes "Content-Length: 99999999999999999999" ++ [x0d; x0a])
       (set_offset 1000 (new_stream plain_url))
     = set_size 999 (set_offset 1000 (new_stream plain_url)).
Proof.
  split; [|split; [|split]].
  - apply (content_length_value_not_validated
             (bytes "Content-Length") (bytes " ") [] NoSign
             (bytes "12") (bytes "abc") [x0d; x0a]
             (set_offset 1000 (new_stream plain_url))).
    + reflexivity.
    + repeat constructor.
    + repeat constructor.
    + vm_compute. split; reflexivity.
    + left. discriminate.
    + constructor.
    + repeat constructor.
    + vm_compute. split; [reflexivity|]. intros _ H. discriminate H.
    + cbn. lia.
  - apply (content_length_value_not_validated
             (bytes "Content-Length") (bytes " ") [] MinusSign
             (bytes "5") [] [x0d; x0a]
             (set_offset 1000 (new_stream plain_url))).
    + reflexivity.
    + repeat constructor.
    + repeat constructor.
    + vm_compute. split; reflexivity.
    + left. discriminate.
    + constructor.
    + repeat constructor.
    + exact I.
    + cbn. lia.
  - apply (content_length_value_not_validated
             (bytes "Content-Length") (bytes " ") [] NoSign
             (bytes "1") (bytes " 2") [x0d; x0a]
             (set_offset 1000 (new_stream plain_url))).
    + reflexivity.
    + repeat constructor.
    + repeat constructor.
    + vm_compute. split; reflexivity.
    + left. discriminate.
    + constructor.
    + repeat constructor.
    + vm_compute. split; [reflexivity|]. intros _ H. discriminate H.
    + cbn. lia.
  - apply (content_length_value_not_validated
             (bytes "Content-Length") (bytes " ") [] NoSign
             (bytes "99999999999999999999") [] [x0d; x0a]
             (set_offset 1000 (new_stream plain_url))).
    + reflexivity.
    + repeat constructor.
    + repeat constructor.
    + vm_compute. split; reflexivity.
    + left. discriminate.
    + constructor.
    + repeat constructor.
    + exact I.
    + cbn. lia.
Defined.

(** C7, counterexample.  At offset 1000 with the size not known, the line
    [Content-Length: abc] sets the size to 1000. *)
Lemma malformed_content_length_changes_size :
  let s := set_offset 1000 (new_stream plain_url) in
  is_size s = -1
  /\ is_size (input_curl_headerfunction
                (bytes "Content-Length: abc" ++ [x0d; x0a]) s) = 1000.
Proof. vm_compute. split; reflexivity. Qed.

(** X19.  A line whose name is [content-type] in any letter case stores
    its value as the MIME type, with the white space ([g_ascii_isspace])
    before and after it removed, whatever its length; what is stored is a
    C string, so a value with a NUL byte is stored up to that byte.
    Nothing else changes. *)
Theorem content_type_sets_mime :
  forall (name lead value trail : list byte) (s : input_stream),
    names_header name "content-type" ->
    all_space lead -> all_space trail -> stripped value ->
    input_curl_headerfunction (name ++ ":"%byte :: lead ++ value ++ trail) s
    = set_mime (Some (c_str value)) s.
Proof.
  intros name lead value trail s Hn Hlead Htrail Hv.
  assert (Hc : Forall (fun z => z <> 58 /\ z <> 0)
                 (map code (bytes "content-type")))
    by (vm_compute; repeat constructor; discriminate).
  destruct (names_header_bytes name _ Hn Hc) as [Hcolon Hnul].
  pose proof (names_header_length name _ Hn) as Hlen.
  rewrite headerfunction_named; auto; [|rewrite Hlen; cbn; lia].
  cbv zeta.
  rewrite (names_header_compare name _ "accept-ranges" Hn Hc).
  rewrite (names_header_compare name _ "content-length" Hn Hc).
  rewrite (names_header_compare name _ "content-type" Hn Hc).
  rewrite (strip_value lead value trail Hlead Htrail Hv).
  reflexivity.
Qed.

Lemma content_type_sets_mime_witness :
  input_curl_headerfunction
    (bytes "Content-Type" ++ ":"%byte
       :: bytes "  " ++ bytes "audio/mpeg" ++ [x0d; x0a])
    (new_stream plain_url)
  = set_mime (Some (bytes "audio/mpeg")) (new_stream plain_url).
Proof.
  apply (content_type_sets_mime (bytes "Content-Type") (bytes "  ")
           (bytes "audio/mpeg") [x0d; x0a] (new_stream plain_url)).
  - reflexivity.
  - repeat constructor.
  - repeat constructor.
  - vm_compute. split; reflexivity.
Defined.

(** X20.  A line whose name is [icy-name], [ice-name] or
    [x-audiocast-name] in any letter case stores its value, with the white
    space ([g_ascii_isspace]) before and after it removed, as the stream's
    name, replacing an earlier one; a value with a NUL byte is stored up
    to that byte.  Nothing else changes. *)
Theorem stream_name_headers_set_meta_name :
  forall (name lead value trail : list byte) (s : input_stream),
    names_header name "icy-name" \/ names_header name "ice-name"
    \/ names_header name "x-audiocast-name" ->
    all_space lead -> all_space trail -> stripped value ->
    input_curl_headerfunction (name ++ ":"%byte :: lead ++ value ++ trail) s
    = set_meta_name (Some (c_str value)) s.
Proof.
  intros name lead value trail s Hn Hlead Htrail Hv.
  assert (Hgen : forall literal,
             names_header name literal ->
             Forall (fun z => z <> 58 /\ z <> 0) (map code (bytes literal)) ->
             (length (bytes literal) < 64)%nat ->
             codes_eqb (map code (bytes literal))
               (map lower_code (c_str (bytes "accept-ranges"))) = false ->
             codes_eqb (map code (bytes literal))
               (map lower_code (c_str (bytes "content-length"))) = false ->
             codes_eqb (map code (bytes literal))
               (map lower_code (c_str (bytes "content-type"))) = false ->
             codes_eqb (map code (bytes literal))
               (map lower_code (c_str (bytes "icy-name")))
             || codes_eqb (map code (bytes literal))
                  (map lower_code (c_str (bytes "ice-name")))
             || codes_eqb (map code (bytes literal))
                  (map lower_code (c_str (bytes "x-audiocast-name")))
             = true ->
             input_curl_headerfunction
               (name ++ ":"%byte :: lead ++ value ++ trail) s
             = set_meta_name (Some (c_str value)) s).
  { intros literal Hl Hc Hlen H1 H2 H3 H4.
    destruct (names_header_bytes name _ Hl Hc) as [Hcolon Hnul].
    pose proof (names_header_length name _ Hl) as Hlen'.
    rewrite headerfunction_named; auto; [|lia].
    cbv zeta.
    rewrite (names_header_compare name _ "accept-ranges" Hl Hc), H1.
    rewrite (names_header_compare name _ "content-length" Hl Hc), H2.
    rewrite (names_header_compare name _ "content-type" Hl Hc), H3.
    rewrite (names_header_compare name _ "icy-name" Hl Hc).
    rewrite (names_header_compare name _ "ice-name" Hl Hc).
    rewrite (names_header_compare name _ "x-audiocast-name" Hl Hc), H4.
    rewrite (strip_value lead value trail Hlead Htrail Hv).
    reflexivity. }
  destruct Hn as [Hn|[Hn|Hn]].
  - apply (Hgen "icy-name"%string Hn);
      try reflexivity; [vm_compute; repeat constructor; discriminate|cbn; lia].
  - apply (Hgen "ice-name"%string Hn);
      try reflexivity; [vm_compute; repeat constructor; discriminate|cbn; lia].
  - apply (Hgen "x-audiocast-name"%string Hn);
      try reflexivity; [vm_compute; repeat constructor; discriminate|cbn; lia].
Qed.

Lemma stream_name_headers_set_meta_name_witness :
  input_curl_headerfunction
    (bytes "ICY-Name" ++ ":"%byte
       :: bytes " " ++ bytes "Radio One" ++ [x0d; x0a])
    (set_meta_name (Some (bytes "old")) (new_stream plain_url))
  = set_meta_name (Some (bytes "Radio One"))
      (set_meta_name (Some (bytes "old")) (new_stream plain_url)).
Proof.
  apply (stream_name_headers_set_meta_name (bytes "ICY-Name") (bytes " ")
           (bytes "Radio One") [x0d; x0a]
           (set_meta_name (Some (bytes "old")) (new_stream plain_url))).
  - left. reflexivity.
  - repeat constructor.
  - repeat constructor.
  - vm_compute. split; reflexivity.
Defined.

(** X21.  A line without a colon, and a line whose first colon comes
    after 64 bytes or more, are ignored: the stream is unchanged. *)
Theorem header_line_ignored :
  forall (header : list byte) (s : input_stream),
    Forall (fun b => b <> ":"%byte) header
    \/ (exists name rest,
           header = name ++ ":"%byte :: rest
           /\ Forall (fun b => b <> ":"%byte) name
           /\ (64 <= length name)%nat) ->
    input_curl_headerfunction header s = s.
Proof.
  intros header s [Hno|(name & rest & -> & Hname & Hlen)];
    unfold input_curl_headerfunction.
  - now rewrite memchr_none.
  - rewrite memchr_app by exact Hname.
    destruct (Nat.leb_spec 64 (length name)); [reflexivity|lia].
Qed.

Lemma header_line_ignored_witness :
  input_curl_headerfunction (bytes "HTTP/1.1 200 OK") (new_stream plain_url)
  = new_stream plain_url
  /\ input_curl_headerfunction
       (repeat "a"%byte 64 ++ ":"%byte :: bytes " 1")
       (new_stream plain_url)
     = new_stream plain_url.
Proof.
  split.
  - apply (header_line_ignored (bytes "HTTP/1.1 200 OK")
             (new_stream plain_url)).
    left. repeat constructor; discriminate.
  - apply (header_line_ignored (repeat "a"%byte 64 ++ ":"%byte :: bytes " 1")
             (new_stream plain_url)).
    right. exists (repeat "a"%byte 64), (bytes " 1").
    split; [reflexivity|]. split; [|cbn; lia].
    repeat constructor; discriminate.
Defined.

(** X22.  Whatever the line, the header callback changes neither the
    plugin's data (both buffer lists, [eof], the handle) nor the offset
    nor the error. *)
Theorem header_callback_keeps_data_and_offset :
  forall (header : list byte) (s : input_stream),
    is_data (input_curl_headerfunction header s) = is_data s
    /\ is_offset (input_curl_headerfunction header s) = is_offset s
    /\ is_error (input_curl_headerfunction header s) = is_error s.
Proof. intros header s. apply headerfunction_core. Qed.

(** ** Reading and pumping together *)

Lemma buffer_fed (e : engine) (s : input_stream) :
  exists used,
    performs e = used ++ performs (out_engine (input_curl_buffer e s))
    /\ fed used s (out_stream (input_curl_buffer e s)).
Proof.
  unfold input_curl_buffer.
  destruct (perform_loop_core
              (fun mcode s1 => (mcode =? CURLM_CALL_MULTI_PERFORM)
                               && is_empty (c_buffers (is_data s1)))
              (length (performs e)) e (on_data (set_c_buffered false) s))
    as (used & Hu & Hfed & _).
  cbv zeta in Hfed, Hu. exists used.
  assert (Hfed' : fed used s
                    (out_stream
                       (perform_loop
                          (fun mcode s1 =>
                             (mcode =? CURLM_CALL_MULTI_PERFORM)
                             && is_empty (c_buffers (is_data s1)))
                          (length (performs e)) e
                          (on_data (set_c_buffered false) s))))
    by exact Hfed.
  clear Hfed.
  destruct (perform_loop _ _ e _) as [e1 s1 mcode|e1 s1];
    cbn [out_engine out_stream] in *; [|auto].
  destruct (negb (mcode =? CURLM_OK)
            && negb (mcode =? CURLM_CALL_MULTI_PERFORM)).
  { cbn [out_engine out_stream]. split; [exact Hu|].
    destruct Hfed' as (B & R & O & Y). unfold fed. cbn. auto. }
  destruct (input_curl_multi_info_read e1 s1) as [[e2 s2] ret] eqn:Hi.
  apply info_read_core in Hi. destruct Hi as (Hp2 & _ & _ & Hf2 & _).
  pose proof (fed_trans _ _ _ _ _ Hfed' Hf2) as Hf3.
  rewrite app_nil_r in Hf3.
  destruct ret; cbn [negb out_engine out_stream]; split; congruence || auto.
Qed.

(** X23.  In any sequence of [read] and [buffer] calls, no byte is lost,
    repeated or reordered: the bytes returned by the [read] calls, followed
    by the bytes still queued, are the bytes queued at the start followed
    by the bytes that the engine delivered during the calls; and the
    offset has advanced by the number of bytes returned. *)
Theorem reads_and_pumps_conserve_bytes :
  forall (e : engine) (s : input_stream) (ops : list operation),
    Forall no_seek ops ->
    exists used,
      performs e = used ++ performs (snd (fst (run_collect e s ops)))
      /\ concat (fst (fst (run_collect e s ops)))
           ++ unread (snd (run_collect e s ops))
         = unread s ++ delivered used
      /\ is_offset (snd (run_collect e s ops))
         = is_offset s
           + Z.of_nat (length (concat (fst (fst (run_collect e s ops))))).
Proof.
  intros e s ops Hops. revert e s.
  induction Hops as [|op rest Hop _ IH]; intros e s.
  - exists []. cbn. rewrite app_nil_r. repeat split; lia.
  - cbn [run_collect].
    assert (Hstep :
      exists used out,
        performs e = used ++ performs (fst (fst (run_operation e s op)))
        /\ out = match op with
                 | OpRead size => [out_bytes (input_curl_read e s size)]
                 | _ => []
                 end
        /\ concat out ++ unread (snd (fst (run_operation e s op)))
           = unread s ++ delivered used
        /\ is_offset (snd (fst (run_operation e s op)))
           = is_offset s + Z.of_nat (length (concat out))).
    { destruct op as [size| |offset whence]; [| |contradiction];
        cbn [run_operation].
      - destruct (input_curl_read_conserves e s size) as (u & Hp & Hb & Ho).
        cbv zeta in *. exists u, [out_bytes (input_curl_read e s size)].
        cbn [concat]. rewrite app_nil_r.
        destruct (input_curl_read e s size); cbn in *; auto.
      - destruct (buffer_fed e s) as (u & Hp & Hfed).
        pose proof (fed_unread _ _ _ Hfed) as Hun.
        destruct Hfed as (_ & _ & O & _). exists u, [].
        destruct (input_curl_buffer e s); cbn in *;
          repeat split; auto; lia. }
    destruct Hstep as (u1 & out & Hp1 & Hout & Hb1 & Ho1).
    rewrite <- Hout.
    destruct (run_operation e s op) as [[e1 s1] returned].
    cbn [fst snd] in *.
    destruct returned.
    + destruct (IH e1 s1) as (u2 & Hp2 & Hb2 & Ho2).
      destruct (run_collect e1 s1 rest) as [[outs e2] s2].
      cbn [fst snd] in *. exists (u1 ++ u2).
      split; [now rewrite Hp1, Hp2, app_assoc|]. split.
      * unfold delivered in *. rewrite map_app, concat_app.
        rewrite concat_app, <- app_assoc, Hb2, !app_assoc. f_equal.
        exact Hb1.
      * rewrite Ho2, Ho1, concat_app, length_app. lia.
    + exists u1. cbn [fst snd]. auto.
Qed.

Lemma reads_and_pumps_conserve_bytes_witness :
  let o := input_curl_open true chunked_engine plain_url in
  exists used,
    performs (out_engine o)
    = used ++ performs (snd (fst (run_collect (out_engine o) (out_stream o)
                                    [OpBuffer; OpRead 2; OpRead 4])))
    /\ concat (fst (fst (run_collect (out_engine o) (out_stream o)
                           [OpBuffer; OpRead 2; OpRead 4])))
         ++ unread (snd (run_collect (out_engine o) (out_stream o)
                           [OpBuffer; OpRead 2; OpRead 4]))
       = unread (out_stream o) ++ delivered used
    /\ is_offset (snd (run_collect (out_engine o) (out_stream o)
                         [OpBuffer; OpRead 2; OpRead 4]))
       = is_offset (out_stream o)
         + Z.of_nat
             (length
                (concat (fst (fst (run_collect (out_engine o) (out_stream o)
                                     [OpBuffer; OpRead 2; OpRead 4]))))).
Proof.
  cbv zeta.
  apply (reads_and_pumps_conserve_bytes
           (out_engine (input_curl_open true chunked_engine plain_url))
           (out_stream (input_curl_open true chunked_engine plain_url))
           [OpBuffer; OpRead 2; OpRead 4]).
  repeat constructor.
Defined.

(** ** The fill loop, reply by reply *)

Lemma select_pending (e e1 : engine) (ret : Z) :
  input_curl_select e = Some (e1, ret) -> pending e1 = pending e.
Proof.
  unfold input_curl_select. destruct (selects e) as [|r rest]; [discriminate|].
  intros H. destruct r; inversion H; subst; reflexivity.
Qed.

Lemma perform_pending (e e' : engine) (s s' : input_stream) (mcode : Z) :
  curl_multi_perform e s = Some (e', s', mcode) ->
  exists p, performs e = p :: performs e' /\ mcode = pr_mcode p
            /\ pending e' = pending e ++ pr_msgs p.
Proof.
  unfold curl_multi_perform. destruct (performs e) as [|p rest]; [discriminate|].
  intros H; inversion H; subst. exists p. auto.
Qed.

Lemma info_read_pending (e e' : engine) (s s' : input_stream) (ret : bool) :
  input_curl_multi_info_read e s = (e', s', ret) ->
  ret = negb (existsb is_failed_done (pending e))
  /\ (ret = true -> pending e' = []).
Proof.
  unfold input_curl_multi_info_read.
  pose proof (info_read_loop_spec (pending e) s) as H. cbv zeta in H.
  destruct (info_read_loop (pending e) s) as [[queue s1] r].
  cbn [fst snd] in H. intros E; inversion E; subst; clear E.
  destruct H as [H1 H2]. split; [exact H1|].
  intros ->. cbn. apply H2.
Qed.

Lemma seen_messages_fresh (e : engine) (used : list perform_reply) :
  pending e = [] ->
  existsb is_failed_done (seen_messages e used)
  = existsb is_failed_done (concat (map pr_msgs used)).
Proof.
  intros H. unfold seen_messages. rewrite H. destruct used; reflexivity.
Qed.

Lemma seen_messages_cons (e : engine) (p : perform_reply)
  (used : list perform_reply) :
  existsb is_failed_done (seen_messages e (p :: used))
  = existsb is_failed_done (pending e ++ pr_msgs p)
    || existsb is_failed_done (concat (map pr_msgs used)).
Proof.
  unfold seen_messages. cbn [map concat].
  now rewrite app_assoc, existsb_app.
Qed.

(** The fill loop after one more poll that neither failed nor brought a
    failure report. *)
Lemma fill_ended_step (e e3 : engine) (s s3 : input_stream)
  (p : perform_reply) (w0 waited : list select_reply)
  (used : list perform_reply) (o : outcome bool) :
  perform_failed p = false ->
  forallb select_ready w0 = true ->
  existsb is_failed_done (pending e ++ pr_msgs p) = false ->
  pending e3 = [] -> is_error s3 = is_error s ->
  fill_ended e3 s3 used waited o ->
  fill_ended e s (p :: used) (w0 ++ waited) o.
Proof.
  intros Hp Hw0 Hm Hq Herr H.
  assert (Hseen : forall u,
             existsb is_failed_done (seen_messages e (p :: u))
             = existsb is_failed_done (seen_messages e3 u)).
  { intros u. now rewrite seen_messages_cons, Hm, seen_messages_fresh. }
  unfold fill_ended in *.
  destruct H as [(A & B & C & D)
                |[(w & r & A & B & C & D & E & F & G & I & J)
                 |[(u & q & A & B & C & D & E & F & G & I)
                  |(A & B & C & D & E & F)]]].
  - left. rewrite forallb_app, Hw0, B, Hseen, D. cbn. rewrite Hp, C.
    repeat split; auto.
  - right; left. exists (w0 ++ w), r.
    rewrite forallb_app, Hw0, B, Hseen, E, A, app_assoc. cbn.
    rewrite Hp, D. repeat split; auto. congruence.
  - right; right; left. exists (p :: u), q.
    rewrite forallb_app, Hw0, E, Hseen, D, A. cbn. rewrite Hp, C.
    repeat split; auto. congruence.
  - right; right; right.
    rewrite forallb_app, Hw0, C, Hseen, B. cbn. rewrite Hp, A.
    repeat split; auto.
Qed.

(** Every way the fill loop can end, with the replies it took from the
    engine. *)
Lemma read_fill_ends (fuel : nat) (mcode : Z) (e : engine)
  (s : input_stream) :
  exists used waited,
    performs e = used ++ performs (out_engine (read_fill fuel mcode e s))
    /\ selects e = waited ++ selects (out_engine (read_fill fuel mcode e s))
    /\ fill_ended e s used waited (read_fill fuel mcode e s).
Proof.
  revert mcode e s. induction fuel as [|fuel IH]; intros mcode e s.
  - exists [], []. cbn.
    destruct (negb (c_eof (is_data s)) && is_empty (c_buffers (is_data s)));
      cbn; (split; [reflexivity|]); (split; [reflexivity|]);
      left; repeat split; auto; discriminate.
  - rewrite read_fill_step.
    destruct (negb (c_eof (is_data s))
              && is_empty (c_buffers (is_data s))) eqn:Hc.
    2:{ exists [], []. cbn. split; [reflexivity|]. split; [reflexivity|].
        left. repeat split; auto; discriminate. }
    assert (Hact : c_eof (is_data s) = false /\ c_buffers (is_data s) = []).
    { apply andb_true_iff in Hc. destruct Hc as [H1 H2].
      apply negb_true_iff in H1.
      destruct (c_buffers (is_data s)); [auto|discriminate]. }
    (* the poll, from an engine [e1] reached after the waits [w0] *)
    assert (Hpoll : forall e1 w0,
               performs e1 = performs e -> pending e1 = pending e ->
               selects e = w0 ++ selects e1 ->
               forallb select_ready w0 = true ->
               exists used waited,
                 performs e
                 = used ++ performs (out_engine (fill_poll (read_fill fuel) e1 s))
                 /\ selects e
                    = waited
                      ++ selects (out_engine (fill_poll (read_fill fuel) e1 s))
                 /\ fill_ended e s used waited
                      (fill_poll (read_fill fuel) e1 s)).
    { intros e1 w0 Hp Hq Hs Hw0. unfold fill_poll.
      destruct (curl_multi_perform e1 s) as [[[e2 s2] mcode2]|] eqn:Hperf.
      2:{ exists [], w0. cbn. split; [now rewrite Hp|]. split; [exact Hs|].
          left. repeat split; auto. discriminate. }
      pose proof (perform_pending _ _ _ _ _ Hperf) as (p & Hp2 & Hm & Hq2).
      apply perform_core in Hperf.
      destruct Hperf as (p' & Hp2' & _ & _ & Hs2 & _ & Heof2 & Herr2).
      fold (perform_failed p) in *.
      assert (Hfail : negb (mcode2 =? CURLM_OK)
                      && negb (mcode2 =? CURLM_CALL_MULTI_PERFORM)
                      = perform_failed p)
        by (unfold perform_failed; now rewrite Hm).
      rewrite Hfail. destruct (perform_failed p) eqn:Hpf.
      { exists [p], w0. cbn.
        split; [now rewrite <- Hp, Hp2|]. split; [now rewrite Hs2|].
        right; right; left. exists [], p. cbn. repeat split; auto. }
      destruct (input_curl_multi_info_read e2 s2) as [[e3 s3] bret] eqn:Hinfo.
      pose proof (info_read_pending _ _ _ _ _ Hinfo) as (Hret & Hq3).
      apply info_read_core in Hinfo.
      destruct Hinfo as (Hp3 & _ & Hs3 & _ & Hbad & Hgood & _).
      rewrite Hq2, Hq in Hret.
      destruct bret; cbn [negb].
      - destruct (IH mcode2 e3 s3) as (used & waited & Hu & Hw & Hend).
        exists (p :: used), (w0 ++ waited).
        split; [cbn; rewrite <- Hu, Hp3, <- Hp2; congruence|].
        split; [rewrite <- app_assoc, <- Hw, Hs3, Hs2; exact Hs|].
        apply (fill_ended_step e e3 s s3); auto.
        + symmetry in Hret. now apply negb_true_iff in Hret.
        + rewrite (Hgood eq_refl). exact Herr2.
      - exists [p], w0. cbn.
        split; [cbn; rewrite Hp3, <- Hp2; congruence|].
        split; [rewrite Hs3, Hs2; exact Hs|].
        destruct (Hbad eq_refl) as [He3 Hx3].
        right; right; right. rewrite seen_messages_cons. cbn.
        symmetry in Hret. apply negb_false_iff in Hret.
        rewrite Hpf, Hret. repeat split; auto. }
    destruct (negb (mcode =? CURLM_CALL_MULTI_PERFORM)).
    + destruct (input_curl_select e) as [[e1 ret]|] eqn:Hsel.
      2:{ exists [], []. cbn. split; [reflexivity|]. split; [reflexivity|].
          left. repeat split; auto. discriminate. }
      pose proof (select_pending _ _ _ Hsel) as Hq.
      apply select_core in Hsel. destruct Hsel as (r & Hs & Hr & Hp & _).
      destruct (Z.leb_spec ret 0) as [Hle|Hgt].
      * exists [], [r]. cbn. split; [now rewrite Hp|]. split; [exact Hs|].
        right; left. exists [], r. destruct Hact. cbn.
        repeat split; auto. unfold select_ready. apply Z.ltb_ge. lia.
      * apply (Hpoll e1 [r]); auto. cbn. unfold select_ready.
        rewrite andb_true_r. apply Z.ltb_lt. lia.
    + apply (Hpoll e []); auto.
Qed.

(** A fill loop that was not left normally had been entered: the stream
    was active with nothing queued. *)
Lemma read_fill_entered (fuel : nat) (mcode : Z) (e : engine)
  (s : input_stream) :
  out_value (read_fill fuel mcode e s) <> Some true
  \/ performs (out_engine (read_fill fuel mcode e s)) <> performs e ->
  c_eof (is_data s) = false /\ c_buffers (is_data s) = [].
Proof.
  intros H.
  destruct (negb (c_eof (is_data s)) && is_empty (c_buffers (is_data s)))
    eqn:Hc.
  - apply andb_true_iff in Hc. destruct Hc as [H1 H2].
    apply negb_true_iff in H1.
    destruct (c_buffers (is_data s)); [auto|discriminate].
  - rewrite read_fill_ready in H by exact Hc. cbn in H.
    destruct H as [H|H]; congruence.
Qed.

(** [read] in terms of its fill loop. *)
Lemma read_of_fill (e : engine) (s : input_stream) (size : nat) :
  out_engine (input_curl_read e s size)
  = out_engine (read_fill (S (length (performs e)))
                  CURLM_CALL_MULTI_PERFORM e s)
  /\ (out_value (read_fill (S (length (performs e)))
                   CURLM_CALL_MULTI_PERFORM e s) = Some false ->
      input_curl_read e s size
      = Returns (out_engine (input_curl_read e s size))
          (out_stream (read_fill (S (length (performs e)))
                         CURLM_CALL_MULTI_PERFORM e s)) []).
Proof.
  rewrite input_curl_read_unfold.
  destruct (read_fill _ _ e s) as [e1 s1 [|]|e1 s1]; cbn;
    split; auto; discriminate.
Qed.

(** C1.  For every sequence of [read] calls, with any requested sizes and
    any chunks delivered by the engine: the results, concatenated and
    followed by what is still queued, are the bytes that were queued at the
    start followed by the bytes the engine delivered meanwhile, in order;
    and the offset has advanced by the number of bytes returned, for the
    whole sequence and for each single [read].  Each single [read] hands
    out what there is: it returns the first [size] bytes of what was queued
    followed by what the engine delivered during the call, and leaves the
    rest queued; the only calls that return nothing of what has been
    delivered are those that end inside the fill loop (the engine has no
    further reply, a failure was reported, or the wait gave up), which
    started with nothing queued and leave all that was delivered queued
    for the next call. *)
Theorem read_sequence_reproduces_delivery :
  (forall (e : engine) (s : input_stream) (sizes : list nat),
      exists used,
        performs e = used ++ performs (snd (fst (run_reads e s sizes)))
        /\ concat (fst (fst (run_reads e s sizes)))
             ++ unread (snd (run_reads e s sizes))
           = unread s ++ delivered used
        /\ is_offset (snd (run_reads e s sizes))
           = is_offset s
             + Z.of_nat (length (concat (fst (fst (run_reads e s sizes))))))
  /\ (forall (e : engine) (s : input_stream) (size : nat),
         is_offset (out_stream (input_curl_read e s size))
         = is_offset s
           + Z.of_nat (length (out_bytes (input_curl_read e s size))))
  /\ (forall (e : engine) (s : input_stream) (size : nat),
         exists used,
           performs e = used ++ performs (out_engine (input_curl_read e s size))
           /\ ((exists e' s',
                   input_curl_read e s size
                   = Returns e' s' (firstn size (unread s ++ delivered used))
                   /\ unread s' = skipn size (unread s ++ delivered used))
               \/ (out_bytes (input_curl_read e s size) = []
                   /\ c_eof (is_data s) = false
                   /\ c_buffers (is_data s) = []
                   /\ unread (out_stream (input_curl_read e s size))
                      = delivered used
                   /\ (out_value (input_curl_read e s size) = None
                       \/ c_eof (is_data (out_stream (input_curl_read e s size)))
                          = true
                       \/ exists waited r,
                            selects e
                            = waited ++ r
                              :: selects (out_engine (input_curl_read e s size))
                            /\ select_value r <= 0)))).
Proof.
  split; [|split].
  - intros e s sizes. revert e s.
    induction sizes as [|size rest IH]; intros e s.
    + exists []. cbn. rewrite app_nil_r. split; [reflexivity|].
      split; [reflexivity|lia].
    + cbn [run_reads].
      destruct (input_curl_read_conserves e s size) as (u1 & Hp1 & Hb1 & Ho1).
      cbv zeta in *.
      destruct (input_curl_read e s size) as [e1 s1 out|e1 s1]; cbn in *.
      * destruct (IH e1 s1) as (u2 & Hp2 & Hb2 & Ho2).
        destruct (run_reads e1 s1 rest) as [[outs e2] s2]. cbn in *.
        exists (u1 ++ u2). split; [now rewrite Hp1, Hp2, app_assoc|]. split.
        -- unfold delivered in *. rewrite map_app, concat_app.
           rewrite <- app_assoc, Hb2, !app_assoc. f_equal. exact Hb1.
        -- rewrite Ho2, Ho1, length_app. lia.
      * exists u1. auto.
  - intros e s size.
    destruct (input_curl_read_conserves e s size) as (u & _ & _ & H). exact H.
  - intros e s size.
    pose proof (read_fill_entered (S (length (performs e)))
                  CURLM_CALL_MULTI_PERFORM e s) as Hent.
    destruct (read_fill_core (S (length (performs e)))
                CURLM_CALL_MULTI_PERFORM e s)
      as ((used & Hu & Hfed) & _ & _ & Hend).
    rewrite input_curl_read_unfold.
    exists used.
    destruct (read_fill _ _ e s) as [e1 s1 [|]|e1 s1]; cbn in *.
    + split; [exact Hu|]. left.
      destruct (read_send_spec s1 size) as (Ho & Hun & _).
      cbv zeta in *. exists e1, (fst (read_send s1 size)).
      rewrite <- (fed_unread _ _ _ Hfed), Ho, Hun. auto.
    + split; [exact Hu|]. right.
      destruct Hent as [He Hb]; [left; discriminate|].
      pose proof (fed_unread _ _ _ Hfed) as Hun.
      unfold unread at 2, unread_c in Hun. rewrite Hb in Hun.
      repeat split; auto.
      destruct Hend as [Hend|(_ & _ & Hend)]; auto.
    + split; [exact Hu|]. right.
      destruct Hent as [He Hb]; [left; discriminate|].
      pose proof (fed_unread _ _ _ Hfed) as Hun.
      unfold unread at 2, unread_c in Hun. rewrite Hb in Hun.
      repeat split; auto.
Qed.

(** The replies that a call of [read] took from the engine, and how its
    fill loop ended. *)
Lemma read_ends (e : engine) (s : input_stream) (size : nat) :
  exists used waited,
    performs e = used ++ performs (out_engine (input_curl_read e s size))
    /\ selects e = waited ++ selects (out_engine (input_curl_read e s size))
    /\ fill_ended e s used waited
         (read_fill (S (length (performs e))) CURLM_CALL_MULTI_PERFORM e s)
    /\ fed used s (out_stream (read_fill (S (length (performs e)))
                                 CURLM_CALL_MULTI_PERFORM e s)).
Proof.
  destruct (read_of_fill e s size) as [He _]. rewrite He.
  destruct (read_fill_ends (S (length (performs e)))
              CURLM_CALL_MULTI_PERFORM e s)
    as (used & waited & Hu & Hw & Hend).
  destruct (read_fill_core (S (length (performs e)))
              CURLM_CALL_MULTI_PERFORM e s)
    as ((used' & Hu' & Hfed) & _).
  cbv zeta in *.
  assert (Heq : used' ++ performs (out_engine
                          (read_fill (S (length (performs e)))
                             CURLM_CALL_MULTI_PERFORM e s))
                = used ++ performs (out_engine
                            (read_fill (S (length (performs e)))
                               CURLM_CALL_MULTI_PERFORM e s)))
    by congruence.
  apply app_inv_tail in Heq. subst used'.
  exists used, waited. auto.
Qed.

(** The same, for the replies [used] that the call is known to have
    polled with. *)
Lemma read_ends_with (e : engine) (s : input_stream) (size : nat)
  (used : list perform_reply) :
  performs e = used ++ performs (out_engine (input_curl_read e s size)) ->
  exists waited,
    fill_ended e s used waited
      (read_fill (S (length (performs e))) CURLM_CALL_MULTI_PERFORM e s)
    /\ fed used s (out_stream (read_fill (S (length (performs e)))
                                 CURLM_CALL_MULTI_PERFORM e s)).
Proof.
  intros Hu.
  destruct (read_ends e s size) as (used' & waited & Hu' & _ & Hend & Hfed).
  assert (Heq : used' ++ performs (out_engine (input_curl_read e s size))
                = used ++ performs (out_engine (input_curl_read e s size)))
    by congruence.
  apply app_inv_tail in Heq. subst used'. exists waited. auto.
Qed.

(** The replies that a call polled with are none unless the call found
    the stream active with nothing queued. *)
Lemma read_polled (e : engine) (s : input_stream) (size : nat)
  (used : list perform_reply) :
  performs e = used ++ performs (out_engine (input_curl_read e s size)) ->
  used <> [] ->
  unread s = [].
Proof.
  intros Hu Hne.
  destruct (read_of_fill e s size) as [He _]. rewrite He in Hu.
  destruct (read_fill_entered (S (length (performs e)))
              CURLM_CALL_MULTI_PERFORM e s) as [_ Hb].
  - right. intros Heq. rewrite Heq in Hu.
    assert (Hnil : used ++ performs e = [] ++ performs e)
      by (cbn; congruence).
    apply app_inv_tail in Hnil. congruence.
  - unfold unread, unread_c. now rewrite Hb.
Qed.

(** C5 (as amended).  A failure reaches [read] in two ways: a poll fails
    ([curl_multi_perform] returns an error code), or a message reports a
    failed transfer.  The call that sees either returns no bytes and sets
    [eof]; the error -1 is stored in the second case only; the bytes
    delivered during the call stay queued.  From then on a sequence of
    [read] calls never calls the engine, every call returns, the calls
    return the bytes still queued, in order, and then no bytes; [eof] and
    the error stay as they are. *)
Theorem reads_after_failure_drain_queue :
  (forall (e : engine) (s : input_stream) (size : nat)
          (used : list perform_reply),
      performs e = used ++ performs (out_engine (input_curl_read e s size)) ->
      existsb perform_failed used = true ->
      input_curl_read e s size
      = Returns (out_engine (input_curl_read e s size))
          (out_stream (input_curl_read e s size)) []
      /\ c_eof (is_data (out_stream (input_curl_read e s size))) = true
      /\ is_error (out_stream (input_curl_read e s size)) = is_error s
      /\ unread (out_stream (input_curl_read e s size)) = delivered used)
  /\ (forall (e : engine) (s : input_stream) (size : nat)
             (used : list perform_reply),
         performs e
         = used ++ performs (out_engine (input_curl_read e s size)) ->
         existsb perform_failed used = false ->
         existsb is_failed_done (seen_messages e used) = true ->
         input_curl_read e s size
         = Returns (out_engine (input_curl_read e s size))
             (out_stream (input_curl_read e s size)) []
         /\ c_eof (is_data (out_stream (input_curl_read e s size))) = true
         /\ is_error (out_stream (input_curl_read e s size)) = -1
         /\ unread (out_stream (input_curl_read e s size)) = delivered used)
  /\ (forall (e : engine) (s : input_stream) (sizes : list nat),
         c_eof (is_data s) = true ->
         snd (fst (run_reads e s sizes)) = e
         /\ length (fst (fst (run_reads e s sizes))) = length sizes
         /\ concat (fst (fst (run_reads e s sizes)))
            = firstn (list_sum sizes) (unread s)
         /\ unread (snd (run_reads e s sizes))
            = skipn (list_sum sizes) (unread s)
         /\ c_eof (is_data (snd (run_reads e s sizes))) = true
         /\ is_error (snd (run_reads e s sizes)) = is_error s).
Proof.
  assert (Hcall : forall e s size used,
             performs e
             = used ++ performs (out_engine (input_curl_read e s size)) ->
             used <> [] ->
             out_value (read_fill (S (length (performs e)))
                          CURLM_CALL_MULTI_PERFORM e s) = Some false ->
             fed used s (out_stream (read_fill (S (length (performs e)))
                                       CURLM_CALL_MULTI_PERFORM e s)) ->
             input_curl_read e s size
             = Returns (out_engine (input_curl_read e s size))
                 (out_stream (input_curl_read e s size)) []
             /\ out_stream (input_curl_read e s size)
                = out_stream (read_fill (S (length (performs e)))
                                CURLM_CALL_MULTI_PERFORM e s)
             /\ unread (out_stream (input_curl_read e s size))
                = delivered used).
  { intros e s size used Hu Hne Hf Hfed.
    destruct (read_of_fill e s size) as [_ Hr]. specialize (Hr Hf).
    assert (Hs : out_stream (input_curl_read e s size)
                 = out_stream (read_fill (S (length (performs e)))
                                 CURLM_CALL_MULTI_PERFORM e s))
      by (rewrite Hr at 1; reflexivity).
    split; [rewrite Hs; exact Hr|]. split; [exact Hs|].
    rewrite Hs, (fed_unread _ _ _ Hfed), (read_polled e s size used Hu Hne).
    reflexivity. }
  split; [|split].
  - intros e s size used Hu Hfail.
    destruct (read_ends_with e s size used Hu) as (waited & Hend & Hfed).
    assert (Hne : used <> []) by (intros ->; discriminate).
    destruct Hend as [(A & B & C & D)
                     |[(w & r & A & B & C & D & E & F & G & I & J)
                      |[(u & q & A & B & C & D & E & F & G & I)
                       |(A & B & C & D & E & F)]]]; try congruence.
    destruct (Hcall e s size used Hu Hne F Hfed) as (Hr & Hs & Hun).
    split; [exact Hr|]. rewrite Hs at 1 2. auto.
  - intros e s size used Hu Hok Hmsg.
    destruct (read_ends_with e s size used Hu) as (waited & Hend & Hfed).
    assert (Hne : used <> []) by (intros ->; discriminate).
    destruct Hend as [(A & B & C & D)
                     |[(w & r & A & B & C & D & E & F & G & I & J)
                      |[(u & q & A & B & C & D & E & F & G & I)
                       |(A & B & C & D & E & F)]]]; try congruence.
    + subst used. rewrite existsb_app in Hok. cbn in Hok.
      rewrite B, orb_true_r in Hok. discriminate.
    + destruct (Hcall e s size used Hu Hne D Hfed) as (Hr & Hs & Hun).
      split; [exact Hr|]. rewrite Hs at 1 2. auto.
  - intros e s sizes He. apply run_reads_at_eof. exact He.
Qed.

Lemma reads_after_failure_drain_queue_witness :
  let o1 := input_curl_open true failing_engine plain_url in
  let o2 := input_curl_read (out_engine o1) (out_stream o1) 5 in
  (o2 = Returns (out_engine o2) (out_stream o2) []
   /\ c_eof (is_data (out_stream o2)) = true
   /\ is_error (out_stream o2) = -1
   /\ unread (out_stream o2) = bytes "hello")
  /\ concat (fst (fst (run_reads (out_engine o2) (out_stream o2)
                         [2; 4; 4]%nat)))
     = bytes "hello".
Proof.
  cbv zeta.
  destruct reads_after_failure_drain_queue as (_ & Hmsg & Hafter).
  split.
  - apply (Hmsg (out_engine (input_curl_open true failing_engine plain_url))
             (out_stream (input_curl_open true failing_engine plain_url)) 5%nat
             [mk_perform [BodyData (bytes "hello")] CURLM_OK
                [mk_msg CURLMSG_DONE 56]]).
    + vm_compute. reflexivity.
    + reflexivity.
    + reflexivity.
  - destruct (Hafter
                (out_engine
                   (input_curl_read
                      (out_engine (input_curl_open true failing_engine plain_url))
                      (out_stream (input_curl_open true failing_engine plain_url))
                      5))
                (out_stream
                   (input_curl_read
                      (out_engine (input_curl_open true failing_engine plain_url))
                      (out_stream (input_curl_open true failing_engine plain_url))
                      5))
                [2; 4; 4]%nat) as (_ & _ & Hc & _).
    + vm_compute. reflexivity.
    + exact Hc.
Defined.

(** C9 (as amended).  A [read] of a non-zero size on a well-formed queue
    returns no bytes only when [eof] is set (end of the response, or an
    error), or when the wait for the socket gave up: the last
    [input_curl_select] returned 0 or less, and the stream is still active
    with nothing queued.  And the wait decides: every wait of a call but
    the last reported the socket ready, and a call whose last wait returned
    0 or less returns at once, with no bytes, on a stream that is still
    active, has nothing queued and stores no new error. *)
Theorem read_zero_bytes_cases :
  (forall (e e' : engine) (s s' : input_stream) (size : nat),
      (0 < size)%nat ->
      Forall buffer_ok (c_buffers (is_data s)) ->
      input_curl_read e s size = Returns e' s' [] ->
      c_eof (is_data s') = true
      \/ (c_eof (is_data s') = false /\ c_buffers (is_data s') = []
          /\ exists waited r, selects e = waited ++ r :: selects e'
                              /\ select_value r <= 0))
  /\ (forall (e : engine) (s : input_stream) (size : nat)
             (waited : list select_reply) (r : select_reply),
         selects e
         = waited ++ r :: selects (out_engine (input_curl_read e s size)) ->
         Forall (fun w => 0 < select_value w) waited
         /\ (select_value r <= 0 ->
             input_curl_read e s size
             = Returns (out_engine (input_curl_read e s size))
                 (out_stream (input_curl_read e s size)) []
             /\ c_eof (is_data (out_stream (input_curl_read e s size))) = false
             /\ c_buffers (is_data (out_stream (input_curl_read e s size))) = []
             /\ is_error (out_stream (input_curl_read e s size)) = is_error s)).
Proof.
  split.
  - intros e e' s s' size Hsize Hok Hread.
    rewrite input_curl_read_unfold in Hread.
    destruct (read_fill_core (S (length (performs e)))
                CURLM_CALL_MULTI_PERFORM e s)
      as ((used & _ & Hfed) & _ & _ & Hend).
    destruct (read_fill _ _ e s) as [e1 s1 [|]|e1 s1]; [| |discriminate].
    + (* the fill loop was left normally: bytes are returned unless the
         queue is empty, and then [eof] is set *)
      cbn in Hend, Hfed. inversion Hread as [[He Hs Ho]]. left.
      destruct (read_send_spec s1 size) as (Hout & _ & _ & Heof & _).
      cbv zeta in *. rewrite Heof.
      destruct (c_eof (is_data s1)); [reflexivity|]. cbn in Hend.
      destruct (c_buffers (is_data s1)) eqn:Hb; [discriminate|].
      exfalso. apply (unread_nonempty s1).
      * eapply fed_buffers_ok; eassumption.
      * rewrite Hb. discriminate.
      * rewrite Hout in Ho. destruct (unread s1); [reflexivity|].
        destruct size; [lia|discriminate].
    + inversion Hread; subst. exact Hend.
  - intros e s size waited r Hsel.
    destruct (read_ends e s size) as (used & waited' & _ & Hw & Hend & _).
    assert (Heq : waited'
                  ++ selects (out_engine (input_curl_read e s size))
                  = (waited ++ [r])
                    ++ selects (out_engine (input_curl_read e s size))).
    { rewrite <- app_assoc. cbn. congruence. }
    apply app_inv_tail in Heq. subst waited'.
    assert (Hready : forallb select_ready (waited ++ [r]) = true ->
              Forall (fun w => 0 < select_value w) waited
              /\ 0 < select_value r).
    { rewrite forallb_app. cbn. rewrite andb_true_r. intros H.
      apply andb_true_iff in H. destruct H as [H1 H2].
      split; [|now apply Z.ltb_lt in H2].
      apply Forall_forall. intros w Hin.
      rewrite forallb_forall in H1. apply Z.ltb_lt. now apply H1. }
    destruct Hend as [(A & B & C & D)
                     |[(w & r' & A & B & C & D & E & F & G & I & J)
                      |[(u & q & A & B & C & D & E & F & G & I)
                       |(A & B & C & D & E & F)]]].
    + destruct (Hready B). split; [assumption|lia].
    + apply app_inj_tail in A. destruct A as [<- <-].
      split.
      * apply Forall_forall. intros x Hin.
        rewrite forallb_forall in B. apply Z.ltb_lt. now apply B.
      * intros _. destruct (read_of_fill e s size) as [_ Hr].
        specialize (Hr F).
        assert (Hs : out_stream (input_curl_read e s size)
                     = out_stream (read_fill (S (length (performs e)))
                                     CURLM_CALL_MULTI_PERFORM e s))
          by (rewrite Hr at 1; reflexivity).
        split; [rewrite Hs; exact Hr|]. rewrite Hs. auto.
    + destruct (Hready E). split; [assumption|lia].
    + destruct (Hready C). split; [assumption|lia].
Qed.

Lemma read_zero_bytes_cases_witness :
  let o1 := input_curl_open true stalled_engine plain_url in
  let o2 := input_curl_read (out_engine o1) (out_stream o1) 4096 in
  o2 = Returns (out_engine o2) (out_stream o2) []
  /\ c_eof (is_data (out_stream o2)) = false
  /\ c_buffers (is_data (out_stream o2)) = []
  /\ is_error (out_stream o2) = is_error (out_stream o1).
Proof.
  cbv zeta.
  apply (proj2 read_zero_bytes_cases
           (out_engine (input_curl_open true stalled_engine plain_url))
           (out_stream (input_curl_open true stalled_engine plain_url))
           4096%nat [] (SelectReturns 0)).
  - vm_compute. reflexivity.
  - cbn. lia.
Defined.
